(** * nfc-server: the tag codec and the two Express routes of [src/index.js]

    A shallow embedding of [app.post("/nfcWrite")] and [app.get("/nfcRead")]
    together with the module variable [currentReader] and the event
    handlers that assign it.

    Data is modelled the way Node has it:
    - a JavaScript string is the list of its UTF-16 code units, so
      [dataString.length] and [chunkData.length] count code units;
    - a [Buffer] is the list of its bytes; [Buffer.byteLength],
      [buffer.write] and [Buffer.from(s, 'utf-8')] go through the UTF-8
      encoder, [toString('utf-8')] through the UTF-8 decoder with U+FFFD
      replacement;
    - [JSON.stringify] is a parameter of the write route and [JSON.parse]
      one of the read route; a serializer written out for values whose
      numbers are safe integers and a reference parser instantiate them
      on concrete payloads and tags;
    - the reader objects live in a store indexed by a reference, and
      [currentReader] holds such a reference or [null];
    - a tag answers each block read with a Buffer or a rejection, and
      keeps what is written to it;
    - a route returns the response it sends together with the calls it
      made on the reader, in order;
    - the [do ... while (unfinished)] loop has no bound in the source: it
      is run with fuel, and [None] means that it is still running when the
      fuel is used up.

    A route is run from start to end without a driver event in between. *)

From Stdlib Require Import String Ascii DecimalString DecimalPos.
From Stdlib Require Import ZArith List Bool Lia.
Import ListNotations.
Open Scope Z_scope.

(* ================================================================== *)
(** ** Strings and buffers *)

(** A JavaScript string is the list of its UTF-16 code units, each in
    [0, 65536): [s.length] is [length s].  The contents of a Node [Buffer]
    are the list of its bytes, each in [0, 256). *)
Abbreviation jsstring := (list Z) (only parsing).
Abbreviation bytes := (list Z) (only parsing).

(** An ASCII literal of the source as a JavaScript string. *)
Fixpoint str (s : string) : jsstring :=
  match s with
  | EmptyString => []
  | String a s' => Z.of_N (N_of_ascii a) :: str s'
  end.

Definition is_high_surrogate (c : Z) : bool := (0xD800 <=? c) && (c <=? 0xDBFF).
Definition is_low_surrogate (c : Z) : bool := (0xDC00 <=? c) && (c <=? 0xDFFF).

(** UTF-8 bytes of one Unicode scalar value. *)
Definition utf8_of_code_point (cp : Z) : bytes :=
  if cp <? 0x80 then [cp]
  else if cp <? 0x800 then
    [Z.lor 0xC0 (Z.shiftr cp 6); Z.lor 0x80 (Z.land cp 0x3F)]
  else if cp <? 0x10000 then
    [Z.lor 0xE0 (Z.shiftr cp 12);
     Z.lor 0x80 (Z.land (Z.shiftr cp 6) 0x3F);
     Z.lor 0x80 (Z.land cp 0x3F)]
  else
    [Z.lor 0xF0 (Z.shiftr cp 18);
     Z.lor 0x80 (Z.land (Z.shiftr cp 12) 0x3F);
     Z.lor 0x80 (Z.land (Z.shiftr cp 6) 0x3F);
     Z.lor 0x80 (Z.land cp 0x3F)].

(** The bytes U+FFFD encodes to; Node writes them for a lone surrogate. *)
Definition utf8_replacement : bytes := [0xEF; 0xBF; 0xBD].

(** The UTF-8 encoding of a string, one group of bytes per character.  A
    high surrogate followed by a low one is one character of four bytes. *)
Fixpoint utf8_chars (s : jsstring) : list bytes :=
  match s with
  | [] => []
  | c :: rest =>
      if is_high_surrogate c then
        match rest with
        | d :: rest' =>
            if is_low_surrogate d then
              utf8_of_code_point
                (0x10000 + Z.shiftl (c - 0xD800) 10 + (d - 0xDC00))
                :: utf8_chars rest'
            else utf8_replacement :: utf8_chars rest
        | [] => [utf8_replacement]
        end
      else if is_low_surrogate c then utf8_replacement :: utf8_chars rest
      else utf8_of_code_point c :: utf8_chars rest
  end.

(** [Buffer.from(s, 'utf-8')]. *)
Definition Buffer_from (s : jsstring) : bytes := concat (utf8_chars s).

(** [Buffer.byteLength(s)]. *)
Definition Buffer_byteLength (s : jsstring) : Z :=
  Z.of_nat (length (Buffer_from s)).

(** [Buffer.alloc(n, 0)]. *)
Definition Buffer_alloc (n : Z) : bytes := repeat 0 (Z.to_nat n).

(** The bytes [buffer.write(s)] stores from offset 0 into a buffer with
    [room] bytes: whole characters as long as they fit, never a part of
    one. *)
Fixpoint write_chars (chars : list bytes) (room : nat) : bytes :=
  match chars with
  | [] => []
  | ch :: rest =>
      if (length ch <=? room)%nat
      then ch ++ write_chars rest (room - length ch)
      else []
  end.

(** [buffer.write(s)]: the written bytes replace the start of the buffer,
    the rest of the buffer is kept. *)
Definition Buffer_write (buffer : bytes) (s : jsstring) : bytes :=
  let written := write_chars (utf8_chars s) (length buffer) in
  written ++ skipn (length written) buffer.

(** [buffer.slice(a, b)] for [0 <= a <= b]. *)
Definition Buffer_slice (buffer : bytes) (a b : Z) : bytes :=
  firstn (Z.to_nat (b - a)) (skipn (Z.to_nat a) buffer).

(** *** The UTF-8 decoder of [toString('utf-8')]

    The decoder of the Encoding standard, which Node follows: a malformed
    or truncated sequence gives one U+FFFD for its maximal valid prefix,
    and the offending byte is decoded again from the initial state. *)

(** A sequence under way: the bits gathered so far, how many continuation
    bytes are still due, and the range the next byte must be in. *)
Record pending := mkPending {
  p_bits : Z;
  p_due : nat;
  p_lower : Z;
  p_upper : Z
}.

(** One byte read in the initial state: the code points emitted and the
    sequence started, if any. *)
Definition decode_lead (b : Z) : list Z * option pending :=
  if (0 <=? b) && (b <=? 0x7F) then ([b], None)
  else if (0xC2 <=? b) && (b <=? 0xDF) then
    ([], Some (mkPending (Z.land b 0x1F) 1 0x80 0xBF))
  else if (0xE0 <=? b) && (b <=? 0xEF) then
    ([], Some (mkPending (Z.land b 0xF) 2
                 (if b =? 0xE0 then 0xA0 else 0x80)
                 (if b =? 0xED then 0x9F else 0xBF)))
  else if (0xF0 <=? b) && (b <=? 0xF4) then
    ([], Some (mkPending (Z.land b 0x7) 3
                 (if b =? 0xF0 then 0x90 else 0x80)
                 (if b =? 0xF4 then 0x8F else 0xBF)))
  else ([0xFFFD], None).

Fixpoint utf8_decode (st : option pending) (bs : bytes) : list Z :=
  match bs with
  | [] => match st with Some _ => [0xFFFD] | None => [] end
  | b :: rest =>
      match st with
      | None =>
          let (out, st') := decode_lead b in out ++ utf8_decode st' rest
      | Some p =>
          if (p_lower p <=? b) && (b <=? p_upper p) then
            let bits := Z.lor (Z.shiftl (p_bits p) 6) (Z.land b 0x3F) in
            match p_due p with
            | S (S n) =>
                utf8_decode (Some (mkPending bits (S n) 0x80 0xBF)) rest
            | _ => bits :: utf8_decode None rest
            end
          else
            let (out, st') := decode_lead b in
            0xFFFD :: out ++ utf8_decode st' rest
      end
  end.

(** The UTF-16 code units of one code point. *)
Definition utf16_of_code_point (cp : Z) : jsstring :=
  if cp <? 0x10000 then [cp]
  else [0xD800 + Z.shiftr (cp - 0x10000) 10;
        0xDC00 + Z.land (cp - 0x10000) 0x3FF].

(** [buffer.toString('utf-8')]. *)
Definition toString_utf8 (b : bytes) : jsstring :=
  flat_map utf16_of_code_point (utf8_decode None b).

(** [s.replace(/\0/g, '')]. *)
Definition strip_nulls (s : jsstring) : jsstring :=
  filter (fun c => negb (c =? 0)) s.

(** White space and line terminators of ECMAScript, which [trim] removes. *)
Definition is_js_space (c : Z) : bool :=
  ((0x09 <=? c) && (c <=? 0x0D)) || (c =? 0x20) || (c =? 0xA0)
  || (c =? 0x1680) || ((0x2000 <=? c) && (c <=? 0x200A))
  || (c =? 0x2028) || (c =? 0x2029) || (c =? 0x202F) || (c =? 0x205F)
  || (c =? 0x3000) || (c =? 0xFEFF).

Fixpoint trim_start (s : jsstring) : jsstring :=
  match s with
  | c :: rest => if is_js_space c then trim_start rest else s
  | [] => []
  end.

(** [s.trim()]. *)
Definition trim (s : jsstring) : jsstring :=
  rev (trim_start (rev (trim_start s))).

(** [s.startsWith(c)] and [s.endsWith(c)] for a one-unit string [c]. *)
Definition startsWith (s : jsstring) (c : Z) : bool :=
  match s with x :: _ => x =? c | [] => false end.
Definition endsWith (s : jsstring) (c : Z) : bool :=
  match rev s with x :: _ => x =? c | [] => false end.

(* ================================================================== *)
(** ** JavaScript values and the JSON object of the platform *)

(** The values that can reach the routes: what [express.json()] leaves in
    [req.body] and what [JSON.parse] returns.  A Number is carried as an
    integer: the routes never look inside a number, they hand it to
    [JSON.stringify] and receive it from [JSON.parse], which are
    parameters of the routes.  An object is the list of its own enumerable
    properties in enumeration order. *)
#[warnings="-register-all"]
Inductive JSValue :=
| JUndefined
| JNull
| JBool (b : bool)
| JNumber (n : Z)
| JString (s : jsstring)
| JArray (elems : list JSValue)
| JObject (props : list (jsstring * JSValue)).

(** [ToBoolean], the test behind [!data]. *)
Definition ToBoolean (v : JSValue) : bool :=
  match v with
  | JUndefined | JNull => false
  | JBool b => b
  | JNumber n => negb (n =? 0)
  | JString s => match s with [] => false | _ => true end
  | JArray _ | JObject _ => true
  end.

(** Decimal digits of an integer, as [Number.prototype.toString] prints a
    safe integer (of magnitude below 2^53).  Beyond that the platform
    rounds and, from 10^21, prints an exponent: a statement that shows the
    serialized text of every payload is made of [nfcWrite_with], for any
    serializer. *)
Definition Number_toString (n : Z) : jsstring :=
  str (NilZero.string_of_int (Z.to_int n)).

(** [const { ...data } = v]: the own enumerable properties of [v] copied
    into a fresh object; [None] is the TypeError thrown for [undefined]
    and [null]. *)
Definition rest_properties (v : JSValue) : option (list (jsstring * JSValue)) :=
  match v with
  | JUndefined | JNull => None
  | JBool _ | JNumber _ => Some []
  | JString s =>
      Some (map (fun ic => (Number_toString (Z.of_nat (fst ic)), JString [snd ic]))
              (combine (seq 0 (length s)) s))
  | JArray l =>
      Some (map (fun iv => (Number_toString (Z.of_nat (fst iv)), snd iv))
              (combine (seq 0 (length l)) l))
  | JObject ps => Some ps
  end.

Definition hex_digit (d : Z) : Z :=
  if d <? 10 then 48 + d else 97 + (d - 10).

(** [UnicodeEscape]: backslash, u and four lower-case hexadecimal digits. *)
Definition unicode_escape (c : Z) : jsstring :=
  [92; 117; hex_digit (Z.land (Z.shiftr c 12) 0xF);
   hex_digit (Z.land (Z.shiftr c 8) 0xF);
   hex_digit (Z.land (Z.shiftr c 4) 0xF);
   hex_digit (Z.land c 0xF)].

(** The escape of one code unit that is not part of a surrogate pair. *)
Definition quote_unit (c : Z) : jsstring :=
  if c =? 0x08 then str "\b"
  else if c =? 0x09 then str "\t"
  else if c =? 0x0A then str "\n"
  else if c =? 0x0C then str "\f"
  else if c =? 0x0D then str "\r"
  else if c =? 0x22 then [92; 34]
  else if c =? 0x5C then [92; 92]
  else if (c <? 0x20) || is_high_surrogate c || is_low_surrogate c
       then unicode_escape c
  else [c].

Fixpoint quote_units (s : jsstring) : jsstring :=
  match s with
  | [] => []
  | c :: rest =>
      if is_high_surrogate c then
        match rest with
        | d :: rest' =>
            if is_low_surrogate d then c :: d :: quote_units rest'
            else unicode_escape c ++ quote_units rest
        | [] => unicode_escape c
        end
      else quote_unit c ++ quote_units rest
  end.

(** [QuoteJSONString]. *)
Definition QuoteJSONString (s : jsstring) : jsstring :=
  [34] ++ quote_units s ++ [34].

Fixpoint join_comma (parts : list jsstring) : jsstring :=
  match parts with
  | [] => []
  | [p] => p
  | p :: rest => p ++ [44] ++ join_comma rest
  end.

(** [SerializeJSONProperty] without indentation; [None] is [undefined]. *)
Fixpoint SerializeJSONProperty (v : JSValue) : option jsstring :=
  match v with
  | JUndefined => None
  | JNull => Some (str "null")
  | JBool true => Some (str "true")
  | JBool false => Some (str "false")
  | JNumber n => Some (Number_toString n)
  | JString s => Some (QuoteJSONString s)
  | JArray l =>
      Some ([91] ++
            join_comma
              (map (fun e => match SerializeJSONProperty e with
                             | Some t => t
                             | None => str "null"
                             end) l)
            ++ [93])
  | JObject ps =>
      Some ([123] ++
            join_comma
              (flat_map (fun kv => match SerializeJSONProperty (snd kv) with
                                   | Some t => [QuoteJSONString (fst kv) ++ [58] ++ t]
                                   | None => []
                                   end) ps)
            ++ [125])
  end.

(** [JSON.stringify(v)], for values whose numbers are safe integers. *)
Definition JSON_stringify (v : JSValue) : option jsstring :=
  SerializeJSONProperty v.

(** *** A reference [JSON.parse]

    The routes are verified for an arbitrary [JSON.parse] (a parameter of
    the section below).  This reference parser instantiates it on concrete
    tag contents.  It reads the JSON grammar with integer numbers; a
    repeated key keeps its first position and its last value.  On the
    text of a plain value it returns that value. *)

Definition is_json_ws (c : Z) : bool :=
  (c =? 0x20) || (c =? 0x09) || (c =? 0x0A) || (c =? 0x0D).

Fixpoint skip_ws (s : jsstring) : jsstring :=
  match s with
  | c :: rest => if is_json_ws c then skip_ws rest else s
  | [] => []
  end.

Definition hex_value (c : Z) : option Z :=
  if (48 <=? c) && (c <=? 57) then Some (c - 48)
  else if (97 <=? c) && (c <=? 102) then Some (c - 87)
  else if (65 <=? c) && (c <=? 70) then Some (c - 55)
  else None.

(** The characters of a string literal after its opening quote, and what
    follows the closing quote. *)
Fixpoint parse_string_body (s : jsstring) : option (jsstring * jsstring) :=
  match s with
  | [] => None
  | c :: rest =>
      if c =? 34 then Some ([], rest)
      else if c <? 0x20 then None
      else if c =? 92 then
        match rest with
        | e :: rest1 =>
            let plain (u : Z) :=
              match parse_string_body rest1 with
              | Some (t, k) => Some (u :: t, k)
              | None => None
              end in
            if e =? 34 then plain 34
            else if e =? 92 then plain 92
            else if e =? 47 then plain 47
            else if e =? 98 then plain 8
            else if e =? 102 then plain 12
            else if e =? 110 then plain 10
            else if e =? 114 then plain 13
            else if e =? 116 then plain 9
            else if e =? 117 then
              match rest1 with
              | h1 :: h2 :: h3 :: h4 :: rest2 =>
                  match hex_value h1, hex_value h2, hex_value h3, hex_value h4,
                        parse_string_body rest2 with
                  | Some a, Some b, Some c', Some d, Some (t, k) =>
                      Some (((a * 16 + b) * 16 + c') * 16 + d :: t, k)
                  | _, _, _, _, _ => None
                  end
              | _ => None
              end
            else None
        | [] => None
        end
      else
        match parse_string_body rest with
        | Some (t, k) => Some (c :: t, k)
        | None => None
        end
  end.

Definition is_digit (c : Z) : bool := (48 <=? c) && (c <=? 57).

Fixpoint parse_digits (acc : Z) (s : jsstring) : Z * jsstring :=
  match s with
  | c :: rest => if is_digit c then parse_digits (acc * 10 + (c - 48)) rest
                 else (acc, s)
  | [] => (acc, [])
  end.

(** An integer literal: no leading zero, no fraction, no exponent. *)
Definition parse_int (s : jsstring) : option (Z * jsstring) :=
  let unsigned (t : jsstring) :=
    match t with
    | c :: rest =>
        if c =? 48 then
          match rest with
          | d :: _ => if is_digit d then None else Some (0, rest)
          | [] => Some (0, rest)
          end
        else if is_digit c then Some (parse_digits 0 t)
        else None
    | [] => None
    end in
  let checked (r : option (Z * jsstring)) :=
    match r with
    | Some (n, c :: rest) =>
        if (c =? 46) || (c =? 101) || (c =? 69) then None
        else Some (n, c :: rest)
    | other => other
    end in
  match s with
  | c :: rest =>
      if c =? 45 then
        match checked (unsigned rest) with
        | Some (n, k) => Some (- n, k)
        | None => None
        end
      else checked (unsigned s)
  | [] => None
  end.

Fixpoint jsstring_eqb (a b : jsstring) : bool :=
  match a, b with
  | [], [] => true
  | x :: a', y :: b' => (x =? y) && jsstring_eqb a' b'
  | _, _ => false
  end.

(** [CreateDataProperty] on a property list. *)
Fixpoint set_property (ps : list (jsstring * JSValue)) (k : jsstring) (v : JSValue)
  : list (jsstring * JSValue) :=
  match ps with
  | [] => [(k, v)]
  | (k', v') :: rest =>
      if jsstring_eqb k' k then (k', v) :: rest
      else (k', v') :: set_property rest k v
  end.

Definition expect (c : Z) (s : jsstring) : option jsstring :=
  match skip_ws s with
  | x :: rest => if x =? c then Some rest else None
  | [] => None
  end.

Definition literal (word : jsstring) (v : JSValue) (s : jsstring)
  : option (JSValue * jsstring) :=
  if jsstring_eqb (firstn (length word) s) word
  then Some (v, skipn (length word) s) else None.

Fixpoint parse_value (fuel : nat) (s : jsstring) : option (JSValue * jsstring) :=
  match fuel with
  | O => None
  | S fuel' =>
      match skip_ws s with
      | [] => None
      | c :: rest =>
          if c =? 123 then
            match skip_ws rest with
            | 125 :: k => Some (JObject [], k)
            | _ => parse_members fuel' [] rest
            end
          else if c =? 91 then
            match skip_ws rest with
            | 93 :: k => Some (JArray [], k)
            | _ => parse_elements fuel' [] rest
            end
          else if c =? 34 then
            match parse_string_body rest with
            | Some (t, k) => Some (JString t, k)
            | None => None
            end
          else if c =? 116 then literal (str "true") (JBool true) (c :: rest)
          else if c =? 102 then literal (str "false") (JBool false) (c :: rest)
          else if c =? 110 then literal (str "null") JNull (c :: rest)
          else
            match parse_int (c :: rest) with
            | Some (n, k) => Some (JNumber n, k)
            | None => None
            end
      end
  end
with parse_members (fuel : nat) (acc : list (jsstring * JSValue)) (s : jsstring)
  : option (JSValue * jsstring) :=
  match fuel with
  | O => None
  | S fuel' =>
      match expect 34 s with
      | None => None
      | Some s1 =>
          match parse_string_body s1 with
          | None => None
          | Some (key, s2) =>
              match expect 58 s2 with
              | None => None
              | Some s3 =>
                  match parse_value fuel' s3 with
                  | None => None
                  | Some (v, s4) =>
                      let acc' := set_property acc key v in
                      match skip_ws s4 with
                      | 44 :: s5 => parse_members fuel' acc' s5
                      | 125 :: s5 => Some (JObject acc', s5)
                      | _ => None
                      end
                  end
              end
          end
      end
  end
with parse_elements (fuel : nat) (acc : list JSValue) (s : jsstring)
  : option (JSValue * jsstring) :=
  match fuel with
  | O => None
  | S fuel' =>
      match parse_value fuel' s with
      | None => None
      | Some (v, s1) =>
          match skip_ws s1 with
          | 44 :: s2 => parse_elements fuel' (acc ++ [v]) s2
          | 93 :: s2 => Some (JArray (acc ++ [v]), s2)
          | _ => None
          end
      end
  end.

(** The reference [JSON.parse]: one value, then nothing but white space;
    [None] is the SyntaxError. *)
Definition JSON_parse_ref (s : jsstring) : option JSValue :=
  match parse_value (2 * length s + 2) s with
  | Some (v, k) => match skip_ws k with [] => Some v | _ => None end
  | None => None
  end.

(* ================================================================== *)
(** ** The reader capability and the session variable *)

(** What the tag under a reader answers: [dev_mem b] is the Buffer that
    [reader.read(b, 4)] resolves to when block [b] is readable, and the
    promise rejects when it is not; [reader.write(b, chunk)] stores
    [chunk] at a writable block and rejects at any other. *)
Record Device := mkDevice {
  dev_readable : Z -> bool;
  dev_writable : Z -> bool;
  dev_mem : Z -> bytes
}.

(** No tag in the field: every transfer fails. *)
Definition no_tag : Device :=
  mkDevice (fun _ => false) (fun _ => false) (fun _ => []).

(** The card descriptor the driver keeps in [reader.card]. *)
Definition Card := string.

(** A reader object of the driver. *)
Record Reader := mkReader {
  reader_name : string;
  card : option Card;
  tag : Device
}.

(** The store of reader objects and the module variable [currentReader],
    a reference into it or [null]. *)
Record World := mkWorld {
  heap : nat -> Reader;
  currentReader : option nat
}.

Definition update {A} (f : nat -> A) (k : nat) (v : A) : nat -> A :=
  fun x => if Nat.eqb x k then v else f x.

Definition updateZ {A} (f : Z -> A) (k : Z) (v : A) : Z -> A :=
  fun x => if x =? k then v else f x.

(** The calls made on a reader, in the order they are issued. *)
Inductive IO :=
| IOWrite (rid : nat) (block : Z) (data : bytes)
| IORead (rid : nat) (block : Z) (len : Z).

(** [reader.write(block, data)]: [None] when the promise rejects. *)
Definition reader_write (rid : nat) (block : Z) (data : bytes) (w : World)
  : option World :=
  let r := heap w rid in
  if dev_writable (tag r) block then
    let t := tag r in
    let t' := mkDevice (dev_readable t) (dev_writable t)
                (updateZ (dev_mem t) block data) in
    Some (mkWorld (update (heap w) rid (mkReader (reader_name r) (card r) t'))
            (currentReader w))
  else None.

(** [reader.read(block, length)]: [None] when the promise rejects. *)
Definition reader_read (rid : nat) (block len : Z) (w : World) : option bytes :=
  let t := tag (heap w rid) in
  if dev_readable t block then Some (dev_mem t block) else None.

(** *** Events of the driver (lines 22-46)

    The handlers of the source log, and two of them assign
    [currentReader]. *)
Inductive Event :=
| EvReader (rid : nat) (name : string)
| EvCard (rid : nat) (c : Card) (t : Device)
| EvCardOff (rid : nat)
| EvReaderError (rid : nat)
| EvEnd (rid : nat)
| EvNfcError.

(** Modelled from the spec: the driver (nfc-pcsc, not under src/) keeps the
    card-presence flag.  Per section 4.1 a card-detected event sets the
    flag of the reader it comes from and a card-removed event clears it; a
    reader object is created without a card. *)
Definition driver_update (e : Event) (h : nat -> Reader) : nat -> Reader :=
  match e with
  | EvReader rid name => update h rid (mkReader name None no_tag)
  | EvCard rid c t => update h rid (mkReader (reader_name (h rid)) (Some c) t)
  | EvCardOff rid => update h rid (mkReader (reader_name (h rid)) None no_tag)
  | _ => h
  end.

(** The handlers registered by [nfc.on("reader", ...)]: attaching a reader
    makes it the current one, the end of any reader clears the variable. *)
Definition handle_event (e : Event) (w : World) : World :=
  let h := driver_update e (heap w) in
  match e with
  | EvReader rid _ => mkWorld h (Some rid)
  | EvEnd _ => mkWorld h None
  | _ => mkWorld h (currentReader w)
  end.

Definition run_events (evs : list Event) (w : World) : World :=
  fold_left (fun w e => handle_event e w) evs w.

(* ================================================================== *)
(** ** Express responses and exceptions *)

Inductive Body :=
| Text (s : string)
| Json (v : JSValue).

Record Response := mkResponse {
  status : Z;
  sent : Body
}.

Inductive JSError :=
| TypeError
| SyntaxError
| TransferError
| Error (msg : string).

(** How a [try] block ends. *)
Inductive Completion :=
| Return (r : Response)
| Throw (e : JSError).

Definition res_missing_data : Response :=
  mkResponse 400 (Text "Missing 'data' field in the request body.").
Definition res_no_reader : Response :=
  mkResponse 500 (Text "No NFC reader connected.").
Definition res_too_large : Response :=
  mkResponse 400 (Text "Data exceeds the maximum size of 180 bytes.").
Definition res_written : Response :=
  mkResponse 200
    (Json (JObject [(str "message", JString (str "Data successfully written to NFC tag"))])).
Definition res_write_error : Response :=
  mkResponse 500 (Json (JObject [(str "error", JString (str "Error writing to NFC tag"))])).
Definition res_no_card : Response :=
  mkResponse 404 (Text "No card detected. Place a card on the reader.").
Definition res_data (data : JSValue) : Response :=
  mkResponse 200 (Json (JObject [(str "data", data)])).
Definition res_read_error : Response :=
  mkResponse 500 (Text "Error reading NFC tag").

Definition framing_error : JSError :=
  Error "Reconstructed data does not look like valid JSON.".

(* ================================================================== *)
(** ** POST /nfcWrite (lines 57-98) *)

Definition blockSize : Z := 4.

(** [Math.ceil(a / b)] for integers [0 <= a] and [0 < b]. *)
Definition Math_ceil_div (a b : Z) : Z := (a + b - 1) / b.

(** Lines 79-80: the zero-filled buffer sized from [dataString.length],
    then [buffer.write(dataString)]. *)
Definition encode_buffer (dataString : jsstring) : bytes :=
  let buffer :=
    Buffer_alloc (Math_ceil_div (Z.of_nat (length dataString)) blockSize * blockSize) in
  Buffer_write buffer dataString.

(** The chunk of iteration [i] (line 83). *)
Definition chunk_at (buffer : bytes) (i : Z) : bytes :=
  Buffer_slice buffer (i * blockSize) ((i + 1) * blockSize).

(** Lines 82-86, from iteration [i] with [n] iterations left.  The first
    rejected write leaves the loop with its error; the blocks written
    before it stay written. *)
Fixpoint write_loop (n : nat) (i : Z) (buffer : bytes) (rid : nat) (w : World)
  : option JSError * World * list IO :=
  match n with
  | O => (None, w, [])
  | S n' =>
      let chunk := chunk_at buffer i in
      match reader_write rid (4 + i) chunk w with
      | None => (Some TransferError, w, [IOWrite rid (4 + i) chunk])
      | Some w' =>
          let '(e, w'', tr) := write_loop n' (i + 1) buffer rid w' in
          (e, w'', IOWrite rid (4 + i) chunk :: tr)
      end
  end.

(** The iterations of [for (let i = 0; i < buffer.length / blockSize; i++)]. *)
Definition iterations (buffer : bytes) : nat :=
  Z.to_nat (Math_ceil_div (Z.of_nat (length buffer)) blockSize).

Section WriteRoute.

(** [JSON.stringify] of the platform; [None] is [undefined], on which
    [Buffer.byteLength] throws. *)
Variable stringify : JSValue -> option jsstring.

(** The [try] block of the route. *)
Definition nfcWrite_try_with (body : JSValue) (w : World)
  : Completion * World * list IO :=
  match rest_properties body with
  | None => (Throw TypeError, w, [])
  | Some props =>
      let data := JObject props in
      if negb (ToBoolean data) then (Return res_missing_data, w, [])
      else
        match currentReader w with
        | None => (Return res_no_reader, w, [])
        | Some rid =>
            match stringify data with
            | None => (Throw TypeError, w, [])
            | Some dataString =>
                if Buffer_byteLength dataString >? 180
                then (Return res_too_large, w, [])
                else
                  let buffer := encode_buffer dataString in
                  match write_loop (iterations buffer) 0 buffer rid w with
                  | (Some e, w', tr) => (Throw e, w', tr)
                  | (None, w', tr) => (Return res_written, w', tr)
                  end
            end
        end
  end.

(** The route: the response sent, the world afterwards and the reader
    calls issued. *)
Definition nfcWrite_with (body : JSValue) (w : World)
  : Response * World * list IO :=
  match nfcWrite_try_with body w with
  | (Return r, w', tr) => (r, w', tr)
  | (Throw _, w', tr) => (res_write_error, w', tr)
  end.

End WriteRoute.

(** The route with the serializer written out above: the one run on
    concrete payloads. *)
Definition nfcWrite_try (body : JSValue) (w : World)
  : Completion * World * list IO :=
  nfcWrite_try_with JSON_stringify body w.

Definition nfcWrite (body : JSValue) (w : World) : Response * World * list IO :=
  nfcWrite_with JSON_stringify body w.

(* ================================================================== *)
(** ** GET /nfcRead (lines 100-148) *)

(** Line 118: the text of a chunk with its null characters removed. *)
Definition chunkData_of (chunk : bytes) : jsstring :=
  strip_nulls (toString_utf8 chunk).

(** Lines 115-129, from iteration [i] with [buffer] accumulated: the final
    buffer and the reads issued; [None] when the loop is still running
    after [fuel] iterations. *)
Fixpoint read_loop (fuel : nat) (rid : nat) (w : World) (i : Z) (buffer : bytes)
  : option (bytes * list IO) :=
  match fuel with
  | O => None
  | S fuel' =>
      match reader_read rid (4 + i) blockSize w with
      | Some chunk =>
          let chunkData := chunkData_of chunk in
          let buffer' := buffer ++ Buffer_from chunkData in
          if Z.of_nat (length chunkData) <? blockSize
          then Some (buffer', [IORead rid (4 + i) blockSize])
          else
            match read_loop fuel' rid w (i + 1) buffer' with
            | Some (b, tr) => Some (b, IORead rid (4 + i) blockSize :: tr)
            | None => None
            end
      | None => Some (buffer, [IORead rid (4 + i) blockSize])
      end
  end.

(** Line 131. *)
Definition reconstruct (buffer : bytes) : jsstring :=
  trim (strip_nulls (toString_utf8 buffer)).

(** Line 135. *)
Definition looks_like_json (dataString : jsstring) : bool :=
  startsWith dataString 123 && endsWith dataString 125.

Section Routes.

(** [JSON.parse] of the platform; [None] is the SyntaxError it throws. *)
Variable JSON_parse : jsstring -> option JSValue.

(** Lines 131-143: from the accumulated buffer to the response. *)
Definition finish_read (buffer : bytes) : Completion :=
  let dataString := reconstruct buffer in
  if negb (startsWith dataString 123) || negb (endsWith dataString 125)
  then Throw framing_error
  else
    match JSON_parse dataString with
    | None => Throw SyntaxError
    | Some data => Return (res_data data)
    end.

(** The [try] block of the route. *)
Definition nfcRead_try (fuel : nat) (w : World) : option (Completion * list IO) :=
  match currentReader w with
  | None => Some (Return res_no_reader, [])
  | Some rid =>
      match card (heap w rid) with
      | None => Some (Return res_no_card, [])
      | Some _ =>
          match read_loop fuel rid w 0 (Buffer_alloc 0) with
          | None => None
          | Some (buffer, tr) => Some (finish_read buffer, tr)
          end
      end
  end.

(** The route: the response sent and the reader calls issued. *)
Definition nfcRead (fuel : nat) (w : World) : option (Response * list IO) :=
  match nfcRead_try fuel w with
  | None => None
  | Some (Return r, tr) => Some (r, tr)
  | Some (Throw _, tr) => Some (res_read_error, tr)
  end.

End Routes.

(* ================================================================== *)
(** ** Vocabulary of the statements *)

(** The iteration numbers [i, i+1, ..., i+n-1]. *)
Fixpoint zrange (i : Z) (n : nat) : list Z :=
  match n with
  | O => []
  | S n' => i :: zrange (i + 1) n'
  end.

(** Iteration [i] of the read loop sets [unfinished = false]: the read of
    block [4 + i] is rejected, or its text without nulls has fewer than
    [blockSize] code units. *)
Definition stops_at (rid : nat) (w : World) (i : Z) : bool :=
  match reader_read rid (4 + i) blockSize w with
  | Some chunk => Z.of_nat (length (chunkData_of chunk)) <? blockSize
  | None => true
  end.

(** What iteration [i] appends to the buffer. *)
Definition block_text (rid : nat) (w : World) (i : Z) : bytes :=
  match reader_read rid (4 + i) blockSize w with
  | Some chunk => Buffer_from (chunkData_of chunk)
  | None => []
  end.

(** The buffer after iterations [0 .. n-1]. *)
Definition gathered (rid : nat) (w : World) (n : nat) : bytes :=
  concat (map (block_text rid w) (zrange 0 n)).

(** The reads of iterations [i .. i+n-1]. *)
Definition reads (rid : nat) (i : Z) (n : nat) : list IO :=
  map (fun j => IORead rid (4 + j) blockSize) (zrange i n).

(** The writes of the chunks of [buffer], one per block from block 4. *)
Definition writes (rid : nat) (buffer : bytes) : list IO :=
  map (fun j => IOWrite rid (4 + j) (chunk_at buffer j))
      (zrange 0 (iterations buffer)).

(** Number of bytes of a chunk that are not null. *)
Definition nonnull_bytes (chunk : bytes) : nat :=
  length (filter (fun b => negb (b =? 0)) chunk).

(** A string of non-null ASCII characters. *)
Definition ascii_text (s : list Z) : Prop := Forall (fun c => 0 < c < 128) s.

(** The request body sits in the set [express.json()] hands to the route
    when it is neither [undefined] nor [null]. *)
Definition nullish (v : JSValue) : bool :=
  match v with JUndefined | JNull => true | _ => false end.

(** Code units left of a list of code points once nulls are removed. *)
Definition units (cps : list Z) : nat :=
  length (strip_nulls (flat_map utf16_of_code_point cps)).

(** Bytes below 128, null included. *)
Definition ascii_bytes (l : list Z) : Prop := Forall (fun c => 0 <= c < 128) l.

(** Whether the reader object carries a card. *)
Definition has_card (r : Reader) : bool :=
  match card r with Some _ => true | None => false end.

(** The card flag of reader [rid] after the events [evs], from the events
    alone: set by its last card event, cleared by its last card-removed
    event and by its creation. *)
Fixpoint card_seen (rid : nat) (evs : list Event) (seen : bool) : bool :=
  match evs with
  | [] => seen
  | e :: rest =>
      card_seen rid rest
        match e with
        | EvReader r _ => if Nat.eqb rid r then false else seen
        | EvCard r _ _ => if Nat.eqb rid r then true else seen
        | EvCardOff r => if Nat.eqb rid r then false else seen
        | _ => seen
        end
  end.

(** A code unit below 128. *)
Definition is_ascii (c : Z) : bool := (0 <=? c) && (c <? 128).

(** A value all of whose strings and property names are ASCII. *)
Fixpoint ascii_value (v : JSValue) : bool :=
  match v with
  | JString s => forallb is_ascii s
  | JArray l => forallb ascii_value l
  | JObject ps =>
      forallb (fun kv => forallb is_ascii (fst kv) && ascii_value (snd kv)) ps
  | _ => true
  end.

(** [ascii_text] as a test. *)
Definition ascii_textb (s : list Z) : bool :=
  forallb (fun c => (0 <? c) && (c <? 128)) s.

(** *** Concrete tags, worlds and payloads *)

(** A tag of [n] blocks, all zero, whose blocks from 4 on can be written. *)
Definition blank_tag (n : Z) : Device :=
  mkDevice (fun b => (0 <=? b) && (b <? n))
           (fun b => (4 <=? b) && (b <? n))
           (fun _ => [0; 0; 0; 0]).

(** A tag that answers every read with the same four bytes. *)
Definition endless_tag (chunk : bytes) : Device :=
  mkDevice (fun _ => true) (fun _ => false) (fun _ => chunk).

(** A tag holding the given blocks from block 4 on; reads beyond fail. *)
Definition tag_of_blocks (blocks : list bytes) : Device :=
  mkDevice (fun b => (4 <=? b) && (b <? 4 + Z.of_nat (length blocks)))
           (fun _ => false)
           (fun b => nth (Z.to_nat (b - 4)) blocks []).

(** A tag holding [{"a":"xy"}] in three blocks, the third with two bytes
    of text, and four more bytes in a fourth block. *)
Definition tag_xy : Device :=
  tag_of_blocks [[123; 34; 97; 34]; [58; 34; 120; 121]; [34; 125; 0; 0];
                 [106; 117; 110; 107]].

(** A tag of two full blocks holding [{"a":12}]; block 6 cannot be read. *)
Definition tag_a12 : Device :=
  tag_of_blocks [[123; 34; 97; 34]; [58; 49; 50; 125]].

(** A tag holding the text hello. *)
Definition tag_hello : Device :=
  tag_of_blocks [[104; 101; 108; 108]; [111; 0; 0; 0]].

(** One reader, attached and current, with a card on it. *)
Definition world_with (t : Device) : World :=
  mkWorld (fun _ => mkReader "ACR122U" (Some "NTAG215"%string) t) (Some 0%nat).

(** One reader, attached and current, without a card. *)
Definition world_without_card : World :=
  mkWorld (fun _ => mkReader "ACR122U" None no_tag) (Some 0%nat).

(** No reader attached. *)
Definition world_without_reader : World :=
  mkWorld (fun _ => mkReader "" None no_tag) None.

(** The payload of the scenario of the specification, [{"a":1}]. *)
Definition payload_a1 : JSValue := JObject [(str "a", JNumber 1)].

(** [{"a":12}]: 8 bytes, two full blocks. *)
Definition payload_a12 : JSValue := JObject [(str "a", JNumber 12)].

(** [{"a":"x...x"}] with [n] letters: [8 + n] bytes once serialized. *)
Definition payload_x (n : nat) : JSValue :=
  JObject [(str "a", JString (repeat 120 n))].

(** [{"a":"é"}]: 10 bytes, 9 code units. *)
Definition payload_e_acute : JSValue := JObject [(str "a", JString [233])].

(** [{"a":"ééé"}]: 14 bytes, 11 code units. *)
Definition payload_eee : JSValue := JObject [(str "a", JString [233; 233; 233])].

(** What the routes answer when the write of [body] on a blank tag of 49
    blocks is followed by a read. *)
Definition write_then_read (parse : jsstring -> option JSValue) (body : JSValue)
    (fuel : nat) : Response * option (Response * list IO) :=
  let '(r, w, _) := nfcWrite body (world_with (blank_tag 49)) in
  (r, nfcRead parse fuel w).

(** What the routes answer when, on a blank tag of 49 blocks, the write of
    [first] is followed by the write of [body] and then by a read. *)
Definition write_write_read (parse : jsstring -> option JSValue)
    (first body : JSValue) (fuel : nat)
  : Response * option (Response * list IO) :=
  let '(_, w1, _) := nfcWrite first (world_with (blank_tag 49)) in
  let '(r, w2, _) := nfcWrite body w1 in
  (r, nfcRead parse fuel w2).

(** The tag of [world_with (blank_tag 49)] after [{"a":"xxxxxxxx"}], 16
    bytes, was written to it. *)
Definition used_world : World :=
  snd (fst (nfcWrite (payload_x 8) (world_with (blank_tag 49)))).

(** The round trip of [body] in world [w]: the write answers with success
    and a read that follows answers with the payload. *)
Definition roundtrip_at (parse : jsstring -> option JSValue)
    (body : JSValue) (w : World) : Prop :=
  exists props w' trw fuel tr,
    rest_properties body = Some props
    /\ nfcWrite body w = (res_written, w', trw)
    /\ nfcRead parse fuel w' = Some (res_data (JObject props), tr).

(** A current reader with a card on it, whose tag takes writes and reads
    on the 45 blocks that 180 bytes can need. *)
Definition medium_ready (w : World) : Prop :=
  exists rid c,
    currentReader w = Some rid /\ card (heap w rid) = Some c
    /\ forall b, 4 <= b < 49 ->
         dev_writable (tag (heap w rid)) b = true
         /\ dev_readable (tag (heap w rid)) b = true.

(** *** Vocabulary of the further properties *)

(** The event is the attachment of a reader. *)
Definition attaches (e : Event) : bool :=
  match e with EvReader _ _ => true | _ => false end.

(** The event is the end of a reader. *)
Definition ends (e : Event) : bool :=
  match e with EvEnd _ => true | _ => false end.

(** The first [n] blocks of four bytes of [l]. *)
Definition split_blocks (n : nat) (l : bytes) : list bytes :=
  map (fun j => firstn 4 (skipn (4 * j) l)) (seq 0 n).

(** The text [{"a":"x...x"}] with [n] letters, [8 + n] bytes. *)
Definition text_x (n : nat) : list Z :=
  [123; 34; 97; 34; 58; 34] ++ repeat 120 n ++ [34; 125].

(** Two readers attached, each with a card on a blank tag; reader 1, the
    last one attached, is current. *)
Definition world_two_readers : World :=
  mkWorld (fun rid => mkReader (if Nat.eqb rid 0 then "ACR122U" else "ACR1252U")
                        (Some "NTAG215"%string) (blank_tag 49))
          (Some 1%nat).

(** A tag of 49 blocks, all zero, on which block [k] refuses writes. *)
Definition tag_locked_at (k : Z) : Device :=
  mkDevice (fun b => (0 <=? b) && (b <? 49))
           (fun b => (4 <=? b) && (b <? 49) && negb (b =? k))
           (fun _ => [0; 0; 0; 0]).

(** A Unicode scalar value: a code point that is not a surrogate. *)
Definition scalar (cp : Z) : Prop :=
  0 <= cp < 0xD800 \/ 0xE000 <= cp < 0x110000.

(** A sequence under way can only end in a scalar value: whatever the [d]
    continuation bytes still due, each in its range, the code point put
    together from them is one. *)
Fixpoint seq_ok (d : nat) (bits lo hi : Z) : Prop :=
  match d with
  | S ((S _) as d') =>
      forall b, lo <= b <= hi ->
                seq_ok d' (Z.lor (Z.shiftl bits 6) (Z.land b 0x3F)) 0x80 0xBF
  | _ =>
      forall b, lo <= b <= hi ->
                scalar (Z.lor (Z.shiftl bits 6) (Z.land b 0x3F))
  end.

Definition pending_ok (p : pending) : Prop :=
  seq_ok (p_due p) (p_bits p) (p_lower p) (p_upper p).

(** A well-formed UTF-16 string: code units below 65536, every surrogate
    part of a pair of a high one followed by a low one. *)
Inductive well_formed : list Z -> Prop :=
| wf_nil : well_formed []
| wf_unit c s :
    0 <= c < 0x10000 ->
    is_high_surrogate c = false -> is_low_surrogate c = false ->
    well_formed s -> well_formed (c :: s)
| wf_pair h l s :
    is_high_surrogate h = true -> is_low_surrogate l = true ->
    well_formed s -> well_formed (h :: l :: s).

(** The text [chunkData] of iteration [i], empty when the read is
    rejected. *)
Definition chunk_text (rid : nat) (w : World) (i : Z) : jsstring :=
  match reader_read rid (4 + i) blockSize w with
  | Some chunk => chunkData_of chunk
  | None => []
  end.

(** A tag holding the first two blocks of [{"a":"é"}]; the second has two
    ASCII bytes and the two bytes of the accented letter. *)
Definition tag_e_acute : Device :=
  tag_of_blocks [[123; 34; 97; 34]; [58; 34; 195; 169]].

(** *** Vocabulary of the reference round trip *)

(** A UTF-16 code unit. *)
Definition is_unit (c : Z) : bool := (0 <=? c) && (c <? 0x10000).

(** A safe integer: one that a Number holds exactly and that
    [Number.prototype.toString] prints as its decimal digits. *)
Definition safe_integer (n : Z) : bool :=
  (- (2 ^ 53 - 1) <=? n) && (n <=? 2 ^ 53 - 1).

(** No property name twice. *)
Fixpoint distinct_keys (ks : list jsstring) : bool :=
  match ks with
  | [] => true
  | k :: rest => negb (existsb (jsstring_eqb k) rest) && distinct_keys rest
  end.

(** A property name that an object enumerates where it was inserted: a
    string of code units that is not made of digits only (an array index
    is enumerated before the other names, in ascending order). *)
Definition plain_key (k : jsstring) : bool :=
  forallb is_unit k
  && negb (match k with [] => false | _ => forallb is_digit k end).

(** A value that the model carries as JavaScript has it and that JSON text
    carries as it is: no [undefined] inside, numbers that are safe
    integers, strings of code units, property names that are plain and
    not repeated. *)
Fixpoint plain_value (v : JSValue) : bool :=
  match v with
  | JUndefined => false
  | JNull | JBool _ => true
  | JNumber n => safe_integer n
  | JString s => forallb is_unit s
  | JArray l => forallb plain_value l
  | JObject ps =>
      forallb (fun kv => plain_key (fst kv) && plain_value (snd kv)) ps
      && distinct_keys (map fst ps)
  end.

(** Fuel that the reference parser needs for a value. *)
Fixpoint value_size (v : JSValue) : nat :=
  match v with
  | JArray l => S (fold_right (fun e n => S (value_size e + n)) 0%nat l)
  | JObject ps => S (fold_right (fun kv n => S (value_size (snd kv) + n)) 0%nat ps)
  | _ => 1
  end.

(** The text of a value inside an array. *)
Definition serialized (v : JSValue) : jsstring :=
  match SerializeJSONProperty v with
  | Some t => t
  | None => str "null"
  end.

(** The text of a property inside an object. *)
Definition member_text (kv : jsstring * JSValue) : jsstring :=
  QuoteJSONString (fst kv) ++ [58] ++ serialized (snd kv).

(** The characters a JSON value can start with. *)
Definition value_start (c : Z) : Prop :=
  In c [123; 91; 34; 116; 102; 110; 45] \/ is_digit c = true.

(** What may follow a number: not a digit, a point or an exponent. *)
Definition tail_ok (k : jsstring) : bool :=
  match k with
  | c :: _ => negb (is_digit c || (c =? 46) || (c =? 101) || (c =? 69))
  | [] => true
  end.

(** The reference parser reads the text of [v] back as [v]. *)
Definition parsed_back (v : JSValue) : Prop :=
  forall fuel k,
    (value_size v <= fuel)%nat -> tail_ok k = true ->
    parse_value fuel (serialized v ++ k) = Some (v, k).

(** Replaces the code of a character literal by its number. *)
Ltac digit_code :=
  repeat match goal with
  | |- context [Z.of_N (N_of_ascii ?a)] =>
      let v := eval vm_compute in (Z.of_N (N_of_ascii a)) in
      change (Z.of_N (N_of_ascii a)) with v
  end.

(** Closes the goal left by [parse_int] once the digits are read, from
    what follows them. *)
Ltac checked_tail k Hk :=
  let c := fresh "c" in
  let r := fresh "r" in
  destruct k as [|c r]; [reflexivity|];
  unfold tail_ok in Hk; destruct (is_digit c); [discriminate|];
  cbn [orb] in Hk;
  destruct ((c =? 46) || (c =? 101) || (c =? 69)); [discriminate|reflexivity].

(* ================================================================== *)
(** ** Facts about buffers *)

Lemma Math_ceil_div_bounds a :
  0 <= a ->
  a <= Math_ceil_div a blockSize * blockSize < a + blockSize.
Proof.
  intros Ha. unfold Math_ceil_div, blockSize.
  pose proof (Z.div_mod (a + 4 - 1) 4 ltac:(lia)).
  pose proof (Z.mod_pos_bound (a + 4 - 1) 4 ltac:(lia)).
  lia.
Qed.

Lemma Math_ceil_div_nonneg a : 0 <= a -> 0 <= Math_ceil_div a blockSize.
Proof.
  intros Ha. unfold Math_ceil_div, blockSize.
  apply Z.div_pos; lia.
Qed.

Lemma Math_ceil_div_exact n : 0 <= n -> Math_ceil_div (n * blockSize) blockSize = n.
Proof.
  intros Hn. unfold Math_ceil_div, blockSize.
  replace (n * 4 + 4 - 1) with (3 + n * 4) by lia.
  rewrite Z.div_add by lia. reflexivity.
Qed.

Lemma write_chars_length chars room :
  (length (write_chars chars room) <= room)%nat.
Proof.
  revert room. induction chars as [|ch rest IH]; intros room; simpl.
  - lia.
  - destruct (Nat.leb_spec (length ch) room) as [Hle|Hgt]; simpl; [|lia].
    rewrite length_app. specialize (IH (room - length ch)%nat). lia.
Qed.

(** [buffer.write] never changes the length of the buffer. *)
Lemma Buffer_write_length buffer s :
  length (Buffer_write buffer s) = length buffer.
Proof.
  unfold Buffer_write.
  pose proof (write_chars_length (utf8_chars s) (length buffer)).
  rewrite length_app, length_skipn. lia.
Qed.

Lemma encode_buffer_length s :
  Z.of_nat (length (encode_buffer s))
  = Math_ceil_div (Z.of_nat (length s)) blockSize * blockSize.
Proof.
  unfold encode_buffer. rewrite Buffer_write_length.
  unfold Buffer_alloc. rewrite repeat_length.
  pose proof (Math_ceil_div_nonneg (Z.of_nat (length s)) ltac:(lia)).
  unfold blockSize in *. lia.
Qed.

(** The first half of the padding property holds for every string. *)
Lemma encode_buffer_multiple_of_4 s :
  Z.of_nat (length (encode_buffer s)) mod blockSize = 0.
Proof.
  rewrite encode_buffer_length. apply Z.mod_mul. unfold blockSize. lia.
Qed.

(** The buffer has room for the UTF-16 length of the string. *)
Lemma encode_buffer_ge_length s :
  (length s <= length (encode_buffer s))%nat.
Proof.
  pose proof (encode_buffer_length s).
  pose proof (Math_ceil_div_bounds (Z.of_nat (length s)) ltac:(lia)). lia.
Qed.

Lemma iterations_encode_buffer s :
  Z.of_nat (iterations (encode_buffer s))
  = Math_ceil_div (Z.of_nat (length s)) blockSize.
Proof.
  unfold iterations. rewrite encode_buffer_length.
  pose proof (Math_ceil_div_nonneg (Z.of_nat (length s)) ltac:(lia)).
  rewrite Math_ceil_div_exact by assumption. lia.
Qed.

(* ================================================================== *)
(** ** The read loop *)

Lemma read_loop_unfold fuel rid w i buffer :
  read_loop (S fuel) rid w i buffer =
  match reader_read rid (4 + i) blockSize w with
  | Some chunk =>
      if Z.of_nat (length (chunkData_of chunk)) <? blockSize
      then Some (buffer ++ Buffer_from (chunkData_of chunk),
                 [IORead rid (4 + i) blockSize])
      else
        match read_loop fuel rid w (i + 1)
                (buffer ++ Buffer_from (chunkData_of chunk)) with
        | Some (b, tr) => Some (b, IORead rid (4 + i) blockSize :: tr)
        | None => None
        end
  | None => Some (buffer, [IORead rid (4 + i) blockSize])
  end.
Proof. reflexivity. Qed.

(** When iteration [i + k] is the first one that stops, the loop returns
    after it, with the texts of the blocks read appended in order and one
    read per iteration. *)
Lemma read_loop_until k :
  forall fuel rid w i buffer,
    (forall j, (j < k)%nat -> stops_at rid w (i + Z.of_nat j) = false) ->
    stops_at rid w (i + Z.of_nat k) = true ->
    (k < fuel)%nat ->
    read_loop fuel rid w i buffer
    = Some (buffer ++ concat (map (block_text rid w) (zrange i (S k))),
            reads rid i (S k)).
Proof.
  induction k as [|k IH]; intros fuel rid w i buffer Hgo Hstop Hfuel;
    (destruct fuel as [|fuel]; [lia|]); rewrite read_loop_unfold.
  - replace (i + Z.of_nat 0) with i in Hstop by lia.
    unfold stops_at in Hstop. unfold reads. cbn [zrange map concat].
    unfold block_text.
    destruct (reader_read rid (4 + i) blockSize w) as [chunk|].
    + rewrite Hstop, !app_nil_r. reflexivity.
    + rewrite !app_nil_r. reflexivity.
  - pose proof (Hgo 0%nat ltac:(lia)) as H0.
    replace (i + Z.of_nat 0) with i in H0 by lia.
    unfold stops_at in H0.
    assert (Htext : block_text rid w i
                    = match reader_read rid (4 + i) blockSize w with
                      | Some chunk => Buffer_from (chunkData_of chunk)
                      | None => []
                      end) by reflexivity.
    destruct (reader_read rid (4 + i) blockSize w) as [chunk|]; [|discriminate].
    rewrite H0.
    rewrite (IH fuel rid w (i + 1)).
    + unfold reads. cbn [zrange map concat]. rewrite Htext, <- app_assoc.
      reflexivity.
    + intros j Hj. specialize (Hgo (S j) ltac:(lia)).
      replace (i + 1 + Z.of_nat j) with (i + Z.of_nat (S j)) by lia. exact Hgo.
    + replace (i + 1 + Z.of_nat k) with (i + Z.of_nat (S k)) by lia. exact Hstop.
    + lia.
Qed.

(** When no iteration stops, no amount of fuel is enough. *)
Lemma read_loop_forever fuel :
  forall rid w i buffer,
    (forall j, stops_at rid w (i + Z.of_nat j) = false) ->
    read_loop fuel rid w i buffer = None.
Proof.
  induction fuel as [|fuel IH]; intros rid w i buffer Hgo; [reflexivity|].
  rewrite read_loop_unfold.
  pose proof (Hgo 0%nat) as H0. replace (i + Z.of_nat 0) with i in H0 by lia.
  unfold stops_at in H0.
  destruct (reader_read rid (4 + i) blockSize w) as [chunk|]; [|discriminate].
  rewrite H0, IH; [reflexivity|].
  intros j. specialize (Hgo (S j)).
  replace (i + 1 + Z.of_nat j) with (i + Z.of_nat (S j)) by lia. exact Hgo.
Qed.

(** A run that returns met a stopping iteration within its fuel. *)
Lemma read_loop_returns_stop fuel :
  forall rid w i buffer r,
    read_loop fuel rid w i buffer = Some r ->
    exists k, (k < fuel)%nat /\ stops_at rid w (i + Z.of_nat k) = true.
Proof.
  induction fuel as [|fuel IH]; intros rid w i buffer r Hr; [discriminate|].
  rewrite read_loop_unfold in Hr.
  destruct (stops_at rid w i) eqn:Hs.
  - exists 0%nat. split; [lia|]. replace (i + Z.of_nat 0) with i by lia. exact Hs.
  - unfold stops_at in Hs.
    destruct (reader_read rid (4 + i) blockSize w) as [chunk|]; [|discriminate].
    rewrite Hs in Hr.
    destruct (read_loop fuel rid w (i + 1)
                (buffer ++ Buffer_from (chunkData_of chunk))) as [r'|] eqn:Hrec;
      [|discriminate].
    destruct (IH _ _ _ _ _ Hrec) as [k [Hk Hstop]].
    exists (S k). split; [lia|].
    replace (i + Z.of_nat (S k)) with (i + 1 + Z.of_nat k) by lia. exact Hstop.
Qed.

(** A stopping iteration makes the loop return. *)
Lemma read_loop_stop_returns k :
  forall rid w i buffer,
    stops_at rid w (i + Z.of_nat k) = true ->
    exists r, read_loop (S k) rid w i buffer = Some r.
Proof.
  induction k as [|k IH]; intros rid w i buffer Hstop; rewrite read_loop_unfold.
  - replace (i + Z.of_nat 0) with i in Hstop by lia. unfold stops_at in Hstop.
    destruct (reader_read rid (4 + i) blockSize w) as [chunk|]; [|eauto].
    rewrite Hstop. eauto.
  - destruct (reader_read rid (4 + i) blockSize w) as [chunk|]; [|eauto].
    destruct (Z.of_nat (length (chunkData_of chunk)) <? blockSize); [eauto|].
    destruct (IH rid w (i + 1) (buffer ++ Buffer_from (chunkData_of chunk)))
      as [[b tr] Hr].
    + replace (i + 1 + Z.of_nat k) with (i + Z.of_nat (S k)) by lia. exact Hstop.
    + rewrite Hr. eauto.
Qed.

Lemma zrange_In i n x : In x (zrange i n) <-> i <= x < i + Z.of_nat n.
Proof.
  revert i. induction n as [|n IH]; intros i; cbn [zrange In].
  - lia.
  - rewrite IH. lia.
Qed.

Lemma reads_In rid i n rid' b len :
  In (IORead rid' b len) (reads rid i n) -> 4 + i <= b < 4 + i + Z.of_nat n.
Proof.
  unfold reads. rewrite in_map_iff. intros [j [Heq Hin]].
  apply zrange_In in Hin.
  assert (Hb : 4 + j = b) by congruence. lia.
Qed.

(* ================================================================== *)
(** ** The decoder never makes more text than there are non-null bytes *)

Lemma units_app a b : units (a ++ b) = (units a + units b)%nat.
Proof.
  unfold units, strip_nulls. rewrite flat_map_app, filter_app, length_app.
  reflexivity.
Qed.

Lemma units_cons x l : units (x :: l) = (units [x] + units l)%nat.
Proof. exact (units_app [x] l). Qed.

Lemma units_one_le x : (units [x] <= 2)%nat.
Proof.
  unfold units, strip_nulls, utf16_of_code_point. cbn [flat_map].
  rewrite app_nil_r.
  match goal with |- (length (filter ?f ?l) <= _)%nat =>
    pose proof (filter_length_le f l) as H end.
  destruct (x <? 0x10000); cbn [length] in H;
    (eapply Nat.le_trans; [exact H|]); repeat constructor.
Qed.

Lemma units_ascii b :
  0 <= b <= 0x7F -> units [b] = if b =? 0 then 0%nat else 1%nat.
Proof.
  intros Hb. unfold units, strip_nulls, utf16_of_code_point. cbn [flat_map].
  rewrite app_nil_r.
  destruct (Z.ltb_spec b 0x10000); [|lia].
  cbn [filter]. destruct (b =? 0); reflexivity.
Qed.

Lemma units_replacement : units [0xFFFD] = 1%nat.
Proof. reflexivity. Qed.

Lemma nonnull_bytes_cons b rest :
  nonnull_bytes (b :: rest)
  = ((if (b =? 0)%Z then 0 else 1) + nonnull_bytes rest)%nat.
Proof.
  unfold nonnull_bytes. cbn [filter]. destruct (b =? 0); reflexivity.
Qed.

Lemma decode_lead_cases b :
  (decode_lead b = ([b], None) /\ 0 <= b <= 0x7F)
  \/ (exists p, decode_lead b = ([], Some p) /\ 0 < p_lower p /\ b <> 0)
  \/ (decode_lead b = ([0xFFFD], None) /\ b <> 0).
Proof.
  unfold decode_lead.
  destruct (Z.leb_spec 0 b), (Z.leb_spec b 0x7F); cbn [andb];
    try (left; split; [reflexivity|lia]);
    (destruct (Z.leb_spec 0xC2 b), (Z.leb_spec b 0xDF); cbn [andb];
     [right; left; eexists; split; [reflexivity|cbn [p_lower]; lia]| | |]);
    (destruct (Z.leb_spec 0xE0 b), (Z.leb_spec b 0xEF); cbn [andb];
     try (right; left; eexists; split; [reflexivity|];
          cbn [p_lower]; destruct (b =? 0xE0); lia));
    (destruct (Z.leb_spec 0xF0 b), (Z.leb_spec b 0xF4); cbn [andb];
     try (right; left; eexists; split; [reflexivity|];
          cbn [p_lower]; destruct (b =? 0xF0); lia));
    right; right; split; try reflexivity; lia.
Qed.

Lemma utf8_decode_units bs :
  (units (utf8_decode None bs) <= nonnull_bytes bs)%nat
  /\ (forall p, 0 < p_lower p ->
        (units (utf8_decode (Some p) bs) <= 1 + nonnull_bytes bs)%nat).
Proof.
  induction bs as [|b rest [IHn IHp]].
  - split; [cbn; lia|]. intros p _. cbn [utf8_decode].
    rewrite units_replacement. lia.
  - assert (Hlead : forall out st, decode_lead b = (out, st) ->
              (units (out ++ utf8_decode st rest) <= nonnull_bytes (b :: rest))%nat
              /\ (b <> 0 \/ out = [b])).
    { intros out st Heq. rewrite nonnull_bytes_cons, units_app.
      destruct (decode_lead_cases b)
        as [[H Hb]|[[p [H [Hp Hb]]]|[H Hb]]]; rewrite H in Heq;
        injection Heq as <- <-.
      - rewrite units_ascii by exact Hb. split; [|right; reflexivity].
        destruct (b =? 0); lia.
      - specialize (IHp p Hp). split; [|left; exact Hb].
        destruct (Z.eqb_spec b 0); [contradiction|]. cbn [units app]. 
        change (units []) with 0%nat. lia.
      - rewrite units_replacement. split; [|left; exact Hb].
        destruct (Z.eqb_spec b 0); [contradiction|]. lia. }
    split.
    + cbn [utf8_decode]. destruct (decode_lead b) as [out st] eqn:Heq.
      apply (Hlead out st eq_refl).
    + intros p Hp. cbn [utf8_decode].
      destruct (Z.leb_spec (p_lower p) b) as [Hlo|Hlo]; cbn [andb].
      * destruct (b <=? p_upper p).
        -- rewrite nonnull_bytes_cons.
           destruct (Z.eqb_spec b 0) as [Hb|Hb]; [lia|].
           destruct (p_due p) as [|[|n]].
           ++ rewrite units_cons. pose proof (units_one_le
                (Z.lor (Z.shiftl (p_bits p) 6) (Z.land b 63))). lia.
           ++ rewrite units_cons. pose proof (units_one_le
                (Z.lor (Z.shiftl (p_bits p) 6) (Z.land b 63))). lia.
           ++ specialize (IHp (mkPending
                (Z.lor (Z.shiftl (p_bits p) 6) (Z.land b 63)) (S n) 128 191)).
              cbn [p_lower] in IHp. lia.
        -- destruct (decode_lead b) as [out st] eqn:Heq.
           destruct (Hlead out st eq_refl) as [Hle _].
           rewrite units_cons, units_replacement. lia.
      * destruct (decode_lead b) as [out st] eqn:Heq.
        destruct (Hlead out st eq_refl) as [Hle _].
        rewrite units_cons, units_replacement. lia.
Qed.

(** A chunk with [n] non-null bytes gives a text of at most [n] units. *)
Lemma chunkData_length_le chunk :
  (length (chunkData_of chunk) <= nonnull_bytes chunk)%nat.
Proof. exact (proj1 (utf8_decode_units chunk)). Qed.

(* ================================================================== *)
(** ** ASCII text passes through the codec unchanged *)

Lemma ascii_text_bytes s : ascii_text s -> ascii_bytes s.
Proof. apply Forall_impl. intros c Hc. lia. Qed.

Lemma decode_lead_ascii b : 0 <= b < 128 -> decode_lead b = ([b], None).
Proof.
  intros Hb. unfold decode_lead.
  destruct (Z.leb_spec 0 b); [|lia]. destruct (Z.leb_spec b 0x7F); [|lia].
  reflexivity.
Qed.

Lemma toString_utf8_ascii l : ascii_bytes l -> toString_utf8 l = l.
Proof.
  unfold toString_utf8. induction 1 as [|b rest Hb Hrest IH]; [reflexivity|].
  cbn [utf8_decode]. rewrite decode_lead_ascii by exact Hb.
  cbn [app flat_map]. rewrite IH. unfold utf16_of_code_point.
  destruct (Z.ltb_spec b 0x10000); [reflexivity|lia].
Qed.

Lemma utf8_chars_ascii l : ascii_bytes l -> utf8_chars l = map (fun c => [c]) l.
Proof.
  induction 1 as [|c rest Hc Hrest IH]; [reflexivity|].
  cbn [utf8_chars map]. unfold is_high_surrogate, is_low_surrogate.
  destruct (Z.leb_spec 0xD800 c); [lia|]. cbn [andb].
  destruct (Z.leb_spec 0xDC00 c); [lia|]. cbn [andb].
  rewrite IH. unfold utf8_of_code_point.
  destruct (Z.ltb_spec c 0x80); [reflexivity|lia].
Qed.

Lemma concat_singletons (l : list Z) : concat (map (fun c => [c]) l) = l.
Proof. induction l as [|c l IH]; [reflexivity|]. cbn. rewrite IH. reflexivity. Qed.

Lemma Buffer_from_ascii l : ascii_bytes l -> Buffer_from l = l.
Proof.
  intros H. unfold Buffer_from. rewrite utf8_chars_ascii by exact H.
  apply concat_singletons.
Qed.

Lemma Buffer_byteLength_ascii s :
  ascii_bytes s -> Buffer_byteLength s = Z.of_nat (length s).
Proof.
  intros H. unfold Buffer_byteLength. rewrite Buffer_from_ascii by exact H.
  reflexivity.
Qed.

Lemma write_chars_singletons (l : list Z) room :
  (length l <= room)%nat -> write_chars (map (fun c => [c]) l) room = l.
Proof.
  revert room. induction l as [|c l IH]; intros room Hroom; [reflexivity|].
  cbn [map write_chars length] in *.
  destruct room as [|room]; [lia|]. cbn [Nat.leb app].
  rewrite IH by lia. reflexivity.
Qed.

Lemma skipn_repeat {A} (x : A) k n : skipn k (repeat x n) = repeat x (n - k).
Proof.
  revert k. induction n as [|n IH]; intros [|k]; cbn; auto.
Qed.

(** For ASCII text the buffer is the text followed by zero bytes, fewer
    than a block of them. *)
Lemma encode_buffer_ascii s :
  ascii_bytes s ->
  exists pad, (pad < 4)%nat /\ encode_buffer s = s ++ repeat 0 pad.
Proof.
  intros Hs.
  pose proof (encode_buffer_length s) as Hlen.
  pose proof (Math_ceil_div_bounds (Z.of_nat (length s)) ltac:(lia)) as Hb.
  unfold blockSize in *.
  exists (length (encode_buffer s) - length s)%nat. split; [lia|].
  unfold encode_buffer in *. unfold Buffer_write in *.
  rewrite utf8_chars_ascii in * by exact Hs.
  unfold Buffer_alloc in *. rewrite repeat_length in *.
  rewrite write_chars_singletons in *.
  - rewrite skipn_repeat. rewrite length_app, repeat_length.
    f_equal. f_equal. lia.
  - unfold blockSize. lia.
  - unfold blockSize. lia.
Qed.

Lemma strip_nulls_app a b : strip_nulls (a ++ b) = strip_nulls a ++ strip_nulls b.
Proof. apply filter_app. Qed.

Lemma strip_nulls_text s : ascii_text s -> strip_nulls s = s.
Proof.
  induction 1 as [|c s Hc Hs IH]; [reflexivity|].
  unfold strip_nulls in *. cbn [filter].
  destruct (Z.eqb_spec c 0); [lia|]. cbn [negb]. rewrite IH. reflexivity.
Qed.

Lemma strip_nulls_zeros n : strip_nulls (repeat 0 n) = [].
Proof. induction n as [|n IH]; [reflexivity|]. cbn. exact IH. Qed.

Lemma ascii_bytes_zeros n : ascii_bytes (repeat 0 n).
Proof. apply Forall_forall. intros x Hx. apply repeat_spec in Hx. lia. Qed.

(** The text of a chunk made of ASCII text and zero padding. *)
Lemma chunkData_of_padded s n :
  ascii_text s -> chunkData_of (s ++ repeat 0 n) = s.
Proof.
  intros Hs. unfold chunkData_of.
  rewrite toString_utf8_ascii.
  - rewrite strip_nulls_app, strip_nulls_zeros, strip_nulls_text, app_nil_r;
      [reflexivity|exact Hs].
  - apply Forall_app. split; [apply ascii_text_bytes; exact Hs|apply ascii_bytes_zeros].
Qed.

Lemma trim_start_text c s :
  is_js_space c = false -> trim_start (c :: s) = c :: s.
Proof. intros H. cbn [trim_start]. rewrite H. reflexivity. Qed.

(** Text framed by braces is its own reconstruction. *)
Lemma reconstruct_framed s :
  ascii_text s -> startsWith s 123 = true -> endsWith s 125 = true ->
  reconstruct s = s.
Proof.
  intros Hs Hst Hen. unfold reconstruct.
  rewrite toString_utf8_ascii by (apply ascii_text_bytes; exact Hs).
  rewrite strip_nulls_text by exact Hs.
  unfold trim, startsWith, endsWith in *.
  destruct s as [|c s]; [discriminate|].
  apply Z.eqb_eq in Hst. subst c. rewrite trim_start_text by reflexivity.
  destruct (rev (123 :: s)) as [|d r] eqn:Hrev; [discriminate|].
  apply Z.eqb_eq in Hen. subst d. rewrite trim_start_text by reflexivity.
  rewrite <- Hrev. apply rev_involutive.
Qed.

(* ================================================================== *)
(** ** [JSON.stringify] of an ASCII value is non-null ASCII text *)

Lemma ascii_textb_ok s : ascii_textb s = true -> ascii_text s.
Proof.
  unfold ascii_textb, ascii_text. rewrite forallb_forall, Forall_forall.
  intros H c Hc. specialize (H c Hc). apply andb_true_iff in H.
  destruct H as [H1 H2]. apply Z.ltb_lt in H1. apply Z.ltb_lt in H2. lia.
Qed.










(** Induction on values that reaches inside arrays and objects. *)
Lemma JSValue_nested_ind (P : JSValue -> Prop) :
  P JUndefined -> P JNull -> (forall b, P (JBool b)) ->
  (forall n, P (JNumber n)) -> (forall s, P (JString s)) ->
  (forall l, Forall P l -> P (JArray l)) ->
  (forall ps, Forall (fun kv => P (snd kv)) ps -> P (JObject ps)) ->
  forall v, P v.
Proof.
  intros Hu Hn Hb Hnum Hs Ha Ho.
  fix IH 1.
  intros [ | |b|n|s|l|ps];
    [exact Hu|exact Hn|apply Hb|apply Hnum|apply Hs| |].
  - apply Ha. induction l as [|x l IHl]; constructor; [apply IH|exact IHl].
  - apply Ho. induction ps as [|[k x] ps IHps]; constructor;
      [apply IH|exact IHps].
Qed.


(* ================================================================== *)
(** ** The reference parser reads back what the serializer writes *)

Lemma hex_value_digit d : 0 <= d < 16 -> hex_value (hex_digit d) = Some d.
Proof.
  intros Hd. unfold hex_value, hex_digit.
  destruct (Z.ltb_spec d 10).
  - destruct (Z.leb_spec 48 (48 + d)), (Z.leb_spec (48 + d) 57); cbn [andb];
      try lia. f_equal. lia.
  - destruct (Z.leb_spec 48 (97 + (d - 10))), (Z.leb_spec (97 + (d - 10)) 57);
      cbn [andb]; try lia.
    destruct (Z.leb_spec 97 (97 + (d - 10))), (Z.leb_spec (97 + (d - 10)) 102);
      cbn [andb]; try lia. f_equal. lia.
Qed.

Lemma nibbles c :
  0 <= c < 0x10000 ->
  ((Z.land (Z.shiftr c 12) 0xF * 16 + Z.land (Z.shiftr c 8) 0xF) * 16
   + Z.land (Z.shiftr c 4) 0xF) * 16 + Z.land c 0xF = c.
Proof.
  intros Hc. change 0xF with (Z.ones 4). rewrite !Z.land_ones by lia.
  rewrite !Z.shiftr_div_pow2 by lia.
  change (2 ^ 12) with 4096. change (2 ^ 8) with 256. change (2 ^ 4) with 16.
  Z.div_mod_to_equations. lia.
Qed.

Lemma nibble_range c n : 0 <= c -> 0 <= Z.land (Z.shiftr c n) 0xF < 16.
Proof.
  intros Hc. change 0xF with (Z.ones 4). rewrite Z.land_ones by lia.
  apply Z.mod_pos_bound. lia.
Qed.

Lemma parse_unicode_escape c r :
  0 <= c < 0x10000 ->
  parse_string_body (unicode_escape c ++ r)
  = match parse_string_body r with
    | Some (t, k) => Some (c :: t, k)
    | None => None
    end.
Proof.
  intros Hc. unfold unicode_escape. cbn [app].
  pose proof (nibble_range c 12 ltac:(lia)) as H1.
  pose proof (nibble_range c 8 ltac:(lia)) as H2.
  pose proof (nibble_range c 4 ltac:(lia)) as H3.
  pose proof (nibble_range c 0 ltac:(lia)) as H4.
  rewrite Z.shiftr_0_r in H4.
  cbn [parse_string_body]. cbn [Z.eqb Z.ltb Z.compare Pos.compare Pos.compare_cont Pos.eqb].
  rewrite !hex_value_digit by assumption.
  destruct (parse_string_body r) as [[t k]|]; [|reflexivity].
  rewrite nibbles by exact Hc. reflexivity.
Qed.

Lemma parse_quote_unit c r :
  0 <= c < 0x10000 ->
  parse_string_body (quote_unit c ++ r)
  = match parse_string_body r with
    | Some (t, k) => Some (c :: t, k)
    | None => None
    end.
Proof.
  intros Hc. unfold quote_unit.
  destruct (Z.eqb_spec c 0x08) as [->|N1]; [reflexivity|].
  destruct (Z.eqb_spec c 0x09) as [->|N2]; [reflexivity|].
  destruct (Z.eqb_spec c 0x0A) as [->|N3]; [reflexivity|].
  destruct (Z.eqb_spec c 0x0C) as [->|N4]; [reflexivity|].
  destruct (Z.eqb_spec c 0x0D) as [->|N5]; [reflexivity|].
  destruct (Z.eqb_spec c 0x22) as [->|N6]; [reflexivity|].
  destruct (Z.eqb_spec c 0x5C) as [->|N7]; [reflexivity|].
  destruct ((c <? 0x20) || is_high_surrogate c || is_low_surrogate c) eqn:He.
  - apply parse_unicode_escape. exact Hc.
  - apply orb_false_iff in He. destruct He as [He _].
    apply orb_false_iff in He. destruct He as [He _].
    cbn [app parse_string_body].
    destruct (Z.eqb_spec c 34); [lia|]. rewrite He.
    destruct (Z.eqb_spec c 92); [lia|]. reflexivity.
Qed.

Lemma parse_quote_units n :
  forall t k,
    (length t <= n)%nat ->
    forallb is_unit t = true ->
    parse_string_body (quote_units t ++ 34 :: k) = Some (t, k).
Proof.
  induction n as [|n IH]; intros t k Hn Ht.
  - destruct t; [reflexivity|cbn in Hn; lia].
  - destruct t as [|c rest]; [reflexivity|].
    cbn [length] in Hn. cbn [forallb] in Ht. apply andb_true_iff in Ht.
    destruct Ht as [Hc Hrest].
    assert (Hc' : 0 <= c < 0x10000) by (unfold is_unit in Hc; lia).
    cbn [quote_units].
    destruct (is_high_surrogate c) eqn:Hhigh.
    + destruct rest as [|d rest'].
      * rewrite parse_unicode_escape by exact Hc'. reflexivity.
      * destruct (is_low_surrogate d) eqn:Hlow.
        -- cbn [forallb] in Hrest. apply andb_true_iff in Hrest.
           destruct Hrest as [Hd Hrest']. cbn [length] in Hn.
           unfold is_high_surrogate in Hhigh. unfold is_low_surrogate in Hlow.
           cbn [app parse_string_body].
           destruct (Z.eqb_spec c 34); [lia|]. destruct (Z.ltb_spec c 0x20); [lia|].
           destruct (Z.eqb_spec c 92); [lia|].
           destruct (Z.eqb_spec d 34); [lia|]. destruct (Z.ltb_spec d 0x20); [lia|].
           destruct (Z.eqb_spec d 92); [lia|].
           rewrite (IH rest' k) by (try assumption; lia). reflexivity.
        -- rewrite <- app_assoc, parse_unicode_escape by exact Hc'.
           rewrite (IH (d :: rest') k) by (try assumption; lia). reflexivity.
    + rewrite <- app_assoc, parse_quote_unit by exact Hc'.
      rewrite (IH rest k) by (try assumption; lia). reflexivity.
Qed.

Lemma parse_QuoteJSONString t k :
  forallb is_unit t = true ->
  exists r, QuoteJSONString t ++ k = 34 :: r
            /\ parse_string_body r = Some (t, k).
Proof.
  intros Ht. exists (quote_units t ++ 34 :: k). split.
  - unfold QuoteJSONString. cbn [app]. rewrite <- app_assoc. reflexivity.
  - apply (parse_quote_units (length t)); [lia|exact Ht].
Qed.

Lemma parse_digits_uint d :
  forall acc k,
    tail_ok k = true ->
    parse_digits (Z.pos acc) (str (NilEmpty.string_of_uint d) ++ k)
    = (Z.pos (Pos.of_uint_acc d acc), k).
Proof.
  induction d as [|d IH|d IH|d IH|d IH|d IH|d IH|d IH|d IH|d IH|d IH];
    intros acc k Hk;
    cbn [NilEmpty.string_of_uint str app parse_digits Pos.of_uint_acc];
    digit_code;
    try (match goal with
         | |- context [is_digit ?c] => change (is_digit c) with true
         end; cbv iota; rewrite <- (IH _ k Hk); f_equal; lia).
  destruct k as [|c r]; [reflexivity|]. cbn [parse_digits].
  unfold tail_ok in Hk. destruct (is_digit c); [discriminate|reflexivity].
Qed.

Lemma nzhead_not_D0 u : forall u', Decimal.nzhead u <> Decimal.D0 u'.
Proof. induction u; intros u'; cbn [Decimal.nzhead]; try discriminate; apply IHu. Qed.

Lemma to_uint_head p :
  match Pos.to_uint p with
  | Decimal.Nil | Decimal.D0 _ => False
  | _ => True
  end.
Proof.
  pose proof (Unsigned.to_of (Pos.to_uint p)) as H.
  rewrite Unsigned.of_to in H. cbn [N.to_uint] in H.
  pose proof (Unsigned.to_uint_nonnil p) as Hnil.
  pose proof (Unsigned.to_uint_nonzero p) as Hzero.
  destruct (Pos.to_uint p) as [|u|u|u|u|u|u|u|u|u|u]; try exact I;
    [contradiction|].
  unfold Decimal.unorm in H. cbn [Decimal.nzhead] in H.
  destruct (Decimal.nzhead u) eqn:E; try discriminate H.
  - congruence.
  - exact (nzhead_not_D0 u _ E).
Qed.

Lemma parse_unsigned_pos p k :
  tail_ok k = true ->
  exists c r,
    str (NilZero.string_of_uint (Pos.to_uint p)) ++ k = c :: r
    /\ is_digit c = true /\ c <> 48
    /\ parse_digits 0 (c :: r) = (Z.pos p, k).
Proof.
  intros Hk. pose proof (to_uint_head p) as Hhead.
  pose proof (Unsigned.of_to p) as Hof.
  destruct (Pos.to_uint p) as [|u|u|u|u|u|u|u|u|u|u]; try contradiction;
    cbn [NilZero.string_of_uint NilEmpty.string_of_uint str app];
    digit_code; cbn [Pos.of_uint] in Hof; injection Hof as Hof;
    (eexists; eexists; split; [reflexivity|]; split; [reflexivity|];
     split; [discriminate|]);
    cbn [parse_digits];
    match goal with
    | |- context [is_digit ?c] => change (is_digit c) with true
    end; cbv iota;
    match goal with
    | |- parse_digits ?a _ = _ =>
        let v := eval vm_compute in a in change a with v
    end;
    rewrite (parse_digits_uint u _ k Hk), Hof; reflexivity.
Qed.

Lemma parse_int_Number n k :
  tail_ok k = true -> parse_int (Number_toString n ++ k) = Some (n, k).
Proof.
  intros Hk. unfold Number_toString.
  destruct n as [|p|p]; cbn [Z.to_int NilZero.string_of_int].
  - cbn [NilZero.string_of_uint NilEmpty.string_of_uint str app]. digit_code.
    unfold parse_int.
    change (48 =? 45) with false. change (48 =? 48) with true. cbv iota.
    checked_tail k Hk.
  - destruct (parse_unsigned_pos p k Hk) as [c [r [Heq [Hd [H48 Hrun]]]]].
    rewrite Heq. unfold parse_int.
    assert (H45 : (c =? 45) = false) by (unfold is_digit in Hd; lia).
    rewrite H45. destruct (Z.eqb_spec c 48); [contradiction|].
    rewrite Hd, Hrun. checked_tail k Hk.
  - destruct (parse_unsigned_pos p k Hk) as [c [r [Heq [Hd [H48 Hrun]]]]].
    cbn [str app]. digit_code. rewrite Heq. unfold parse_int.
    change (45 =? 45) with true. cbv iota.
    destruct (Z.eqb_spec c 48); [contradiction|].
    rewrite Hd, Hrun. checked_tail k Hk.
Qed.

Lemma plain_serialized v :
  plain_value v = true -> SerializeJSONProperty v = Some (serialized v).
Proof.
  unfold serialized.
  destruct v as [ | |[|]|n|s|l|ps]; intros H; try reflexivity. discriminate.
Qed.

Lemma Number_toString_start n :
  exists c r, Number_toString n = c :: r /\ (c = 45 \/ is_digit c = true).
Proof.
  unfold Number_toString. destruct n as [|p|p]; cbn [Z.to_int NilZero.string_of_int].
  - eexists; eexists; split; [reflexivity|right; reflexivity].
  - destruct (parse_unsigned_pos p [] eq_refl) as [c [r [Heq [Hd _]]]].
    rewrite app_nil_r in Heq. eauto.
  - eexists; eexists; split; [reflexivity|left; reflexivity].
Qed.

Lemma serialized_start v :
  plain_value v = true ->
  exists c r, serialized v = c :: r /\ value_start c.
Proof.
  unfold serialized, value_start.
  destruct v as [ | |[|]|n|s|l|ps]; intros H; cbn [SerializeJSONProperty];
    try discriminate;
    try (eexists; eexists; split; [reflexivity|left; cbn; tauto]).
  destruct (Number_toString_start n) as [c [r [Heq [->|Hd]]]]; rewrite Heq;
    eexists; eexists; (split; [reflexivity|]); [left; cbn; tauto|right; exact Hd].
Qed.

Lemma value_start_cases c :
  value_start c ->
  is_json_ws c = false /\ c <> 93 /\ c <> 125.
Proof.
  unfold value_start, is_digit, is_json_ws. cbn [In]. intros H. lia.
Qed.

Lemma match_not_93 {A} (c : Z) (r : list Z) (a : list Z -> A) (b : A) :
  c <> 93 ->
  match c :: r with
  | 93 :: k => a k
  | _ => b
  end = b.
Proof.
  intros Hc. destruct c as [|p|p]; try reflexivity.
  do 7 (destruct p as [p|p|]; try reflexivity). contradiction.
Qed.

Lemma parse_value_array f c r :
  value_start c ->
  parse_value (S f) (91 :: c :: r) = parse_elements f [] (c :: r).
Proof.
  intros Hc. destruct (value_start_cases c Hc) as [Hws [H93 _]].
  change (parse_value (S f) (91 :: c :: r))
    with (match skip_ws (c :: r) with
          | 93 :: k => Some (JArray [], k)
          | _ => parse_elements f [] (c :: r)
          end).
  cbn [skip_ws]. rewrite Hws.
  exact (match_not_93 c r (fun k => Some (JArray [], k))
           (parse_elements f [] (c :: r)) H93).
Qed.

Lemma parse_value_object f r :
  parse_value (S f) (123 :: 34 :: r) = parse_members f [] (34 :: r).
Proof. reflexivity. Qed.

Lemma parse_value_string f r :
  parse_value (S f) (34 :: r)
  = match parse_string_body r with
    | Some (t, k) => Some (JString t, k)
    | None => None
    end.
Proof. reflexivity. Qed.

Lemma parse_value_number f c r :
  c = 45 \/ is_digit c = true ->
  parse_value (S f) (c :: r)
  = match parse_int (c :: r) with
    | Some (n, k) => Some (JNumber n, k)
    | None => None
    end.
Proof.
  intros Hc. cbn [parse_value skip_ws].
  assert (Hws : is_json_ws c = false) by (unfold is_json_ws, is_digit in *; lia).
  rewrite Hws.
  assert (H1 : (c =? 123) = false) by (unfold is_digit in *; lia).
  assert (H2 : (c =? 91) = false) by (unfold is_digit in *; lia).
  assert (H3 : (c =? 34) = false) by (unfold is_digit in *; lia).
  assert (H4 : (c =? 116) = false) by (unfold is_digit in *; lia).
  assert (H5 : (c =? 102) = false) by (unfold is_digit in *; lia).
  assert (H6 : (c =? 110) = false) by (unfold is_digit in *; lia).
  rewrite H1, H2, H3, H4, H5, H6. reflexivity.
Qed.

Lemma parse_members_step f acc r :
  parse_members (S f) acc (34 :: r)
  = match parse_string_body r with
    | None => None
    | Some (key, s2) =>
        match expect 58 s2 with
        | None => None
        | Some s3 =>
            match parse_value f s3 with
            | None => None
            | Some (v, s4) =>
                match skip_ws s4 with
                | 44 :: s5 => parse_members f (set_property acc key v) s5
                | 125 :: s5 => Some (JObject (set_property acc key v), s5)
                | _ => None
                end
            end
        end
    end.
Proof. reflexivity. Qed.

Lemma parse_elements_step f acc s :
  parse_elements (S f) acc s
  = match parse_value f s with
    | None => None
    | Some (v, s1) =>
        match skip_ws s1 with
        | 44 :: s2 => parse_elements f (acc ++ [v]) s2
        | 93 :: s2 => Some (JArray (acc ++ [v]), s2)
        | _ => None
        end
    end.
Proof. reflexivity. Qed.

Lemma set_property_fresh acc key v :
  existsb (fun a => jsstring_eqb (fst a) key) acc = false ->
  set_property acc key v = acc ++ [(key, v)].
Proof.
  induction acc as [|[k' v'] acc IH]; intros H; [reflexivity|].
  cbn [existsb fst] in H. apply orb_false_iff in H. destruct H as [H1 H2].
  cbn [set_property app]. rewrite H1, (IH H2). reflexivity.
Qed.

Lemma parse_elements_ok l :
  Forall parsed_back l -> l <> [] ->
  forall acc fuel k,
    (fold_right (fun e n => S (value_size e + n)) 0%nat l <= fuel)%nat ->
    parse_elements fuel acc (join_comma (map serialized l) ++ 93 :: k)
    = Some (JArray (acc ++ l), k).
Proof.
  induction l as [|e rest IH]; intros Hall Hne acc fuel k Hfuel;
    [contradiction|].
  inversion Hall as [|? ? He Hrest]; subst.
  cbn [fold_right] in Hfuel. destruct fuel as [|f]; [lia|].
  rewrite parse_elements_step. destruct rest as [|e2 rest'].
  - cbn [map join_comma].
    rewrite (He f (93 :: k)) by (try reflexivity; lia). reflexivity.
  - change (join_comma (map serialized (e :: e2 :: rest')))
      with (serialized e ++ [44] ++ join_comma (map serialized (e2 :: rest'))).
    rewrite <- !app_assoc. cbn [app].
    rewrite (He f (44 :: _)) by (try reflexivity; lia).
    cbn [skip_ws is_json_ws Z.eqb Pos.eqb orb].
    rewrite (IH Hrest ltac:(discriminate) (acc ++ [e]) f k) by lia.
    rewrite <- app_assoc. reflexivity.
Qed.

Lemma existsb_false_In {A} (f : A -> bool) l x :
  existsb f l = false -> In x l -> f x = false.
Proof.
  induction l as [|y l IH]; intros H Hin; [contradiction|].
  cbn [existsb] in H. apply orb_false_iff in H. destruct H as [H1 H2].
  destruct Hin as [->|Hin]; [exact H1|exact (IH H2 Hin)].
Qed.

Lemma expect_58 y : expect 58 (58 :: y) = Some y.
Proof. reflexivity. Qed.

Lemma parse_members_ok ps :
  Forall (fun kv => parsed_back (snd kv)) ps ->
  forallb (fun kv => forallb is_unit (fst kv)) ps = true ->
  distinct_keys (map fst ps) = true ->
  ps <> [] ->
  forall acc fuel k,
    (forall kv, In kv ps ->
       existsb (fun a => jsstring_eqb (fst a) (fst kv)) acc = false) ->
    (fold_right (fun kv n => S (value_size (snd kv) + n)) 0%nat ps <= fuel)%nat ->
    parse_members fuel acc (join_comma (map member_text ps) ++ 125 :: k)
    = Some (JObject (acc ++ ps), k).
Proof.
  induction ps as [|[key v] rest IH];
    intros Hall Hkeys Hdist Hne acc fuel k Hfresh Hfuel; [contradiction|].
  inversion Hall as [|? ? Hv Hrest]; subst. cbn [snd] in Hv.
  cbn [forallb fst] in Hkeys. apply andb_true_iff in Hkeys.
  destruct Hkeys as [Hkey Hkeys].
  cbn [map fst distinct_keys] in Hdist. apply andb_true_iff in Hdist.
  destruct Hdist as [Hnew Hdist]. apply negb_true_iff in Hnew.
  cbn [fold_right snd] in Hfuel. destruct fuel as [|f]; [lia|].
  assert (Hset : set_property acc key v = acc ++ [(key, v)]).
  { apply set_property_fresh. apply (Hfresh (key, v)). left. reflexivity. }
  destruct rest as [|kv2 rest'].
  - cbn [map join_comma]. unfold member_text. cbn [fst snd].
    rewrite <- !app_assoc.
    destruct (parse_QuoteJSONString key ([58] ++ serialized v ++ 125 :: k) Hkey)
      as [r [Heq Hparse]].
    rewrite Heq, parse_members_step, Hparse. cbn [app]. rewrite expect_58.
    rewrite (Hv f (125 :: k)) by (try reflexivity; lia).
    cbn [skip_ws is_json_ws Z.eqb Pos.eqb orb]. rewrite Hset. reflexivity.
  - change (join_comma (map member_text ((key, v) :: kv2 :: rest')))
      with (member_text (key, v) ++ [44]
            ++ join_comma (map member_text (kv2 :: rest'))).
    unfold member_text at 1. cbn [fst snd]. rewrite <- !app_assoc.
    destruct (parse_QuoteJSONString key
                ([58] ++ serialized v ++ [44]
                 ++ join_comma (map member_text (kv2 :: rest')) ++ 125 :: k) Hkey)
      as [r [Heq Hparse]].
    rewrite Heq, parse_members_step, Hparse. cbn [app]. rewrite expect_58.
    rewrite (Hv f (44 :: _)) by (try reflexivity; lia).
    cbn [skip_ws is_json_ws Z.eqb Pos.eqb orb]. rewrite Hset.
    rewrite (IH Hrest Hkeys Hdist ltac:(discriminate) (acc ++ [(key, v)]) f k).
    + rewrite <- app_assoc. reflexivity.
    + intros kv Hin. rewrite existsb_app. cbn [existsb fst].
      rewrite (Hfresh kv (or_intror Hin)). cbn [orb]. rewrite orb_false_r.
      exact (existsb_false_In _ _ _ Hnew (in_map fst _ _ Hin)).
    + lia.
Qed.

Lemma members_text ps :
  forallb (fun kv => plain_value (snd kv)) ps = true ->
  flat_map (fun kv => match SerializeJSONProperty (snd kv) with
                      | Some t => [QuoteJSONString (fst kv) ++ [58] ++ t]
                      | None => []
                      end) ps
  = map member_text ps.
Proof.
  induction ps as [|[key v] ps IH]; intros H; [reflexivity|].
  cbn [forallb snd] in H. apply andb_true_iff in H. destruct H as [Hv Hps].
  cbn [flat_map map fst snd]. rewrite (plain_serialized v Hv), (IH Hps).
  reflexivity.
Qed.

Lemma forallb_and {A} (f g : A -> bool) l :
  forallb (fun x => f x && g x) l = forallb f l && forallb g l.
Proof.
  induction l as [|x l IH]; [reflexivity|]. cbn [forallb]. rewrite IH.
  destruct (f x), (g x), (forallb f l), (forallb g l); reflexivity.
Qed.

Lemma plain_keys_units (ps : list (jsstring * JSValue)) :
  forallb (fun kv => plain_key (fst kv)) ps = true ->
  forallb (fun kv => forallb is_unit (fst kv)) ps = true.
Proof.
  induction ps as [|kv ps IH]; intros H; [reflexivity|].
  cbn [forallb] in *. apply andb_true_iff in H. destruct H as [Hk Hps].
  unfold plain_key in Hk. apply andb_true_iff in Hk. destruct Hk as [Hk _].
  rewrite Hk, (IH Hps). reflexivity.
Qed.

Lemma plain_parsed_back v : plain_value v = true -> parsed_back v.
Proof.
  induction v as [ | |b|n|t|l IHl|ps IHps] using JSValue_nested_ind;
    intros Hv fuel k Hfuel Hk; cbn [value_size] in Hfuel;
    (destruct fuel as [|f]; [lia|]).
  - discriminate.
  - reflexivity.
  - destruct b; reflexivity.
  - unfold serialized. cbn [SerializeJSONProperty].
    destruct (Number_toString_start n) as [c [r [Heq Hc]]].
    pose proof (parse_int_Number n k Hk) as Hint. rewrite Heq in *.
    cbn [app] in *. rewrite (parse_value_number f c (r ++ k) Hc), Hint.
    reflexivity.
  - unfold serialized. cbn [SerializeJSONProperty plain_value] in *.
    destruct (parse_QuoteJSONString t k Hv) as [r [Heq Hparse]].
    rewrite Heq, parse_value_string, Hparse. reflexivity.
  - cbn [plain_value] in Hv.
    assert (Hall : Forall parsed_back l).
    { rewrite Forall_forall in IHl. rewrite forallb_forall in Hv.
      apply Forall_forall. intros e He. apply IHl; [exact He|]. apply Hv. exact He. }
    unfold serialized. cbn [SerializeJSONProperty].
    change (map (fun e => match SerializeJSONProperty e with
                          | Some t => t
                          | None => str "null"
                          end) l) with (map serialized l).
    destruct l as [|e rest]; [reflexivity|].
    rewrite <- !app_assoc. cbn [app].
    pose proof (parse_elements_ok (e :: rest) Hall ltac:(discriminate) [] f k
                  ltac:(lia)) as Hrun.
    cbn [forallb] in Hv. apply andb_true_iff in Hv. destruct Hv as [He _].
    destruct (serialized_start e He) as [c [r [Heq Hc]]].
    assert (Hjoin : exists r', join_comma (map serialized (e :: rest)) = c :: r').
    { destruct rest as [|e2 rest']; cbn [map join_comma]; rewrite Heq;
        cbn [app]; eauto. }
    destruct Hjoin as [r' Hjoin]. rewrite Hjoin in *. cbn [app] in *.
    rewrite (parse_value_array f c _ Hc). exact Hrun.
  - cbn [plain_value] in Hv. apply andb_true_iff in Hv. destruct Hv as [Hv Hdist].
    rewrite forallb_and in Hv. apply andb_true_iff in Hv.
    destruct Hv as [Hkeys Hvals].
    apply plain_keys_units in Hkeys.
    assert (Hall : Forall (fun kv => parsed_back (snd kv)) ps).
    { rewrite Forall_forall in IHps. rewrite forallb_forall in Hvals.
      apply Forall_forall. intros kv Hin. apply IHps; [exact Hin|].
      apply Hvals. exact Hin. }
    unfold serialized. cbn [SerializeJSONProperty].
    rewrite (members_text ps Hvals).
    destruct ps as [|[key v] rest]; [reflexivity|].
    rewrite <- !app_assoc. cbn [app].
    pose proof (parse_members_ok ((key, v) :: rest) Hall Hkeys Hdist
                  ltac:(discriminate) [] f k ltac:(reflexivity) ltac:(lia))
      as Hrun.
    assert (Hjoin : exists r', join_comma (map member_text ((key, v) :: rest))
                               = 34 :: r').
    { destruct rest as [|kv2 rest']; cbn [map join_comma];
        unfold member_text at 1, QuoteJSONString; cbn [app]; eauto. }
    destruct Hjoin as [r' Hjoin]. rewrite Hjoin in *. cbn [app] in *.
    rewrite parse_value_object. exact Hrun.
Qed.

Lemma join_comma_length {A} (text : A -> jsstring) (m : A -> nat) l :
  Forall (fun x => (m x <= length (text x))%nat) l ->
  (fold_right (fun x n => S (m x + n)) 0%nat l
   <= S (length (join_comma (map text l))))%nat.
Proof.
  induction l as [|x rest IH]; intros Hall; [cbn; lia|].
  inversion Hall as [|? ? Hx Hrest]; subst. specialize (IH Hrest).
  cbn [fold_right]. destruct rest as [|y rest'].
  - cbn [map join_comma fold_right]. lia.
  - change (join_comma (map text (x :: y :: rest')))
      with (text x ++ [44] ++ join_comma (map text (y :: rest'))).
    rewrite !length_app. cbn [length]. lia.
Qed.

Lemma value_size_le_length v :
  plain_value v = true -> (value_size v <= length (serialized v))%nat.
Proof.
  induction v as [ | |b|n|t|l IHl|ps IHps] using JSValue_nested_ind;
    intros Hv; unfold serialized; cbn [SerializeJSONProperty value_size].
  - discriminate.
  - cbn. lia.
  - destruct b; cbn; lia.
  - destruct (Number_toString_start n) as [c [r [Heq _]]]. rewrite Heq.
    cbn [length]. lia.
  - unfold QuoteJSONString. rewrite !length_app. cbn [length]. lia.
  - cbn [plain_value] in Hv.
    change (map (fun e => match SerializeJSONProperty e with
                          | Some t => t
                          | None => str "null"
                          end) l) with (map serialized l).
    pose proof (join_comma_length serialized value_size l) as Hjoin.
    rewrite !length_app. cbn [length].
    assert (Hall : Forall (fun x => (value_size x <= length (serialized x))%nat) l).
    { rewrite Forall_forall in IHl. rewrite forallb_forall in Hv.
      apply Forall_forall. intros e He. apply IHl; [exact He|]. apply Hv. exact He. }
    specialize (Hjoin Hall). lia.
  - cbn [plain_value] in Hv. apply andb_true_iff in Hv. destruct Hv as [Hv _].
    rewrite forallb_and in Hv. apply andb_true_iff in Hv.
    destruct Hv as [_ Hvals]. rewrite (members_text ps Hvals).
    pose proof (join_comma_length member_text (fun kv => value_size (snd kv)) ps) as Hjoin.
    rewrite !length_app. cbn [length].
    assert (Hall : Forall (fun kv => (value_size (snd kv) <= length (member_text kv))%nat) ps).
    { rewrite Forall_forall in IHps. rewrite forallb_forall in Hvals.
      apply Forall_forall. intros kv Hin.
      specialize (IHps kv Hin (Hvals kv Hin)).
      unfold member_text. rewrite !length_app. lia. }
    specialize (Hjoin Hall). lia.
Qed.

(** The reference parser inverts the serializer on every plain value. *)
Lemma JSON_parse_ref_stringify v s :
  plain_value v = true ->
  JSON_stringify v = Some s ->
  JSON_parse_ref s = Some v.
Proof.
  intros Hv Hs. unfold JSON_stringify in Hs.
  rewrite (plain_serialized v Hv) in Hs. injection Hs as <-.
  unfold JSON_parse_ref.
  pose proof (value_size_le_length v Hv) as Hsize.
  pose proof (plain_parsed_back v Hv (2 * length (serialized v) + 2)%nat []
                ltac:(lia) eq_refl) as Hrun.
  rewrite app_nil_r in Hrun. rewrite Hrun. reflexivity.
Qed.

(* ================================================================== *)
(** ** The write loop *)

Lemma reader_write_spec rid block data w w' :
  reader_write rid block data w = Some w' ->
  currentReader w' = currentReader w
  /\ card (heap w' rid) = card (heap w rid)
  /\ dev_readable (tag (heap w' rid)) = dev_readable (tag (heap w rid))
  /\ dev_writable (tag (heap w' rid)) = dev_writable (tag (heap w rid))
  /\ dev_mem (tag (heap w' rid)) = updateZ (dev_mem (tag (heap w rid))) block data.
Proof.
  unfold reader_write.
  destruct (dev_writable (tag (heap w rid)) block); [|discriminate].
  intros H. injection H as <-. cbn [currentReader heap].
  unfold update. rewrite Nat.eqb_refl. cbn. auto.
Qed.

Lemma write_loop_unfold n i buffer rid w :
  write_loop (S n) i buffer rid w =
  match reader_write rid (4 + i) (chunk_at buffer i) w with
  | None => (Some TransferError, w, [IOWrite rid (4 + i) (chunk_at buffer i)])
  | Some w' =>
      let '(e, w'', tr) := write_loop n (i + 1) buffer rid w' in
      (e, w'', IOWrite rid (4 + i) (chunk_at buffer i) :: tr)
  end.
Proof. reflexivity. Qed.

(** The loop issues nothing but writes, to the current reader, block after
    block from [4 + i]; it ends in an error exactly when it stopped early. *)
Lemma write_loop_trace n :
  forall i buffer rid w,
  exists m, (m <= n)%nat /\
    snd (write_loop n i buffer rid w)
    = map (fun j => IOWrite rid (4 + j) (chunk_at buffer j)) (zrange i m).
Proof.
  induction n as [|n IH]; intros i buffer rid w.
  - exists 0%nat. split; [lia|reflexivity].
  - rewrite write_loop_unfold.
    destruct (reader_write rid (4 + i) (chunk_at buffer i) w) as [w'|].
    + destruct (IH (i + 1) buffer rid w') as [m [Hm Htr]].
      destruct (write_loop n (i + 1) buffer rid w') as [[e w''] tr].
      cbn [snd] in *. exists (S m). split; [lia|]. cbn [zrange map].
      rewrite Htr. reflexivity.
    + exists 1%nat. split; [lia|reflexivity].
Qed.

(** When every block it needs can be written, the loop writes all of them
    and leaves each chunk in its block. *)
Lemma write_loop_ok n :
  forall i buffer rid w,
    (forall j, i <= j < i + Z.of_nat n ->
               dev_writable (tag (heap w rid)) (4 + j) = true) ->
    exists w',
      write_loop n i buffer rid w
      = (None, w', map (fun j => IOWrite rid (4 + j) (chunk_at buffer j)) (zrange i n))
      /\ currentReader w' = currentReader w
      /\ card (heap w' rid) = card (heap w rid)
      /\ dev_readable (tag (heap w' rid)) = dev_readable (tag (heap w rid))
      /\ (forall b, dev_mem (tag (heap w' rid)) b
                    = if (4 + i <=? b) && (b <? 4 + i + Z.of_nat n)
                      then chunk_at buffer (b - 4)
                      else dev_mem (tag (heap w rid)) b).
Proof.
  induction n as [|n IH]; intros i buffer rid w Hw.
  - exists w. repeat split. intros b.
    destruct (Z.leb_spec (4 + i) b), (Z.ltb_spec b (4 + i + Z.of_nat 0));
      cbn [andb]; try reflexivity; lia.
  - rewrite write_loop_unfold.
    destruct (reader_write rid (4 + i) (chunk_at buffer i) w) as [w1|] eqn:Hwr.
    + destruct (reader_write_spec _ _ _ _ _ Hwr) as [Hc [Hcard [Hrd [Hwt Hmem]]]].
      destruct (IH (i + 1) buffer rid w1) as [w' [Hrun [Hc' [Hcard' [Hrd' Hmem']]]]].
      { intros j Hj. rewrite Hwt. apply Hw. lia. }
      exists w'. rewrite Hrun. cbn [zrange map].
      split; [reflexivity|]. split; [congruence|]. split; [congruence|].
      split; [congruence|]. intros b. rewrite Hmem', Hmem. unfold updateZ.
      destruct (Z.leb_spec (4 + (i + 1)) b), (Z.ltb_spec b (4 + (i + 1) + Z.of_nat n)),
               (Z.leb_spec (4 + i) b), (Z.ltb_spec b (4 + i + Z.of_nat (S n)));
        cbn [andb]; try reflexivity; try lia;
        destruct (Z.eqb_spec b (4 + i)); try reflexivity; try lia.
      subst b. f_equal. lia.
    + unfold reader_write in Hwr. rewrite (Hw i) in Hwr by lia. discriminate.
Qed.

Lemma chunk_at_nat buffer j :
  chunk_at buffer (Z.of_nat j) = firstn 4 (skipn (4 * j) buffer).
Proof.
  unfold chunk_at, Buffer_slice, blockSize.
  replace (Z.to_nat ((Z.of_nat j + 1) * 4 - Z.of_nat j * 4)) with 4%nat by lia.
  replace (Z.to_nat (Z.of_nat j * 4)) with (4 * j)%nat by lia.
  reflexivity.
Qed.

(** [JSON.stringify] of an object is a text in braces. *)
Lemma stringify_object_framed props :
  exists s, JSON_stringify (JObject props) = Some s
            /\ startsWith s 123 = true /\ endsWith s 125 = true
            /\ (2 <= length s)%nat.
Proof.
  unfold JSON_stringify. cbn [SerializeJSONProperty].
  eexists. split; [reflexivity|]. split; [reflexivity|]. split.
  - unfold endsWith. rewrite app_assoc, rev_app_distr. reflexivity.
  - rewrite !length_app. cbn [length]. lia.
Qed.

(* ================================================================== *)
(** ** Reading back what was written *)

Lemma firstn_skipn_shift {A} (a rest : list A) j :
  length a = 4%nat ->
  firstn 4 (skipn (4 * S j) (a ++ rest)) = firstn 4 (skipn (4 * j) rest).
Proof.
  intros Ha. replace (4 * S j)%nat with (length a + 4 * j)%nat by lia.
  rewrite skipn_app, Nat.add_comm, Nat.add_sub.
  rewrite skipn_all2 by lia. reflexivity.
Qed.

(** The loop run over blocks that hold [text] followed by [pad] zero
    bytes returns [text]: the last block is short when there is padding,
    and otherwise the block after the text has to end the loop without
    adding anything. *)
Lemma read_back n :
  forall text pad i buffer fuel rid w,
    ascii_text text ->
    (pad < 4)%nat ->
    (length text + pad = 4 * n)%nat ->
    (forall j, (j < n)%nat ->
       reader_read rid (4 + (i + Z.of_nat j)) blockSize w
       = Some (firstn 4 (skipn (4 * j) (text ++ repeat 0 pad)))) ->
    (pad = 0%nat ->
       stops_at rid w (i + Z.of_nat n) = true
       /\ block_text rid w (i + Z.of_nat n) = []) ->
    (n < fuel)%nat ->
    exists tr, read_loop fuel rid w i buffer = Some (buffer ++ text, tr).
Proof.
  induction n as [|n IH];
    intros text pad i buffer fuel rid w Htext Hpad Hlen Hblocks Hend Hfuel;
    (destruct fuel as [|fuel]; [lia|]); rewrite read_loop_unfold.
  - assert (pad = 0%nat) by lia. assert (text = []) by (destruct text; [reflexivity|cbn in Hlen; lia]).
    subst. destruct (Hend eq_refl) as [Hstop Hnone].
    replace (i + Z.of_nat 0) with i in * by lia.
    unfold stops_at in Hstop. unfold block_text in Hnone.
    destruct (reader_read rid (4 + i) blockSize w) as [chunk|];
      [|rewrite app_nil_r; eauto].
    rewrite Hstop, Hnone. eauto.
  - pose proof (Hblocks 0%nat ltac:(lia)) as H0.
    replace (i + Z.of_nat 0) with i in H0 by lia.
    change (4 * 0)%nat with 0%nat in H0. cbn [skipn] in H0. rewrite H0.
    destruct (Nat.le_gt_cases 4 (length text)) as [Hlong|Hshort].
    + (* a full block of text: the loop goes on *)
      assert (Hsplit : text = firstn 4 text ++ skipn 4 text)
        by (symmetry; apply firstn_skipn).
      assert (Ht4 : length (firstn 4 text) = 4%nat)
        by (rewrite length_firstn; lia).
      remember (firstn 4 text) as t4 eqn:E1.
      remember (skipn 4 text) as text' eqn:E2.
      clear E1 E2. subst text.
      apply Forall_app in Htext. destruct Htext as [Hta Htb].
      rewrite <- app_assoc, firstn_app, Ht4, Nat.sub_diag, firstn_all2 by lia.
      cbn [firstn]. rewrite app_nil_r.
      pose proof (chunkData_of_padded t4 0 Hta) as Hcd. cbn [repeat] in Hcd.
      rewrite app_nil_r in Hcd. rewrite Hcd, Ht4.
      change (Z.of_nat 4 <? blockSize) with false.
      rewrite Buffer_from_ascii by (apply ascii_text_bytes; exact Hta).
      destruct (IH text' pad (i + 1) (buffer ++ t4) fuel rid w) as [tr Hrun];
        try assumption.
      * rewrite length_app in Hlen. lia.
      * intros j Hj. specialize (Hblocks (S j) ltac:(lia)).
        replace (i + 1 + Z.of_nat j) with (i + Z.of_nat (S j)) by lia.
        rewrite Hblocks, <- app_assoc. f_equal. apply firstn_skipn_shift. exact Ht4.
      * intros Hp. replace (i + 1 + Z.of_nat n) with (i + Z.of_nat (S n)) by lia.
        apply Hend. exact Hp.
      * lia.
      * rewrite Hrun, <- app_assoc. eauto.
    + (* the last block, short: the loop stops *)
      rewrite firstn_all2 by (rewrite length_app, repeat_length; lia).
      rewrite chunkData_of_padded by exact Htext.
      destruct (Z.ltb_spec (Z.of_nat (length text)) blockSize) as [_|Hge];
        [|unfold blockSize in Hge; lia].
      rewrite Buffer_from_ascii by (apply ascii_text_bytes; exact Htext). eauto.
Qed.

(* ================================================================== *)
(** ** The routes *)

Lemma zrange_snoc n : forall i, zrange i (S n) = zrange i n ++ [i + Z.of_nat n].
Proof.
  induction n as [|n IH]; intros i.
  - cbn. f_equal. lia.
  - cbn [zrange app] in *. f_equal. rewrite (IH (i + 1)). cbn [zrange].
    do 2 f_equal. lia.
Qed.

Lemma gathered_succ rid w n :
  gathered rid w (S n) = gathered rid w n ++ block_text rid w (Z.of_nat n).
Proof.
  unfold gathered. rewrite zrange_snoc, map_app, concat_app. cbn [map concat].
  rewrite app_nil_r. reflexivity.
Qed.

(** The loop of the read route, started as the route starts it. *)
Lemma read_loop_from_start rid w k fuel :
  (forall j, (j < k)%nat -> stops_at rid w (Z.of_nat j) = false) ->
  stops_at rid w (Z.of_nat k) = true ->
  (k < fuel)%nat ->
  read_loop fuel rid w 0 (Buffer_alloc 0)
  = Some (gathered rid w (S k), reads rid 0 (S k)).
Proof.
  intros Hgo Hstop Hfuel.
  exact (read_loop_until k fuel rid w 0 [] Hgo Hstop Hfuel).
Qed.

Lemma nullish_rest_properties body :
  nullish body = false -> exists props, rest_properties body = Some props.
Proof. destruct body; cbn; intros H; try discriminate; eauto. Qed.

(** What the write route does once the reader is known and the payload
    serialized, whatever the serializer. *)
Lemma nfcWrite_serialized stringify body props s w rid :
  rest_properties body = Some props ->
  stringify (JObject props) = Some s ->
  currentReader w = Some rid ->
  nfcWrite_try_with stringify body w =
  if Buffer_byteLength s >? 180 then (Return res_too_large, w, [])
  else
    match write_loop (iterations (encode_buffer s)) 0 (encode_buffer s) rid w with
    | (Some e, w', tr) => (Throw e, w', tr)
    | (None, w', tr) => (Return res_written, w', tr)
    end.
Proof.
  intros Hb Hs Hr. unfold nfcWrite_try_with. rewrite Hb. cbn [ToBoolean negb].
  rewrite Hr, Hs. reflexivity.
Qed.

(** A text that is not empty needs a block. *)
Lemma iterations_nonempty s :
  1 <= Buffer_byteLength s -> exists n, iterations (encode_buffer s) = S n.
Proof.
  intros Hs.
  assert (Hlen : (1 <= length s)%nat).
  { destruct s; [change (Buffer_byteLength []) with 0 in Hs; lia|cbn [length]; lia]. }
  pose proof (iterations_encode_buffer s) as Hit.
  pose proof (Math_ceil_div_bounds (Z.of_nat (length s)) ltac:(lia)) as Hb.
  unfold blockSize in *.
  destruct (iterations (encode_buffer s)) as [|n]; [lia|eauto].
Qed.

Lemma read_loop_more_fuel fuel :
  forall rid w i buffer r,
    read_loop fuel rid w i buffer = Some r ->
    read_loop (S fuel) rid w i buffer = Some r.
Proof.
  induction fuel as [|fuel IH]; intros rid w i buffer r Hr; [discriminate|].
  rewrite read_loop_unfold in Hr. rewrite read_loop_unfold.
  destruct (reader_read rid (4 + i) blockSize w) as [chunk|]; [|exact Hr].
  destruct (Z.of_nat (length (chunkData_of chunk)) <? blockSize); [exact Hr|].
  destruct (read_loop fuel rid w (i + 1) (buffer ++ Buffer_from (chunkData_of chunk)))
    as [[b tr]|] eqn:Hrec; [|discriminate].
  rewrite (IH _ _ _ _ _ Hrec). exact Hr.
Qed.

(** A read that has answered answers the same with more fuel. *)
Lemma nfcRead_more_fuel parse k fuel w r :
  nfcRead parse fuel w = Some r -> nfcRead parse (k + fuel) w = Some r.
Proof.
  intros Hr. induction k as [|k IH]; [exact Hr|].
  cbn [Nat.add]. unfold nfcRead, nfcRead_try in *.
  destruct (currentReader w) as [rid|]; [|exact IH].
  destruct (card (heap w rid)); [|exact IH].
  destruct (read_loop (k + fuel) rid w 0 (Buffer_alloc 0)) as [[b tr]|] eqn:Hrun;
    [|discriminate].
  rewrite (read_loop_more_fuel _ _ _ _ _ _ Hrun). exact IH.
Qed.

Section RouteProperties.

Variable JSON_parse : jsstring -> option JSValue.

(** [JSON.stringify] of the platform. *)
Variable stringify : JSValue -> option jsstring.

(** C3.  Whatever text [JSON.stringify] gives for the payload: when it
    has between 1 and 180 bytes (so exactly 180), the payload passes the
    size check, the route goes on to write block 4 and answers with
    success or with the write error, and with success and one write per
    chunk when the tag takes the writes.  When it has more than 180 bytes
    (so 181), the route answers "Data exceeds the maximum size of 180
    bytes.", the world is as it was and no reader call is made. *)
Theorem size_boundary body props s w rid :
  rest_properties body = Some props ->
  stringify (JObject props) = Some s ->
  currentReader w = Some rid ->
  (1 <= Buffer_byteLength s <= 180 ->
     (exists r w' tr,
        nfcWrite_with stringify body w
        = (r, w', IOWrite rid 4 (chunk_at (encode_buffer s) 0) :: tr)
        /\ (r = res_written \/ r = res_write_error))
     /\ ((forall b, 4 <= b < 4 + Z.of_nat (iterations (encode_buffer s)) ->
            dev_writable (tag (heap w rid)) b = true) ->
         exists w', nfcWrite_with stringify body w
                    = (res_written, w', writes rid (encode_buffer s))))
  /\ (180 < Buffer_byteLength s ->
      nfcWrite_with stringify body w = (res_too_large, w, [])).
Proof.
  intros Hb Hs Hr. unfold nfcWrite_with.
  rewrite (nfcWrite_serialized stringify body props s w rid Hb Hs Hr).
  split.
  - intros [Hge Hle].
    destruct (Z.gtb_spec (Buffer_byteLength s) 180) as [Hgt|_]; [lia|].
    split.
    + destruct (iterations_nonempty s Hge) as [n Hn]. rewrite Hn.
      rewrite write_loop_unfold. change (4 + 0) with 4.
      destruct (reader_write rid 4 (chunk_at (encode_buffer s) 0) w) as [w1|].
      * destruct (write_loop n (0 + 1) (encode_buffer s) rid w1) as [[[e|] w2] tr];
          eauto 6.
      * eauto 6.
    + intros Hw.
      destruct (write_loop_ok (iterations (encode_buffer s)) 0 (encode_buffer s) rid w)
        as [w' [Hrun _]].
      { intros j Hj. apply Hw. lia. }
      rewrite Hrun. eauto.
  - intros Hgt. destruct (Z.gtb_spec (Buffer_byteLength s) 180) as [_|Hle]; [|lia].
    reflexivity.
Qed.

(** C4.  When iterations 0 .. k-1 read full blocks and the read of
    iteration [k] returns a chunk whose text without nulls is shorter than
    4 (in particular a chunk with fewer than 4 non-null bytes, such as 2),
    the loop returns after exactly the reads of blocks 4 .. 4+k: block
    4+k+1 is not read. *)
Theorem short_block_ends_loop w rid c k chunk fuel :
  currentReader w = Some rid ->
  card (heap w rid) = Some c ->
  (forall j, (j < k)%nat -> stops_at rid w (Z.of_nat j) = false) ->
  reader_read rid (4 + Z.of_nat k) blockSize w = Some chunk ->
  (length (chunkData_of chunk) < 4)%nat \/ (nonnull_bytes chunk < 4)%nat ->
  (k < fuel)%nat ->
  read_loop fuel rid w 0 [] = Some (gathered rid w (S k), reads rid 0 (S k))
  /\ (exists r, nfcRead JSON_parse fuel w = Some (r, reads rid 0 (S k)))
  /\ last (reads rid 0 (S k)) (IORead rid 0 0) = IORead rid (4 + Z.of_nat k) blockSize
  /\ ~ In (IORead rid (4 + Z.of_nat k + 1) blockSize) (reads rid 0 (S k)).
Proof.
  intros Hr Hc Hgo Hread Hshort Hfuel.
  assert (Hlen : (length (chunkData_of chunk) < 4)%nat).
  { destruct Hshort as [H|H]; [exact H|].
    pose proof (chunkData_length_le chunk). lia. }
  assert (Hstop : stops_at rid w (Z.of_nat k) = true).
  { unfold stops_at. rewrite Hread. apply Z.ltb_lt. unfold blockSize. lia. }
  pose proof (read_loop_from_start rid w k fuel Hgo Hstop Hfuel) as Hrun.
  split; [exact Hrun|]. split.
  - unfold nfcRead, nfcRead_try. rewrite Hr, Hc, Hrun.
    destruct (finish_read JSON_parse (gathered rid w (S k))); eauto.
  - split.
    + unfold reads. rewrite zrange_snoc, map_app. cbn [map].
      rewrite last_last. reflexivity.
    + intros Hin. apply reads_In in Hin. lia.
Qed.

(** C5.  When iterations 0 .. k-1 read full blocks and the read of
    iteration [k] is rejected, the route does not answer with that
    failure: it finishes with the buffer gathered from the k blocks, and
    answers 200 with the parsed data whenever that buffer passes the
    framing check and parses. *)
Theorem read_failure_ends_loop w rid c k fuel :
  currentReader w = Some rid ->
  card (heap w rid) = Some c ->
  (forall j, (j < k)%nat -> stops_at rid w (Z.of_nat j) = false) ->
  reader_read rid (4 + Z.of_nat k) blockSize w = None ->
  (k < fuel)%nat ->
  nfcRead_try JSON_parse fuel w
  = Some (finish_read JSON_parse (gathered rid w k), reads rid 0 (S k))
  /\ (forall data,
        looks_like_json (reconstruct (gathered rid w k)) = true ->
        JSON_parse (reconstruct (gathered rid w k)) = Some data ->
        nfcRead JSON_parse fuel w = Some (res_data data, reads rid 0 (S k))).
Proof.
  intros Hr Hc Hgo Hread Hfuel.
  assert (Hstop : stops_at rid w (Z.of_nat k) = true).
  { unfold stops_at. rewrite Hread. reflexivity. }
  pose proof (read_loop_from_start rid w k fuel Hgo Hstop Hfuel) as Hrun.
  rewrite gathered_succ in Hrun. unfold block_text at 1 in Hrun.
  rewrite Hread, app_nil_r in Hrun.
  assert (Htry : nfcRead_try JSON_parse fuel w
                 = Some (finish_read JSON_parse (gathered rid w k), reads rid 0 (S k))).
  { unfold nfcRead_try. rewrite Hr, Hc, Hrun. reflexivity. }
  split; [exact Htry|].
  intros data Hframe Hparse. unfold nfcRead. rewrite Htry.
  unfold finish_read. unfold looks_like_json in Hframe.
  apply andb_true_iff in Hframe. destruct Hframe as [Hs He].
  rewrite Hs, He, Hparse. reflexivity.
Qed.

(** C6.  When the string reconstructed from the buffer does not both
    begin with an opening brace and end with a closing brace, the [try]
    block throws the framing error and the route answers 500 "Error
    reading NFC tag": no payload is returned and nothing escapes the
    route. *)
Theorem malformed_framing fuel w rid c buffer tr :
  currentReader w = Some rid ->
  card (heap w rid) = Some c ->
  read_loop fuel rid w 0 [] = Some (buffer, tr) ->
  looks_like_json (reconstruct buffer) = false ->
  finish_read JSON_parse buffer = Throw framing_error
  /\ nfcRead_try JSON_parse fuel w = Some (Throw framing_error, tr)
  /\ nfcRead JSON_parse fuel w = Some (res_read_error, tr).
Proof.
  intros Hr Hc Hrun Hframe.
  assert (Hfin : finish_read JSON_parse buffer = Throw framing_error).
  { unfold finish_read. unfold looks_like_json in Hframe.
    apply andb_false_iff in Hframe.
    destruct Hframe as [H|H]; rewrite H; cbn [negb orb]; [reflexivity|].
    rewrite orb_true_r. reflexivity. }
  assert (Htry : nfcRead_try JSON_parse fuel w = Some (Throw framing_error, tr)).
  { unfold nfcRead_try. rewrite Hr, Hc.
    change (Buffer_alloc 0) with (@nil Z). rewrite Hrun, Hfin. reflexivity. }
  split; [exact Hfin|]. split; [exact Htry|].
  unfold nfcRead. rewrite Htry. reflexivity.
Qed.

(** C7.  With [currentReader] null the write route (for a body that is
    not null or undefined) and the read route both answer 500 "No NFC
    reader connected.", and neither route makes a reader call, whatever
    the body. *)
Theorem no_reader_available w :
  currentReader w = None ->
  (forall body, nullish body = false ->
                nfcWrite body w = (res_no_reader, w, []))
  /\ (forall body, snd (nfcWrite body w) = [])
  /\ (forall fuel, nfcRead JSON_parse fuel w = Some (res_no_reader, [])).
Proof.
  intros Hr. split; [|split].
  - intros body Hb. destruct (nullish_rest_properties body Hb) as [props Hp].
    unfold nfcWrite, nfcWrite_with, nfcWrite_try, nfcWrite_try_with. rewrite Hp. cbn [ToBoolean negb].
    rewrite Hr. reflexivity.
  - intros body. unfold nfcWrite, nfcWrite_with, nfcWrite_try, nfcWrite_try_with.
    destruct (rest_properties body) as [props|]; [|reflexivity].
    cbn [ToBoolean negb]. rewrite Hr. reflexivity.
  - intros fuel. unfold nfcRead, nfcRead_try. rewrite Hr. reflexivity.
Qed.

End RouteProperties.

Lemma card_flag_events evs :
  forall w rid,
    has_card (heap (run_events evs w) rid)
    = card_seen rid evs (has_card (heap w rid)).
Proof.
  induction evs as [|e evs IH]; intros w rid; [reflexivity|].
  unfold run_events in *. cbn [fold_left card_seen]. rewrite IH. f_equal.
  destruct e; cbn [handle_event driver_update heap]; try reflexivity;
    unfold update; destruct (Nat.eqb rid rid0); reflexivity.
Qed.

Section SessionProperties.

Variable JSON_parse : jsstring -> option JSValue.

(** [JSON.stringify] of the platform. *)
Variable stringify : JSValue -> option jsstring.

(** C8.  After any sequence of driver events that leaves reader [rid]
    current and in which no card event of that reader follows its last
    card-removed event (or its attachment), the read route answers 404
    "No card detected. Place a card on the reader." without a reader
    call.  With no events this is the plain case of a current reader
    whose [card] is null. *)
Theorem no_card_present w0 evs rid :
  currentReader (run_events evs w0) = Some rid ->
  card_seen rid evs (has_card (heap w0 rid)) = false ->
  forall fuel,
    nfcRead JSON_parse fuel (run_events evs w0) = Some (res_no_card, []).
Proof.
  intros Hr Hseen fuel. rewrite <- card_flag_events in Hseen.
  unfold has_card in Hseen. unfold nfcRead, nfcRead_try. rewrite Hr.
  destruct (card (heap (run_events evs w0) rid)); [discriminate|reflexivity].
Qed.

(** X13.  The loop returns for some amount of fuel exactly when some
    block from block 4 on is rejected on read or gives a text without
    nulls of fewer than 4 code units.  When every block from 4 on reads as
    bytes whose text without nulls has at least 4 code units, as four
    non-null ASCII bytes have, the loop never returns, and neither does
    the route. *)
Theorem read_loop_termination w rid :
  ((exists fuel r, read_loop fuel rid w 0 [] = Some r)
   <-> (exists b, 4 <= b /\
          (reader_read rid b blockSize w = None
           \/ exists chunk, reader_read rid b blockSize w = Some chunk
                            /\ (length (chunkData_of chunk) < 4)%nat)))
  /\ ((forall b, 4 <= b ->
         exists chunk, reader_read rid b blockSize w = Some chunk
                       /\ ((length chunk = 4%nat /\ ascii_text chunk)
                           \/ (4 <= length (chunkData_of chunk))%nat)) ->
      (forall fuel, read_loop fuel rid w 0 [] = None)
      /\ (currentReader w = Some rid -> has_card (heap w rid) = true ->
          forall fuel, nfcRead JSON_parse fuel w = None)).
Proof.
  split; [split|].
  - intros [fuel [r Hrun]].
    destruct (read_loop_returns_stop fuel rid w 0 [] r Hrun) as [k [_ Hstop]].
    exists (4 + Z.of_nat k). split; [lia|].
    rewrite Z.add_0_l in Hstop. unfold stops_at in Hstop.
    destruct (reader_read rid (4 + Z.of_nat k) blockSize w) as [chunk|];
      [right|left; reflexivity].
    exists chunk. split; [reflexivity|].
    apply Z.ltb_lt in Hstop. unfold blockSize in Hstop. lia.
  - intros [b [Hb Hcase]].
    destruct (read_loop_stop_returns (Z.to_nat (b - 4)) rid w 0 []) as [r Hrun].
    + unfold stops_at. replace (4 + (0 + Z.of_nat (Z.to_nat (b - 4)))) with b by lia.
      destruct Hcase as [Hnone|[chunk [Hsome Hlen]]].
      * rewrite Hnone. reflexivity.
      * rewrite Hsome. apply Z.ltb_lt. unfold blockSize. lia.
    + eauto.
  - intros Hfull.
    assert (Hgo : forall j, stops_at rid w (0 + Z.of_nat j) = false).
    { intros j. unfold stops_at.
      destruct (Hfull (4 + (0 + Z.of_nat j)) ltac:(lia))
        as [chunk [Hread [[Hlen Htext]|Hlen]]]; rewrite Hread.
      - pose proof (chunkData_of_padded chunk 0 Htext) as Hcd.
        cbn [repeat] in Hcd. rewrite app_nil_r in Hcd. rewrite Hcd, Hlen.
        reflexivity.
      - apply Z.ltb_ge. unfold blockSize. lia. }
    split.
    + intros fuel. apply read_loop_forever. exact Hgo.
    + intros Hr Hc fuel. unfold nfcRead, nfcRead_try. rewrite Hr.
      unfold has_card in Hc. destruct (card (heap w rid)); [|discriminate].
      change (Buffer_alloc 0) with (@nil Z).
      rewrite (read_loop_forever fuel rid w 0 [] Hgo). reflexivity.
Qed.

(** A write of the text [s] followed by a read, for any [JSON.stringify]
    and any [JSON.parse]. *)
Lemma write_then_read_back body props s w rid c fuel :
  rest_properties body = Some props ->
  stringify (JObject props) = Some s ->
  ascii_text s ->
  looks_like_json s = true ->
  Buffer_byteLength s <= 180 ->
  currentReader w = Some rid ->
  card (heap w rid) = Some c ->
  (forall b, 4 <= b < 4 + Z.of_nat (iterations (encode_buffer s)) ->
     dev_writable (tag (heap w rid)) b = true
     /\ dev_readable (tag (heap w rid)) b = true) ->
  (Z.of_nat (length s) mod 4 = 0 ->
     let b := 4 + Z.of_nat (iterations (encode_buffer s)) in
     dev_readable (tag (heap w rid)) b = false
     \/ Forall (fun x => x = 0) (dev_mem (tag (heap w rid)) b)) ->
  (iterations (encode_buffer s) < fuel)%nat ->
  exists w' tr,
    nfcWrite_with stringify body w
    = (res_written, w', writes rid (encode_buffer s))
    /\ (exists buffer,
          read_loop fuel rid w' 0 (Buffer_alloc 0) = Some (buffer, tr)
          /\ reconstruct buffer = s)
    /\ nfcRead_try JSON_parse fuel w'
       = Some (match JSON_parse s with
               | Some data => Return (res_data data)
               | None => Throw SyntaxError
               end, tr)
    /\ (JSON_parse s = Some (JObject props) ->
        nfcRead JSON_parse fuel w' = Some (res_data (JObject props), tr)).
Proof.
  intros Hb Hs Htext Hframed Hlen Hr Hc Hblocks Hend Hfuel.
  pose proof (ascii_text_bytes s Htext) as Hbytes.
  rewrite (Buffer_byteLength_ascii s Hbytes) in Hlen.
  unfold looks_like_json in Hframed. apply andb_true_iff in Hframed.
  destruct Hframed as [Hstart Hstop].
  destruct (encode_buffer_ascii s Hbytes) as [pad [Hpad Hbuf]].
  set (n := iterations (encode_buffer s)) in *.
  assert (Hn : (length s + pad = 4 * n)%nat).
  { pose proof (encode_buffer_length s) as H1.
    pose proof (iterations_encode_buffer s) as H2. fold n in H2.
    rewrite Hbuf, length_app, repeat_length in H1. unfold blockSize in *. lia. }
  destruct (write_loop_ok n 0 (encode_buffer s) rid w)
    as [w' [Hrun [Hcur [Hcard [Hrd Hmem]]]]].
  { intros j Hj. apply Hblocks. lia. }
  assert (Hwrite : nfcWrite_with stringify body w
                   = (res_written, w', writes rid (encode_buffer s))).
  { unfold nfcWrite_with.
    rewrite (nfcWrite_serialized stringify body props s w rid Hb Hs Hr).
    rewrite (Buffer_byteLength_ascii s Hbytes).
    destruct (Z.gtb_spec (Z.of_nat (length s)) 180); [lia|].
    fold n. rewrite Hrun. reflexivity. }
  destruct (read_back n s pad 0 [] fuel rid w') as [tr Hread]; try assumption.
  { intros j Hj. unfold reader_read. rewrite Hrd.
    rewrite (proj2 (Hblocks (4 + (0 + Z.of_nat j)) ltac:(lia))).
    rewrite Hmem.
    destruct (Z.leb_spec (4 + 0) (4 + (0 + Z.of_nat j))); [|lia].
    destruct (Z.ltb_spec (4 + (0 + Z.of_nat j)) (4 + 0 + Z.of_nat n)); [|lia].
    cbn [andb]. replace (4 + (0 + Z.of_nat j) - 4) with (Z.of_nat j) by lia.
    rewrite chunk_at_nat, Hbuf. reflexivity. }
  { intros Hp0. subst pad.
    assert (Hmod : Z.of_nat (length s) mod 4 = 0).
    { replace (Z.of_nat (length s)) with (Z.of_nat n * 4) by lia.
      apply Z.mod_mul. lia. }
    specialize (Hend Hmod). cbn zeta in Hend.
    unfold stops_at, block_text, reader_read. rewrite Hrd.
    replace (4 + (0 + Z.of_nat n)) with (4 + Z.of_nat n) by lia.
    destruct Hend as [Hno|Hzero].
    - rewrite Hno. split; reflexivity.
    - destruct (dev_readable (tag (heap w rid)) (4 + Z.of_nat n));
        [|split; reflexivity].
      rewrite Hmem.
      destruct (Z.ltb_spec (4 + Z.of_nat n) (4 + 0 + Z.of_nat n)); [lia|].
      rewrite andb_false_r.
      assert (Hz : dev_mem (tag (heap w rid)) (4 + Z.of_nat n)
                   = repeat 0 (length (dev_mem (tag (heap w rid)) (4 + Z.of_nat n)))).
      { apply Forall_eq_repeat. revert Hzero. apply Forall_impl.
        intros x Hx. symmetry. exact Hx. }
      pose proof (chunkData_of_padded []
                    (length (dev_mem (tag (heap w rid)) (4 + Z.of_nat n)))
                    (Forall_nil _)) as Hcd.
      cbn [app] in Hcd. rewrite Hz, Hcd. split; reflexivity. }
  cbn [app] in Hread.
  pose proof (reconstruct_framed s Htext Hstart Hstop) as Hrec.
  assert (Htry : nfcRead_try JSON_parse fuel w'
                 = Some (match JSON_parse s with
                         | Some data => Return (res_data data)
                         | None => Throw SyntaxError
                         end, tr)).
  { unfold nfcRead_try. rewrite Hcur, Hr, Hcard, Hc.
    change (Buffer_alloc 0) with (@nil Z). rewrite Hread.
    unfold finish_read. rewrite Hrec, Hstart, Hstop. reflexivity. }
  exists w', tr. split; [exact Hwrite|]. split.
  { exists s. split; [exact Hread|exact Hrec]. }
  split; [exact Htry|].
  intros Hparse. unfold nfcRead. rewrite Htry, Hparse. reflexivity.
Qed.

(** C1 (amended).  Let [s] be the text [JSON.stringify] gives for the
    payload, and let it be non-null ASCII text in braces of at most 180
    bytes.  When the reader has a card whose blocks the text needs can be
    written and read and, if the length of [s] is a multiple of 4, the
    block after them is rejected on read or holds only null bytes, then
    the write succeeds with one write per chunk of the padded text, a read
    after it gathers and reconstructs exactly [s], and the route answers
    with [JSON.parse] of [s]: with the payload itself whenever
    [JSON.parse] returns the payload for [s]. *)
Theorem roundtrip_ascii body props s w rid c fuel :
  rest_properties body = Some props ->
  stringify (JObject props) = Some s ->
  ascii_text s ->
  looks_like_json s = true ->
  Buffer_byteLength s <= 180 ->
  currentReader w = Some rid ->
  card (heap w rid) = Some c ->
  (forall b, 4 <= b < 4 + Z.of_nat (iterations (encode_buffer s)) ->
     dev_writable (tag (heap w rid)) b = true
     /\ dev_readable (tag (heap w rid)) b = true) ->
  (Z.of_nat (length s) mod 4 = 0 ->
     let b := 4 + Z.of_nat (iterations (encode_buffer s)) in
     dev_readable (tag (heap w rid)) b = false
     \/ Forall (fun x => x = 0) (dev_mem (tag (heap w rid)) b)) ->
  (iterations (encode_buffer s) < fuel)%nat ->
  exists w' tr,
    nfcWrite_with stringify body w
    = (res_written, w', writes rid (encode_buffer s))
    /\ (exists buffer,
          read_loop fuel rid w' 0 (Buffer_alloc 0) = Some (buffer, tr)
          /\ reconstruct buffer = s)
    /\ nfcRead_try JSON_parse fuel w'
       = Some (match JSON_parse s with
               | Some data => Return (res_data data)
               | None => Throw SyntaxError
               end, tr)
    /\ (JSON_parse s = Some (JObject props) ->
        nfcRead JSON_parse fuel w' = Some (res_data (JObject props), tr)).
Proof. exact (write_then_read_back body props s w rid c fuel). Qed.

End SessionProperties.

(** C9.  The [try] block of the write route never returns the response
    "Missing 'data' field in the request body.", and neither does the
    route: the rest pattern throws or builds an object, and an object is
    truthy.  The empty body [{}] passes the test, and with a reader whose
    block 4 takes a write it is sent as the single chunk of the two braces
    and two zero bytes. *)
Theorem missing_data_unreachable :
  (forall body props,
     rest_properties body = Some props -> ToBoolean (JObject props) = true)
  /\ (forall body w, fst (fst (nfcWrite_try body w)) <> Return res_missing_data)
  /\ (forall body w, fst (fst (nfcWrite body w)) <> res_missing_data)
  /\ (forall w rid,
        currentReader w = Some rid ->
        dev_writable (tag (heap w rid)) 4 = true ->
        exists w', nfcWrite (JObject []) w
                   = (res_written, w', [IOWrite rid 4 [123; 125; 0; 0]])).
Proof.
  split; [reflexivity|]. split; [|split].
  - intros body w. unfold nfcWrite_try, nfcWrite_try_with.
    destruct (rest_properties body) as [props|]; [|discriminate].
    cbn [ToBoolean negb].
    destruct (currentReader w) as [rid|]; [|discriminate].
    destruct (JSON_stringify (JObject props)) as [s|]; [|discriminate].
    destruct (Buffer_byteLength s >? 180); [discriminate|].
    destruct (write_loop _ _ _ _ _) as [[[e|] w'] tr]; discriminate.
  - intros body w. unfold nfcWrite, nfcWrite_with, nfcWrite_try, nfcWrite_try_with.
    destruct (rest_properties body) as [props|]; [|discriminate].
    cbn [ToBoolean negb].
    destruct (currentReader w) as [rid|]; [|discriminate].
    destruct (JSON_stringify (JObject props)) as [s|]; [|discriminate].
    destruct (Buffer_byteLength s >? 180); [discriminate|].
    destruct (write_loop _ _ _ _ _) as [[[e|] w'] tr]; discriminate.
  - intros w rid Hr Hw. unfold nfcWrite, nfcWrite_with.
    rewrite (nfcWrite_serialized JSON_stringify (JObject []) [] [123; 125] w rid
               eq_refl eq_refl Hr).
    change (Buffer_byteLength [123; 125] >? 180) with false. cbv iota.
    change (encode_buffer [123; 125]) with [123; 125; 0; 0].
    change (iterations [123; 125; 0; 0]) with 1%nat.
    rewrite write_loop_unfold.
    change (chunk_at [123; 125; 0; 0] 0) with [123; 125; 0; 0].
    change (4 + 0) with 4. unfold reader_write. rewrite Hw.
    cbn [write_loop]. eauto.
Qed.

(** C2, at the failing input [{"a":"ééé"}].  The serialization has 14
    bytes and passes the size check, the buffer has 12: it is sized from
    the 11 code units of the string.  The route reports success after
    writing three blocks that hold the first 12 bytes only. *)
Theorem encode_buffer_too_short :
  exists s,
    JSON_stringify payload_eee = Some s
    /\ Buffer_byteLength s = 14
    /\ Z.of_nat (length s) = 11
    /\ Z.of_nat (length (encode_buffer s)) = 12
    /\ encode_buffer s = firstn 12 (Buffer_from s)
    /\ (let '(r, _, tr) := nfcWrite payload_eee (world_with (blank_tag 49)) in
        r = res_written
        /\ tr = [IOWrite 0 4 [123; 34; 97; 34];
                 IOWrite 0 5 [58; 34; 195; 169];
                 IOWrite 0 6 [195; 169; 195; 169]]).
Proof.
  eexists. split; [reflexivity|]. repeat split.
Qed.

(** [{"a":12}] has 8 bytes, two full blocks: written over the longer
    [{"a":"xxxxxxxx"}], it is read back together with the two blocks the
    first write left behind it, and the text no longer parses. *)
Example stale_blocks_are_read :
  JSON_stringify payload_a12 = Some [123; 34; 97; 34; 58; 49; 50; 125]
  /\ (forall parse fuel,
        write_write_read parse (payload_x 8) payload_a12 (5 + fuel)
        = (res_written,
           Some (match parse [123; 34; 97; 34; 58; 49; 50; 125;
                              120; 120; 120; 120; 120; 120; 34; 125] with
                 | Some data => res_data data
                 | None => res_read_error
                 end,
                 [IORead 0 4 4; IORead 0 5 4; IORead 0 6 4; IORead 0 7 4;
                  IORead 0 8 4])))
  /\ JSON_parse_ref [123; 34; 97; 34; 58; 49; 50; 125;
                     120; 120; 120; 120; 120; 120; 34; 125] = None.
Proof.
  split; [reflexivity|]. split; [|reflexivity].
  intros parse fuel. vm_compute. destruct (parse _); reflexivity.
Qed.

(** [{"a":"é"}] has 10 bytes: the write succeeds, the read stops after
    block 5, whose text has 3 code units for 4 bytes, and answers 500
    whatever [JSON.parse] is.  At [{"ab":"é"}] the character straddles two
    blocks and comes back as two U+FFFD. *)
Example e_acute_is_not_read_back :
  (exists s, JSON_stringify payload_e_acute = Some s
             /\ Buffer_byteLength s = 10)
  /\ (forall parse fuel,
        write_then_read parse payload_e_acute (2 + fuel)
        = (res_written,
           Some (res_read_error, [IORead 0 4 4; IORead 0 5 4])))
  /\ write_then_read JSON_parse_ref (JObject [(str "ab", JString [233])]) 9
     = (res_written,
        Some (res_data (JObject [(str "ab", JString [0xFFFD; 0xFFFD])]),
              [IORead 0 4 4; IORead 0 5 4; IORead 0 6 4])).
Proof.
  split; [eexists; split; reflexivity|].
  split; [intros parse fuel; reflexivity|reflexivity].
Qed.

Lemma medium_ready_used : medium_ready used_world.
Proof.
  exists 0%nat, "NTAG215"%string. split; [reflexivity|]. split; [reflexivity|].
  intros b Hb.
  change (dev_writable (tag (heap used_world 0)) b)
    with (dev_writable (blank_tag 49) b).
  change (dev_readable (tag (heap used_world 0)) b)
    with (dev_readable (blank_tag 49) b).
  cbn [blank_tag dev_writable dev_readable].
  split; apply andb_true_iff; split;
    try (apply Z.leb_le; lia); apply Z.ltb_lt; lia.
Qed.

(** C1 as stated fails, in two ways.  It fails for an ASCII payload on a
    ready medium: [{"a":12}] on the tag that held [{"a":"xxxxxxxx"}].  And
    it fails on a blank tag, for the payload [{"a":"é"}]. *)
Lemma roundtrip_counterexample :
  ~ (forall body props s w,
       rest_properties body = Some props ->
       JSON_stringify (JObject props) = Some s ->
       1 <= Buffer_byteLength s <= 180 ->
       ascii_value (JObject props) = true ->
       medium_ready w ->
       roundtrip_at JSON_parse_ref body w)
  /\ ~ (forall body props s,
          rest_properties body = Some props ->
          JSON_stringify (JObject props) = Some s ->
          1 <= Buffer_byteLength s <= 180 ->
          roundtrip_at JSON_parse_ref body (world_with (blank_tag 49))).
Proof.
  split; intros H.
  - destruct (H payload_a12 _ _ used_world eq_refl eq_refl)
      as [props [w' [trw [fuel [tr [Hp [Hw Hr]]]]]]].
    + vm_compute. split; discriminate.
    + reflexivity.
    + exact medium_ready_used.
    + injection Hp as <-.
      apply (nfcRead_more_fuel JSON_parse_ref 5) in Hr.
      pose proof (proj1 (proj2 stale_blocks_are_read) JSON_parse_ref fuel) as He.
      unfold write_write_read in He. fold used_world in He.
      replace (nfcWrite (payload_x 8) (world_with (blank_tag 49)))
        with (fst (fst (nfcWrite (payload_x 8) (world_with (blank_tag 49)))),
              used_world,
              snd (nfcWrite (payload_x 8) (world_with (blank_tag 49))))
        in He by reflexivity.
      cbv beta iota in He. rewrite Hw in He.
      rewrite (proj2 (proj2 stale_blocks_are_read)) in He.
      rewrite Hr in He. discriminate.
  - destruct (H payload_e_acute _ _ eq_refl eq_refl)
      as [props [w' [trw [fuel [tr [Hp [Hw Hr]]]]]]].
    + vm_compute. split; discriminate.
    + injection Hp as <-.
      apply (nfcRead_more_fuel JSON_parse_ref 2) in Hr.
      pose proof (proj1 (proj2 e_acute_is_not_read_back) JSON_parse_ref fuel) as He.
      unfold write_then_read in He. rewrite Hw in He.
      rewrite Hr in He. discriminate.
Qed.

(** C10, at the failing input: a reader that answers every read of a
    block with the four non-null bytes C3 A9 C3 A9.  The text of such a
    chunk has two code units, which line 121 compares with the block
    size: the loop returns after the one read of block 4, however much
    fuel it is given, and the route answers. *)
Theorem nonnull_block_ends_loop :
  let w := world_with (endless_tag [0xC3; 0xA9; 0xC3; 0xA9]) in
  (forall b, reader_read 0 b blockSize w = Some [0xC3; 0xA9; 0xC3; 0xA9])
  /\ nonnull_bytes [0xC3; 0xA9; 0xC3; 0xA9] = 4%nat
  /\ chunkData_of [0xC3; 0xA9; 0xC3; 0xA9] = [233; 233]
  /\ (forall fuel,
        read_loop (S fuel) 0 w 0 []
        = Some ([0xC3; 0xA9; 0xC3; 0xA9], [IORead 0 4 4]))
  /\ (forall parse fuel,
        nfcRead parse (S fuel) w = Some (res_read_error, [IORead 0 4 4])).
Proof.
  cbv zeta. split; [intros b; reflexivity|].
  split; [reflexivity|]. split; [reflexivity|].
  split; [intros fuel; reflexivity|intros parse fuel; reflexivity].
Qed.

(* ================================================================== *)
(** ** The statements at concrete tags and payloads *)

Example toString_two_byte : toString_utf8 [0xC3; 0xA9; 0xC3; 0xA9] = [233; 233].
Proof. reflexivity. Qed.

Example toString_cut_short : toString_utf8 [0x22; 0x3A; 0x22; 0xC3] = [0x22; 0x3A; 0x22; 0xFFFD].
Proof. reflexivity. Qed.

Example toString_astral : toString_utf8 [0xF0; 0x9F; 0x98; 0x80] = [0xD83D; 0xDE00].
Proof. reflexivity. Qed.

Example Buffer_from_astral : Buffer_from [0xD83D; 0xDE00] = [0xF0; 0x9F; 0x98; 0x80].
Proof. reflexivity. Qed.

Example trim_spaces : trim (str "  {a} ") = str "{a}".
Proof. reflexivity. Qed.

(** A reader without a card is answered with 404 before any read. *)
Example read_without_card parse fuel :
  nfcRead parse fuel world_without_card = Some (res_no_card, []).
Proof. reflexivity. Qed.

(** The scenario of the specification: [{"a":1}] has 7 bytes, is padded to
    8 and written as two blocks at 4 and 5, and is read back. *)
Example scenario_a1 :
  JSON_stringify payload_a1 = Some [123; 34; 97; 34; 58; 49; 125]
  /\ nfcWrite payload_a1 (world_with (blank_tag 49))
     = (res_written,
        snd (fst (nfcWrite payload_a1 (world_with (blank_tag 49)))),
        [IOWrite 0 4 [123; 34; 97; 34]; IOWrite 0 5 [58; 49; 125; 0]])
  /\ write_then_read JSON_parse_ref payload_a1 5
     = (res_written, Some (res_data payload_a1, [IORead 0 4 4; IORead 0 5 4])).
Proof. repeat split. Qed.

Lemma size_boundary_witness :
  (exists r w' tr,
     nfcWrite_with JSON_stringify (payload_x 172) (world_with (blank_tag 49))
     = (r, w', IOWrite 0 4 [123; 34; 97; 34] :: tr)
     /\ (r = res_written \/ r = res_write_error))
  /\ nfcWrite_with JSON_stringify (payload_x 173) (world_with (blank_tag 49))
     = (res_too_large, world_with (blank_tag 49), []).
Proof.
  split.
  - refine (proj1 (proj1 (size_boundary JSON_stringify (payload_x 172) _ _
                            (world_with (blank_tag 49)) 0%nat
                            eq_refl eq_refl eq_refl) _)).
    vm_compute. split; discriminate.
  - refine (proj2 (size_boundary JSON_stringify (payload_x 173) _ _
                     (world_with (blank_tag 49)) 0%nat
                     eq_refl eq_refl eq_refl) _).
    vm_compute. reflexivity.
Defined.

Lemma short_block_ends_loop_witness :
  read_loop 9 0 (world_with tag_xy) 0 []
  = Some ([123; 34; 97; 34; 58; 34; 120; 121; 34; 125],
          [IORead 0 4 4; IORead 0 5 4; IORead 0 6 4])
  /\ ~ In (IORead 0 7 4) (reads 0 0 3).
Proof.
  destruct (short_block_ends_loop JSON_parse_ref (world_with tag_xy) 0%nat
              "NTAG215"%string 2%nat [34; 125; 0; 0] 9%nat
              eq_refl eq_refl) as [Hrun [_ [_ Hnot]]].
  - intros j Hj. destruct j as [|[|j]]; [reflexivity|reflexivity|lia].
  - reflexivity.
  - right. vm_compute. lia.
  - lia.
  - split; [exact Hrun|exact Hnot].
Defined.

Lemma read_failure_ends_loop_witness :
  nfcRead JSON_parse_ref 9 (world_with tag_a12)
  = Some (res_data (JObject [(str "a", JNumber 12)]),
          [IORead 0 4 4; IORead 0 5 4; IORead 0 6 4]).
Proof.
  refine (proj2 (read_failure_ends_loop JSON_parse_ref (world_with tag_a12)
                   0%nat "NTAG215"%string 2%nat 9%nat
                   eq_refl eq_refl _ eq_refl _) _ eq_refl eq_refl).
  - intros j Hj. destruct j as [|[|j]]; [reflexivity|reflexivity|lia].
  - lia.
Defined.

Lemma malformed_framing_witness :
  reconstruct [104; 101; 108; 108; 111] = str "hello"
  /\ nfcRead JSON_parse_ref 9 (world_with tag_hello)
     = Some (res_read_error, [IORead 0 4 4; IORead 0 5 4]).
Proof.
  split; [reflexivity|].
  exact (proj2 (proj2 (malformed_framing JSON_parse_ref 9 (world_with tag_hello)
                         0%nat "NTAG215"%string
                         [104; 101; 108; 108; 111]
                         [IORead 0 4 4; IORead 0 5 4]
                         eq_refl eq_refl eq_refl eq_refl))).
Defined.

Lemma no_reader_available_witness :
  nfcWrite payload_a1 world_without_reader
  = (res_no_reader, world_without_reader, [])
  /\ nfcRead JSON_parse_ref 9 world_without_reader = Some (res_no_reader, []).
Proof.
  destruct (no_reader_available JSON_parse_ref world_without_reader eq_refl)
    as [Hw [_ Hr]].
  split; [apply Hw; reflexivity|apply Hr].
Defined.

Lemma no_card_present_witness :
  nfcRead JSON_parse_ref 9
    (run_events [EvReader 0 "ACR122U"; EvCard 0 "NTAG215"%string tag_a12; EvCardOff 0]
       world_without_reader)
  = Some (res_no_card, []).
Proof.
  exact (no_card_present JSON_parse_ref world_without_reader
           [EvReader 0 "ACR122U"; EvCard 0 "NTAG215"%string tag_a12; EvCardOff 0]
           0%nat eq_refl eq_refl 9%nat).
Defined.

Lemma missing_data_unreachable_witness :
  exists w', nfcWrite (JObject []) (world_with (blank_tag 49))
             = (res_written, w', [IOWrite 0 4 [123; 125; 0; 0]]).
Proof.
  exact (proj2 (proj2 (proj2 missing_data_unreachable))
           (world_with (blank_tag 49)) 0%nat eq_refl eq_refl).
Defined.

Lemma read_loop_termination_witness :
  (forall fuel, read_loop fuel 0 (world_with (endless_tag [120; 120; 120; 120])) 0 [] = None)
  /\ (forall fuel,
        nfcRead JSON_parse_ref fuel (world_with (endless_tag [120; 120; 120; 120])) = None).
Proof.
  destruct (proj2 (read_loop_termination JSON_parse_ref
                     (world_with (endless_tag [120; 120; 120; 120])) 0%nat))
    as [Hloop Hroute].
  - intros b Hb. exists [120; 120; 120; 120]. split; [reflexivity|].
    left. split; [reflexivity|]. repeat constructor; lia.
  - split; [exact Hloop|]. apply Hroute; reflexivity.
Defined.

Lemma roundtrip_ascii_witness :
  exists w' tr,
    nfcWrite_with JSON_stringify (payload_x 4) (world_with (blank_tag 49))
    = (res_written, w',
       [IOWrite 0 4 [123; 34; 97; 34]; IOWrite 0 5 [58; 34; 120; 120];
        IOWrite 0 6 [120; 120; 34; 125]])
    /\ nfcRead JSON_parse_ref 9 w' = Some (res_data (payload_x 4), tr).
Proof.
  destruct (roundtrip_ascii JSON_parse_ref JSON_stringify (payload_x 4) _ _
              (world_with (blank_tag 49)) 0%nat "NTAG215"%string 9%nat
              eq_refl eq_refl) as [w' [tr [Hw [_ [_ Hr]]]]].
  - apply ascii_textb_ok. reflexivity.
  - reflexivity.
  - vm_compute. discriminate.
  - reflexivity.
  - reflexivity.
  - intros b Hb. change (Z.of_nat (iterations _)) with 3 in Hb.
    cbn [world_with heap tag blank_tag dev_writable dev_readable].
    split; apply andb_true_iff; split;
      try (apply Z.leb_le; lia); apply Z.ltb_lt; lia.
  - intros _. right. repeat constructor.
  - vm_compute. lia.
  - exists w', tr. split; [exact Hw|]. apply Hr.
    apply JSON_parse_ref_stringify; reflexivity.
Defined.

(* ================================================================== *)
(** ** Further properties of the write route *)

Lemma reader_write_frame rid block data w w' :
  reader_write rid block data w = Some w' ->
  reader_name (heap w' rid) = reader_name (heap w rid)
  /\ (forall rid', rid' <> rid -> heap w' rid' = heap w rid').
Proof.
  unfold reader_write.
  destruct (dev_writable (tag (heap w rid)) block); [|discriminate].
  intros H. injection H as <-. cbn [heap]. unfold update.
  rewrite Nat.eqb_refl. split; [reflexivity|].
  intros rid' Hne. destruct (Nat.eqb_spec rid' rid); [contradiction|reflexivity].
Qed.

(** The write loop in full: with [k] the number of leading blocks that
    take a write, the loop writes them, stops at the first rejection if
    there is one, and touches nothing but the memory of those [k] blocks
    of the reader it writes to. *)
Lemma write_loop_upto n :
  forall k i buffer rid w,
    (k <= n)%nat ->
    (forall j, i <= j < i + Z.of_nat k ->
               dev_writable (tag (heap w rid)) (4 + j) = true) ->
    ((k < n)%nat ->
     dev_writable (tag (heap w rid)) (4 + (i + Z.of_nat k)) = false) ->
    exists w',
      write_loop n i buffer rid w
      = ((if (k <? n)%nat then Some TransferError else None), w',
         map (fun j => IOWrite rid (4 + j) (chunk_at buffer j))
             (zrange i (if (k <? n)%nat then S k else k)))
      /\ currentReader w' = currentReader w
      /\ (forall rid', rid' <> rid -> heap w' rid' = heap w rid')
      /\ reader_name (heap w' rid) = reader_name (heap w rid)
      /\ card (heap w' rid) = card (heap w rid)
      /\ dev_readable (tag (heap w' rid)) = dev_readable (tag (heap w rid))
      /\ dev_writable (tag (heap w' rid)) = dev_writable (tag (heap w rid))
      /\ (forall b, dev_mem (tag (heap w' rid)) b
                    = if (4 + i <=? b) && (b <? 4 + i + Z.of_nat k)
                      then chunk_at buffer (b - 4)
                      else dev_mem (tag (heap w rid)) b).
Proof.
  induction n as [|n IH]; intros k i buffer rid w Hk Hw Hstop.
  - assert (k = 0%nat) by lia. subst k. exists w. cbn [Nat.ltb Nat.leb].
    repeat split. intros b.
    destruct (Z.leb_spec (4 + i) b), (Z.ltb_spec b (4 + i + Z.of_nat 0));
      cbn [andb]; try reflexivity; lia.
  - rewrite write_loop_unfold. destruct k as [|k].
    + specialize (Hstop ltac:(lia)). replace (i + Z.of_nat 0) with i in Hstop by lia.
      unfold reader_write. rewrite Hstop. exists w.
      change (0 <? S n)%nat with true. cbn iota. cbn [zrange map].
      repeat split. intros b.
      destruct (Z.leb_spec (4 + i) b), (Z.ltb_spec b (4 + i + Z.of_nat 0));
        cbn [andb]; try reflexivity; lia.
    + destruct (reader_write rid (4 + i) (chunk_at buffer i) w) as [w1|] eqn:Hwr.
      * destruct (reader_write_spec _ _ _ _ _ Hwr) as [Hc [Hcard [Hrd [Hwt Hmem]]]].
        destruct (reader_write_frame _ _ _ _ _ Hwr) as [Hname Hother].
        destruct (IH k (i + 1) buffer rid w1)
          as [w' [Hrun [Hc' [Hother' [Hname' [Hcard' [Hrd' [Hwt' Hmem']]]]]]]].
        { lia. }
        { intros j Hj. rewrite Hwt. apply Hw. lia. }
        { intros Hlt. rewrite Hwt.
          replace (i + 1 + Z.of_nat k) with (i + Z.of_nat (S k)) by lia.
          apply Hstop. lia. }
        exists w'. rewrite Hrun.
        change (S k <? S n)%nat with (k <? n)%nat.
        split.
        { destruct (k <? n)%nat; reflexivity. }
        split; [congruence|]. split.
        { intros rid' Hne. rewrite Hother' by exact Hne. apply Hother. exact Hne. }
        split; [congruence|]. split; [congruence|]. split; [congruence|].
        split; [congruence|].
        intros b. rewrite Hmem', Hmem. unfold updateZ.
        destruct (Z.leb_spec (4 + (i + 1)) b), (Z.ltb_spec b (4 + (i + 1) + Z.of_nat k)),
                 (Z.leb_spec (4 + i) b), (Z.ltb_spec b (4 + i + Z.of_nat (S k)));
          cbn [andb]; try reflexivity; try lia;
          destruct (Z.eqb_spec b (4 + i)); try reflexivity; try lia.
        subst b. f_equal. lia.
      * unfold reader_write in Hwr. rewrite (Hw i) in Hwr by lia. discriminate.
Qed.

(** Every run of the loop has such a [k]. *)
Lemma leading_writable n :
  forall i (wr : Z -> bool),
  exists k, (k <= n)%nat
    /\ (forall j, i <= j < i + Z.of_nat k -> wr (4 + j) = true)
    /\ ((k < n)%nat -> wr (4 + (i + Z.of_nat k)) = false).
Proof.
  induction n as [|n IH]; intros i wr.
  - exists 0%nat. split; [lia|]. split; intros; lia.
  - destruct (wr (4 + i)) eqn:Hi.
    + destruct (IH (i + 1) wr) as [k [Hk [Hall Hstop]]].
      exists (S k). split; [lia|]. split.
      * intros j Hj. destruct (Z.eq_dec j i) as [->|Hne]; [exact Hi|].
        apply Hall. lia.
      * intros Hlt. replace (i + Z.of_nat (S k)) with (i + 1 + Z.of_nat k) by lia.
        apply Hstop. lia.
    + exists 0%nat. split; [lia|]. split; [intros; lia|].
      intros _. replace (i + Z.of_nat 0) with i by lia. exact Hi.
Qed.

Lemma utf8_of_code_point_length cp :
  (1 <= length (utf8_of_code_point cp))%nat
  /\ (0x10000 <= cp -> length (utf8_of_code_point cp) = 4%nat).
Proof.
  unfold utf8_of_code_point.
  destruct (Z.ltb_spec cp 0x80); [cbn; split; [lia|intros; lia]|].
  destruct (Z.ltb_spec cp 0x800); [cbn; split; [lia|intros; lia]|].
  destruct (Z.ltb_spec cp 0x10000); cbn; split; intros; lia.
Qed.

(** A string has at most as many code units as UTF-8 bytes. *)
Lemma length_le_byteLength s : Z.of_nat (length s) <= Buffer_byteLength s.
Proof.
  unfold Buffer_byteLength, Buffer_from.
  assert (H : forall n t, (length t <= n)%nat ->
                          (length t <= length (concat (utf8_chars t)))%nat).
  { induction n as [|n IH]; intros t Ht.
    - destruct t; [cbn; lia|cbn in Ht; lia].
    - destruct t as [|c rest]; [cbn; lia|].
      cbn [length] in Ht. cbn [utf8_chars].
      destruct (is_high_surrogate c) eqn:Hhigh.
      + destruct rest as [|d rest']; [cbn; lia|].
        destruct (is_low_surrogate d) eqn:Hlow.
        * cbn [concat length] in *. rewrite length_app.
          specialize (IH rest' ltac:(lia)).
          unfold is_high_surrogate in Hhigh. apply andb_true_iff in Hhigh.
          destruct Hhigh as [Hc _]. apply Z.leb_le in Hc.
          unfold is_low_surrogate in Hlow. apply andb_true_iff in Hlow.
          destruct Hlow as [Hd _]. apply Z.leb_le in Hd.
          pose proof (Z.shiftl_nonneg (c - 0xD800) 10) as Hs.
          destruct (utf8_of_code_point_length
                      (0x10000 + Z.shiftl (c - 0xD800) 10 + (d - 0xDC00)))
            as [_ H4].
          rewrite H4 by lia. lia.
        * specialize (IH (d :: rest') ltac:(cbn [length] in *; lia)).
          cbn [concat length] in *. rewrite length_app. cbn [utf8_replacement length].
          lia.
      + specialize (IH rest ltac:(lia)).
        destruct (is_low_surrogate c).
        * cbn [concat length]. rewrite length_app. cbn [utf8_replacement length]. lia.
        * cbn [concat length]. rewrite length_app.
          destruct (utf8_of_code_point_length c) as [H1 _]. lia. }
  specialize (H (length s) s (le_n _)). lia.
Qed.

(** A payload that passes the size check needs at most 45 blocks. *)
Lemma iterations_le_45 s :
  Buffer_byteLength s <= 180 -> (iterations (encode_buffer s) <= 45)%nat.
Proof.
  intros Hle. pose proof (length_le_byteLength s) as Hlen.
  pose proof (iterations_encode_buffer s) as Hit.
  pose proof (Math_ceil_div_bounds (Z.of_nat (length s)) ltac:(lia)) as Hb.
  unfold blockSize in *. lia.
Qed.

Lemma chunk_at_length buffer j :
  0 <= j -> (j + 1) * 4 <= Z.of_nat (length buffer) ->
  length (chunk_at buffer j) = 4%nat.
Proof.
  intros Hj Hlen. unfold chunk_at, Buffer_slice, blockSize.
  rewrite length_firstn, length_skipn. lia.
Qed.

(** The write route once the reader is known and the payload passes the
    size check, with [k] the number of leading blocks that take a write;
    whatever the serializer. *)
Lemma nfcWrite_with_run stringify body props s w rid k :
  rest_properties body = Some props ->
  stringify (JObject props) = Some s ->
  currentReader w = Some rid ->
  Buffer_byteLength s <= 180 ->
  (k <= iterations (encode_buffer s))%nat ->
  (forall j, 0 <= j < Z.of_nat k ->
             dev_writable (tag (heap w rid)) (4 + j) = true) ->
  ((k < iterations (encode_buffer s))%nat ->
   dev_writable (tag (heap w rid)) (4 + Z.of_nat k) = false) ->
  exists w',
    nfcWrite_with stringify body w
    = ((if (k <? iterations (encode_buffer s))%nat
        then res_write_error else res_written), w',
       map (fun j => IOWrite rid (4 + j) (chunk_at (encode_buffer s) j))
           (zrange 0 (if (k <? iterations (encode_buffer s))%nat
                      then S k else k)))
    /\ currentReader w' = currentReader w
    /\ (forall rid', rid' <> rid -> heap w' rid' = heap w rid')
    /\ reader_name (heap w' rid) = reader_name (heap w rid)
    /\ card (heap w' rid) = card (heap w rid)
    /\ dev_readable (tag (heap w' rid)) = dev_readable (tag (heap w rid))
    /\ dev_writable (tag (heap w' rid)) = dev_writable (tag (heap w rid))
    /\ (forall b, dev_mem (tag (heap w' rid)) b
                  = if (4 <=? b) && (b <? 4 + Z.of_nat k)
                    then chunk_at (encode_buffer s) (b - 4)
                    else dev_mem (tag (heap w rid)) b).
Proof.
  intros Hb Hs Hr Hle Hk Hw Hstop.
  destruct (write_loop_upto (iterations (encode_buffer s)) k 0
              (encode_buffer s) rid w Hk)
    as [w' [Hrun Hrest]].
  { intros j Hj. apply Hw. lia. }
  { intros Hlt. rewrite Z.add_0_l. apply Hstop. exact Hlt. }
  exists w'. split; [|exact Hrest].
  unfold nfcWrite_with.
  rewrite (nfcWrite_serialized stringify body props s w rid Hb Hs Hr).
  destruct (Z.gtb_spec (Buffer_byteLength s) 180); [lia|].
  rewrite Hrun. destruct (k <? iterations (encode_buffer s))%nat; reflexivity.
Qed.

Lemma nfcWrite_run body props s w rid k :
  rest_properties body = Some props ->
  JSON_stringify (JObject props) = Some s ->
  currentReader w = Some rid ->
  Buffer_byteLength s <= 180 ->
  (k <= iterations (encode_buffer s))%nat ->
  (forall j, 0 <= j < Z.of_nat k ->
             dev_writable (tag (heap w rid)) (4 + j) = true) ->
  ((k < iterations (encode_buffer s))%nat ->
   dev_writable (tag (heap w rid)) (4 + Z.of_nat k) = false) ->
  exists w',
    nfcWrite body w
    = ((if (k <? iterations (encode_buffer s))%nat
        then res_write_error else res_written), w',
       map (fun j => IOWrite rid (4 + j) (chunk_at (encode_buffer s) j))
           (zrange 0 (if (k <? iterations (encode_buffer s))%nat
                      then S k else k)))
    /\ currentReader w' = currentReader w
    /\ (forall rid', rid' <> rid -> heap w' rid' = heap w rid')
    /\ reader_name (heap w' rid) = reader_name (heap w rid)
    /\ card (heap w' rid) = card (heap w rid)
    /\ dev_readable (tag (heap w' rid)) = dev_readable (tag (heap w rid))
    /\ dev_writable (tag (heap w' rid)) = dev_writable (tag (heap w rid))
    /\ (forall b, dev_mem (tag (heap w' rid)) b
                  = if (4 <=? b) && (b <? 4 + Z.of_nat k)
                    then chunk_at (encode_buffer s) (b - 4)
                    else dev_mem (tag (heap w rid)) b).
Proof. exact (nfcWrite_with_run JSON_stringify body props s w rid k). Qed.

(** A success answer has these causes. *)
Lemma nfcWrite_with_success_inv stringify body w :
  fst (fst (nfcWrite_with stringify body w)) = res_written ->
  exists props s rid,
    rest_properties body = Some props
    /\ stringify (JObject props) = Some s
    /\ currentReader w = Some rid
    /\ Buffer_byteLength s <= 180
    /\ forall b, 4 <= b < 4 + Z.of_nat (iterations (encode_buffer s)) ->
                 dev_writable (tag (heap w rid)) b = true.
Proof.
  intros Hok.
  destruct (rest_properties body) as [props|] eqn:Hb;
    [|unfold nfcWrite_with, nfcWrite_try_with in Hok; rewrite Hb in Hok;
      discriminate].
  destruct (currentReader w) as [rid|] eqn:Hr;
    [|unfold nfcWrite_with, nfcWrite_try_with in Hok; rewrite Hb in Hok;
      cbn [ToBoolean negb] in Hok; rewrite Hr in Hok; discriminate].
  destruct (stringify (JObject props)) as [s|] eqn:Hs;
    [|unfold nfcWrite_with, nfcWrite_try_with in Hok; rewrite Hb in Hok;
      cbn [ToBoolean negb] in Hok; rewrite Hr, Hs in Hok; discriminate].
  destruct (Z.gtb_spec (Buffer_byteLength s) 180) as [Hgt|Hle].
  - unfold nfcWrite_with in Hok.
    rewrite (nfcWrite_serialized stringify body props s w rid Hb Hs Hr) in Hok.
    destruct (Z.gtb_spec (Buffer_byteLength s) 180); [discriminate|lia].
  - exists props, s, rid.
    repeat (split; [first [reflexivity|assumption]|]).
    destruct (leading_writable (iterations (encode_buffer s)) 0
                (dev_writable (tag (heap w rid))))
      as [k [Hk [Hall Hstop]]].
    destruct (nfcWrite_with_run stringify body props s w rid k Hb Hs Hr Hle Hk)
      as [w' [Hrun _]].
    { intros j Hj. apply Hall. lia. }
    { intros Hlt. rewrite <- (Z.add_0_l (Z.of_nat k)). apply Hstop. exact Hlt. }
    rewrite Hrun in Hok. cbn [fst] in Hok.
    destruct (Nat.ltb_spec k (iterations (encode_buffer s))); [discriminate|].
    intros b Hrange. replace b with (4 + (b - 4)) by lia. apply Hall. lia.
Qed.

Lemma nfcWrite_success_inv body w :
  fst (fst (nfcWrite body w)) = res_written ->
  exists props s rid,
    rest_properties body = Some props
    /\ JSON_stringify (JObject props) = Some s
    /\ currentReader w = Some rid
    /\ Buffer_byteLength s <= 180
    /\ forall b, 4 <= b < 4 + Z.of_nat (iterations (encode_buffer s)) ->
                 dev_writable (tag (heap w rid)) b = true.
Proof. exact (nfcWrite_with_success_inv JSON_stringify body w). Qed.

(** X1.  Whatever [JSON.stringify] is, the write route answers with
    success exactly when the body is not null or undefined, a reader is
    current, the payload is serialized to a text of at most 180 bytes and
    every block the buffer needs takes a write. *)
Theorem write_succeeds_iff stringify body w :
  fst (fst (nfcWrite_with stringify body w)) = res_written
  <-> exists props s rid,
        rest_properties body = Some props
        /\ stringify (JObject props) = Some s
        /\ currentReader w = Some rid
        /\ Buffer_byteLength s <= 180
        /\ forall b, 4 <= b < 4 + Z.of_nat (iterations (encode_buffer s)) ->
                     dev_writable (tag (heap w rid)) b = true.
Proof.
  split; [apply nfcWrite_with_success_inv|].
  intros [props [s [rid [Hb [Hs [Hr [Hle Hall]]]]]]].
  destruct (nfcWrite_with_run stringify body props s w rid
              (iterations (encode_buffer s)) Hb Hs Hr Hle (le_n _))
    as [w' [Hrun _]].
  - intros j Hj. apply Hall. lia.
  - intros Hlt. lia.
  - rewrite Hrun, Nat.ltb_irrefl. reflexivity.
Qed.

(** X2.  No rollback, whatever text [s] the payload is serialized to.
    When the first [k] blocks take their writes and block [4 + k] rejects
    its write, the route answers with the write error after [k + 1]
    writes: later chunks are not attempted, the [k] chunks written stay on
    the tag and every other block is as it was. *)
Theorem write_stops_at_rejection stringify body props s w rid k :
  rest_properties body = Some props ->
  stringify (JObject props) = Some s ->
  currentReader w = Some rid ->
  Buffer_byteLength s <= 180 ->
  (k < iterations (encode_buffer s))%nat ->
  (forall j, 0 <= j < Z.of_nat k ->
             dev_writable (tag (heap w rid)) (4 + j) = true) ->
  dev_writable (tag (heap w rid)) (4 + Z.of_nat k) = false ->
  exists w',
    nfcWrite_with stringify body w
    = (res_write_error, w',
       map (fun j => IOWrite rid (4 + j) (chunk_at (encode_buffer s) j))
           (zrange 0 (S k)))
    /\ (forall j, 0 <= j < Z.of_nat k ->
          dev_mem (tag (heap w' rid)) (4 + j) = chunk_at (encode_buffer s) j)
    /\ (forall b, ~ (4 <= b < 4 + Z.of_nat k) ->
          dev_mem (tag (heap w' rid)) b = dev_mem (tag (heap w rid)) b).
Proof.
  intros Hb Hs Hr Hle Hk Hall Hstop.
  destruct (nfcWrite_with_run stringify body props s w rid k Hb Hs Hr Hle
              ltac:(lia) Hall)
    as [w' [Hrun [_ [_ [_ [_ [_ [_ Hmem]]]]]]]].
  { intros _. exact Hstop. }
  apply Nat.ltb_lt in Hk. rewrite Hk in Hrun.
  exists w'. split; [exact Hrun|]. split.
  - intros j Hj. rewrite Hmem.
    destruct (Z.leb_spec 4 (4 + j)); [|lia].
    destruct (Z.ltb_spec (4 + j) (4 + Z.of_nat k)); [|lia].
    cbn [andb]. f_equal. lia.
  - intros b Hout. rewrite Hmem.
    destruct (Z.leb_spec 4 b), (Z.ltb_spec b (4 + Z.of_nat k));
      cbn [andb]; try reflexivity; lia.
Qed.

Lemma firstn_plus {A} (l : list A) a b :
  firstn (a + b) l = firstn a l ++ firstn b (skipn a l).
Proof.
  revert l. induction a as [|a IH]; intros l; [reflexivity|].
  destruct l as [|x l]; [cbn; rewrite firstn_nil; reflexivity|].
  cbn [Nat.add firstn skipn app]. rewrite IH. reflexivity.
Qed.

Lemma concat_blocks_from n :
  forall a (l : list Z),
    concat (map (fun j => firstn 4 (skipn (4 * j) l)) (seq a n))
    = firstn (4 * n) (skipn (4 * a) l).
Proof.
  induction n as [|n IH]; intros a l; [reflexivity|].
  cbn [seq map concat]. rewrite IH.
  replace (4 * S n)%nat with (4 + 4 * n)%nat by lia.
  rewrite firstn_plus, skipn_skipn.
  replace (4 + 4 * a)%nat with (4 * S a)%nat by lia. reflexivity.
Qed.

(** The blocks of a buffer of [n] blocks, put together, are the buffer. *)
Lemma concat_split_blocks n (l : list Z) :
  length l = (4 * n)%nat -> concat (split_blocks n l) = l.
Proof.
  intros Hl. unfold split_blocks. rewrite concat_blocks_from.
  cbn [Nat.mul skipn]. apply firstn_all2. lia.
Qed.

Lemma zrange_seq n : forall a, zrange (Z.of_nat a) n = map Z.of_nat (seq a n).
Proof.
  induction n as [|n IH]; intros a; [reflexivity|].
  cbn [zrange seq map]. f_equal.
  replace (Z.of_nat a + 1) with (Z.of_nat (S a)) by lia. apply IH.
Qed.

Lemma encode_buffer_blocks s :
  length (encode_buffer s) = (4 * iterations (encode_buffer s))%nat.
Proof.
  pose proof (encode_buffer_length s) as H1.
  pose proof (iterations_encode_buffer s) as H2.
  unfold blockSize in *. lia.
Qed.

(** X3.  What a success answer guarantees, whatever [JSON.stringify] is:
    the payload was serialized to a text [s], the calls made are the
    writes of all the chunks of its buffer, in order from block 4, and
    afterwards block [4 + j] of the tag holds chunk [j] of the buffer, so
    the blocks in order hold the buffer. *)
Theorem write_success_stores_chunks stringify body w w' tr :
  nfcWrite_with stringify body w = (res_written, w', tr) ->
  exists props s rid,
    rest_properties body = Some props
    /\ stringify (JObject props) = Some s
    /\ currentReader w = Some rid
    /\ tr = writes rid (encode_buffer s)
    /\ (forall j, 0 <= j < Z.of_nat (iterations (encode_buffer s)) ->
          dev_mem (tag (heap w' rid)) (4 + j) = chunk_at (encode_buffer s) j)
    /\ concat (map (fun j => dev_mem (tag (heap w' rid)) (4 + j))
                  (zrange 0 (iterations (encode_buffer s))))
       = encode_buffer s.
Proof.
  intros Hok.
  destruct (nfcWrite_with_success_inv stringify body w)
    as [props [s [rid [Hb [Hs [Hr [Hle Hall]]]]]]].
  { rewrite Hok. reflexivity. }
  destruct (nfcWrite_with_run stringify body props s w rid
              (iterations (encode_buffer s)) Hb Hs Hr Hle (le_n _))
    as [w1 [Hrun [_ [_ [_ [_ [_ [_ Hmem]]]]]]]].
  { intros j Hj. apply Hall. lia. }
  { intros Hlt. lia. }
  rewrite Nat.ltb_irrefl, Hok in Hrun. injection Hrun as -> ->.
  assert (Hblocks : forall j, 0 <= j < Z.of_nat (iterations (encode_buffer s)) ->
            dev_mem (tag (heap w1 rid)) (4 + j) = chunk_at (encode_buffer s) j).
  { intros j Hj. rewrite Hmem.
    destruct (Z.leb_spec 4 (4 + j)); [|lia].
    destruct (Z.ltb_spec (4 + j) (4 + Z.of_nat (iterations (encode_buffer s)))); [|lia].
    cbn [andb]. f_equal. lia. }
  exists props, s, rid. repeat (split; [first [reflexivity|assumption]|]).
  rewrite (map_ext_in _ (chunk_at (encode_buffer s))).
  - change 0 with (Z.of_nat 0). rewrite zrange_seq, map_map.
    rewrite (map_ext _ (fun j => firstn 4 (skipn (4 * j) (encode_buffer s))))
      by (intros j; apply chunk_at_nat).
    apply (concat_split_blocks _ _ (encode_buffer_blocks s)).
  - intros j Hj. apply zrange_In in Hj. apply Hblocks. lia.
Qed.

(** X4.  What the write route never does, whatever the body and the
    world: it leaves [currentReader], every reader's name, card and tag
    permissions as they were; it changes no block outside 4 .. 48 and no
    block of a reader other than the current one; and every call it makes
    is a write of exactly four bytes to a block in 4 .. 48 of the current
    reader. *)
Theorem write_frame body w :
  let '(_, w', tr) := nfcWrite body w in
  currentReader w' = currentReader w
  /\ (forall rid,
        reader_name (heap w' rid) = reader_name (heap w rid)
        /\ card (heap w' rid) = card (heap w rid)
        /\ dev_readable (tag (heap w' rid)) = dev_readable (tag (heap w rid))
        /\ dev_writable (tag (heap w' rid)) = dev_writable (tag (heap w rid)))
  /\ (forall rid b,
        dev_mem (tag (heap w' rid)) b <> dev_mem (tag (heap w rid)) b ->
        currentReader w = Some rid /\ 4 <= b < 49)
  /\ (forall io, In io tr ->
        exists rid b data,
          io = IOWrite rid b data /\ currentReader w = Some rid
          /\ 4 <= b < 49 /\ length data = 4%nat).
Proof.
  destruct (rest_properties body) as [props|] eqn:Hb;
    [|unfold nfcWrite, nfcWrite_with, nfcWrite_try, nfcWrite_try_with; rewrite Hb; cbn;
      repeat split; intros; try contradiction; congruence].
  destruct (stringify_object_framed props) as [s [Hs _]].
  destruct (currentReader w) as [rid|] eqn:Hr;
    [|unfold nfcWrite, nfcWrite_with, nfcWrite_try, nfcWrite_try_with; rewrite Hb; cbn [ToBoolean negb];
      rewrite Hr; cbn; repeat split; intros; try contradiction; congruence].
  destruct (Z.gtb_spec (Buffer_byteLength s) 180) as [Hgt|Hle].
  { unfold nfcWrite, nfcWrite_with.
    rewrite (nfcWrite_serialized JSON_stringify body props s w rid Hb Hs Hr).
    destruct (Z.gtb_spec (Buffer_byteLength s) 180); [|lia].
    cbn. repeat split; intros; try contradiction; congruence. }
  destruct (leading_writable (iterations (encode_buffer s)) 0
              (dev_writable (tag (heap w rid))))
    as [k [Hk [Hall Hstop]]].
  destruct (nfcWrite_run body props s w rid k Hb Hs Hr Hle Hk)
    as [w' [Hrun [Hcur [Hother [Hname [Hcard [Hrd [Hwt Hmem]]]]]]]].
  { intros j Hj. apply Hall. lia. }
  { intros Hlt. rewrite <- (Z.add_0_l (Z.of_nat k)). apply Hstop. exact Hlt. }
  rewrite Hrun. pose proof (iterations_le_45 s Hle) as H45.
  split; [congruence|]. split; [|split].
  - intros rid'. destruct (Nat.eq_dec rid' rid) as [->|Hne]; [auto|].
    rewrite (Hother rid' Hne). auto.
  - intros rid' b Hdiff. destruct (Nat.eq_dec rid' rid) as [->|Hne].
    + split; [reflexivity|]. rewrite Hmem in Hdiff.
      destruct (Z.leb_spec 4 b), (Z.ltb_spec b (4 + Z.of_nat k));
        cbn [andb] in Hdiff; try contradiction; lia.
    + rewrite (Hother rid' Hne) in Hdiff. contradiction.
  - intros io Hin. apply in_map_iff in Hin. destruct Hin as [j [<- Hj]].
    apply zrange_In in Hj.
    assert (Hjn : 0 <= j < Z.of_nat (iterations (encode_buffer s))).
    { destruct (Nat.ltb_spec k (iterations (encode_buffer s))); lia. }
    exists rid, (4 + j), (chunk_at (encode_buffer s) j).
    split; [reflexivity|]. split; [reflexivity|]. split; [lia|].
    apply chunk_at_length; [lia|].
    pose proof (encode_buffer_blocks s). lia.
Qed.

(** X5.  Writing the same body again after a success succeeds again with
    the same calls and leaves every block of every tag as the first write
    left it. *)
Theorem write_twice body w w1 tr :
  nfcWrite body w = (res_written, w1, tr) ->
  exists w2,
    nfcWrite body w1 = (res_written, w2, tr)
    /\ forall rid b, dev_mem (tag (heap w2 rid)) b = dev_mem (tag (heap w1 rid)) b.
Proof.
  intros Hok.
  destruct (nfcWrite_success_inv body w) as [props [s [rid [Hb [Hs [Hr [Hle Hall]]]]]]].
  { rewrite Hok. reflexivity. }
  destruct (nfcWrite_run body props s w rid (iterations (encode_buffer s))
              Hb Hs Hr Hle (le_n _))
    as [w1' [Hrun [Hcur [_ [_ [_ [_ [Hwt Hmem]]]]]]]].
  { intros j Hj. apply Hall. lia. }
  { intros Hlt. lia. }
  rewrite Nat.ltb_irrefl, Hok in Hrun. injection Hrun as <- ->.
  destruct (nfcWrite_run body props s w1 rid (iterations (encode_buffer s))
              Hb Hs ltac:(congruence) Hle (le_n _))
    as [w2 [Hrun2 [_ [Hother2 [_ [_ [_ [_ Hmem2]]]]]]]].
  { intros j Hj. rewrite Hwt. apply Hall. lia. }
  { intros Hlt. lia. }
  rewrite Nat.ltb_irrefl in Hrun2.
  exists w2. split; [exact Hrun2|].
  intros rid' b. destruct (Nat.eq_dec rid' rid) as [->|Hne].
  - rewrite Hmem2, Hmem.
    destruct ((4 <=? b) && (b <? 4 + Z.of_nat (iterations (encode_buffer s))));
      reflexivity.
  - rewrite (Hother2 rid' Hne). reflexivity.
Qed.

Lemma write_chars_prefix chars :
  forall room,
    write_chars chars room
    = firstn (length (write_chars chars room)) (concat chars).
Proof.
  induction chars as [|ch rest IH]; intros room; [reflexivity|].
  cbn [write_chars concat].
  destruct (length ch <=? room)%nat; [|reflexivity].
  rewrite length_app, firstn_app_2, <- IH. reflexivity.
Qed.

Lemma write_chars_all chars :
  forall room,
    (length (concat chars) <= room)%nat -> write_chars chars room = concat chars.
Proof.
  induction chars as [|ch rest IH]; intros room Hroom; [reflexivity|].
  cbn [write_chars concat] in *. rewrite length_app in Hroom.
  destruct (Nat.leb_spec (length ch) room); [|lia].
  rewrite IH by lia. reflexivity.
Qed.

(** X6.  The buffer of lines 79-80, for every string: a prefix of the
    UTF-8 bytes of the string followed by zero bytes up to the allocated
    length, and the prefix is all of the bytes exactly when they fit in
    the allocated length. *)
Theorem encode_buffer_shape s :
  exists m,
    (m <= length (Buffer_from s))%nat
    /\ encode_buffer s
       = firstn m (Buffer_from s) ++ repeat 0 (length (encode_buffer s) - m)
    /\ (m = length (Buffer_from s)
        <-> Buffer_byteLength s <= Z.of_nat (length (encode_buffer s))).
Proof.
  set (n := Z.to_nat (Math_ceil_div (Z.of_nat (length s)) blockSize * blockSize)).
  set (written := write_chars (utf8_chars s) n).
  assert (Henc : encode_buffer s = written ++ repeat 0 (n - length written)).
  { unfold encode_buffer, Buffer_write, Buffer_alloc. fold n.
    rewrite repeat_length. fold written. rewrite skipn_repeat. reflexivity. }
  assert (Hlen : length (encode_buffer s) = n).
  { unfold encode_buffer. rewrite Buffer_write_length.
    unfold Buffer_alloc. apply repeat_length. }
  pose proof (write_chars_prefix (utf8_chars s) n) as Hpre.
  pose proof (write_chars_length (utf8_chars s) n) as Hroom.
  fold written in Hpre, Hroom. fold (Buffer_from s) in Hpre.
  exists (length written).
  assert (Hm : (length written <= length (Buffer_from s))%nat).
  { rewrite Hpre at 1. rewrite length_firstn. lia. }
  split; [exact Hm|]. split.
  - rewrite <- Hpre, Hlen. exact Henc.
  - unfold Buffer_byteLength. rewrite Hlen. split.
    + intros Heq. lia.
    + intros Hfit. unfold written, Buffer_from.
      rewrite write_chars_all; [reflexivity|].
      fold (Buffer_from s). lia.
Qed.

Lemma write_stops_at_rejection_witness :
  exists w',
    nfcWrite_with JSON_stringify payload_a1 (world_with (tag_locked_at 5))
    = (res_write_error, w',
       [IOWrite 0 4 [123; 34; 97; 34]; IOWrite 0 5 [58; 49; 125; 0]])
    /\ dev_mem (tag (heap w' 0%nat)) 4 = [123; 34; 97; 34]
    /\ dev_mem (tag (heap w' 0%nat)) 5 = [0; 0; 0; 0].
Proof.
  destruct (write_stops_at_rejection JSON_stringify payload_a1 _ _
              (world_with (tag_locked_at 5)) 0%nat 1%nat
              eq_refl eq_refl eq_refl) as [w' [Hrun [Hin Hout]]].
  - vm_compute. discriminate.
  - vm_compute. lia.
  - intros j Hj. assert (j = 0) by lia. subst j. reflexivity.
  - reflexivity.
  - exists w'. split; [exact Hrun|]. split.
    + apply (Hin 0). lia.
    + rewrite (Hout 5) by lia. reflexivity.
Defined.

Lemma write_success_stores_chunks_witness :
  exists rid s,
    JSON_stringify payload_a1 = Some s
    /\ currentReader (world_with (blank_tag 49)) = Some rid
    /\ concat (map (fun j => dev_mem (tag (heap
                               (snd (fst (nfcWrite_with JSON_stringify payload_a1
                                            (world_with (blank_tag 49)))))
                               rid)) (4 + j))
                   (zrange 0 (iterations (encode_buffer s))))
       = encode_buffer s.
Proof.
  destruct (write_success_stores_chunks JSON_stringify payload_a1
              (world_with (blank_tag 49))
              (snd (fst (nfcWrite_with JSON_stringify payload_a1
                           (world_with (blank_tag 49)))))
              (snd (nfcWrite_with JSON_stringify payload_a1
                      (world_with (blank_tag 49))))
              eq_refl)
    as [props [s [rid [Hb [Hs [Hr [_ [_ Hcat]]]]]]]].
  exists rid, s. injection Hb as <-. auto.
Defined.

Lemma write_twice_witness :
  exists w2,
    nfcWrite payload_a1 (snd (fst (nfcWrite payload_a1 (world_with (blank_tag 49)))))
    = (res_written, w2,
       [IOWrite 0 4 [123; 34; 97; 34]; IOWrite 0 5 [58; 49; 125; 0]]).
Proof.
  destruct (write_twice payload_a1 (world_with (blank_tag 49))
              (snd (fst (nfcWrite payload_a1 (world_with (blank_tag 49)))))
              [IOWrite 0 4 [123; 34; 97; 34]; IOWrite 0 5 [58; 49; 125; 0]]
              eq_refl) as [w2 [Hrun _]].
  exists w2. exact Hrun.
Defined.

(* ================================================================== *)
(** ** Further properties of the session variable *)

Lemma run_events_app evs1 evs2 w :
  run_events (evs1 ++ evs2) w = run_events evs2 (run_events evs1 w).
Proof. unfold run_events. apply fold_left_app. Qed.

(** Events other than an attachment or an end leave [currentReader]. *)
Lemma session_kept evs :
  forall w,
    (forall e, In e evs -> attaches e = false /\ ends e = false) ->
    currentReader (run_events evs w) = currentReader w.
Proof.
  induction evs as [|e evs IH]; intros w Hevs; [reflexivity|].
  unfold run_events in *. cbn [fold_left]. rewrite IH.
  - destruct (Hevs e (or_introl eq_refl)) as [Ha He].
    destruct e; try discriminate; reflexivity.
  - intros e' He'. apply Hevs. right. exact He'.
Qed.

(** Without an attachment a cleared [currentReader] stays cleared. *)
Lemma session_stays_empty evs :
  forall w,
    (forall e, In e evs -> attaches e = false) ->
    currentReader w = None ->
    currentReader (run_events evs w) = None.
Proof.
  induction evs as [|e evs IH]; intros w Hevs Hw; [exact Hw|].
  unfold run_events in *. cbn [fold_left]. apply IH.
  - intros e' He'. apply Hevs. right. exact He'.
  - pose proof (Hevs e (or_introl eq_refl)) as Ha.
    destruct e; try discriminate; try exact Hw; reflexivity.
Qed.

(** X7.  The reader attached last is the current one, whatever happened
    before: after an attachment of reader [rid] followed only by card and
    error events, [currentReader] is [rid]. *)
Theorem last_attach_is_current w before rid name after :
  (forall e, In e after -> attaches e = false /\ ends e = false) ->
  currentReader (run_events (before ++ EvReader rid name :: after) w) = Some rid.
Proof.
  intros Hafter. rewrite run_events_app.
  change (run_events (EvReader rid name :: after) (run_events before w))
    with (run_events after (handle_event (EvReader rid name) (run_events before w))).
  rewrite (session_kept after _ Hafter). reflexivity.
Qed.

(** X8.  The end of any reader clears [currentReader], also when the
    reader that ended is not the current one: until the next attachment
    both routes answer 500 "No NFC reader connected." without a reader
    call, even with another reader still attached. *)
Theorem any_end_clears_session parse w before rid after :
  (forall e, In e after -> attaches e = false) ->
  let w' := run_events (before ++ EvEnd rid :: after) w in
  currentReader w' = None
  /\ (forall fuel, nfcRead parse fuel w' = Some (res_no_reader, []))
  /\ (forall body, nullish body = false ->
                   nfcWrite body w' = (res_no_reader, w', [])).
Proof.
  intros Hafter w'.
  assert (Hnone : currentReader w' = None).
  { subst w'. rewrite run_events_app.
    change (run_events (EvEnd rid :: after) (run_events before w))
      with (run_events after (handle_event (EvEnd rid) (run_events before w))).
    apply session_stays_empty; [exact Hafter|reflexivity]. }
  split; [exact Hnone|]. split.
  - intros fuel. unfold nfcRead, nfcRead_try. rewrite Hnone. reflexivity.
  - intros body Hbody. destruct (nullish_rest_properties body Hbody) as [props Hp].
    unfold nfcWrite, nfcWrite_with, nfcWrite_try, nfcWrite_try_with. rewrite Hp. cbn [ToBoolean negb].
    rewrite Hnone. reflexivity.
Qed.

Lemma last_attach_is_current_witness :
  currentReader
    (run_events ([EvReader 0 "ACR122U"; EvEnd 0]
                 ++ EvReader 1 "ACR1252U"
                 :: [EvCard 1 "NTAG215"%string (blank_tag 49); EvReaderError 1])
       world_without_reader)
  = Some 1%nat.
Proof.
  apply (last_attach_is_current world_without_reader
           [EvReader 0 "ACR122U"; EvEnd 0] 1%nat "ACR1252U"
           [EvCard 1 "NTAG215"%string (blank_tag 49); EvReaderError 1]).
  intros e [<-|[<-|[]]]; split; reflexivity.
Defined.

Lemma any_end_clears_session_witness :
  currentReader world_two_readers = Some 1%nat
  /\ has_card (heap (run_events ([] ++ EvEnd 0 :: [EvReaderError 1]) world_two_readers) 1%nat)
     = true
  /\ nfcRead JSON_parse_ref 9
       (run_events ([] ++ EvEnd 0 :: [EvReaderError 1]) world_two_readers)
     = Some (res_no_reader, []).
Proof.
  split; [reflexivity|]. split; [reflexivity|].
  destruct (any_end_clears_session JSON_parse_ref world_two_readers []
              0%nat [EvReaderError 1]) as [_ [Hread _]].
  - intros e [<-|[]]. reflexivity.
  - apply Hread.
Defined.

(* ================================================================== *)
(** ** Further properties of the read route *)

(** A loop that returns has made one read per iteration, block after
    block, at least one and at most as many as its fuel. *)
Lemma read_loop_trace fuel :
  forall rid w i buffer b tr,
    read_loop fuel rid w i buffer = Some (b, tr) ->
    exists n, (1 <= n <= fuel)%nat /\ tr = reads rid i n.
Proof.
  induction fuel as [|fuel IH]; intros rid w i buffer b tr Hrun; [discriminate|].
  rewrite read_loop_unfold in Hrun.
  destruct (reader_read rid (4 + i) blockSize w) as [chunk|].
  - destruct (Z.of_nat (length (chunkData_of chunk)) <? blockSize).
    + injection Hrun as _ <-. exists 1%nat. split; [lia|reflexivity].
    + destruct (read_loop fuel rid w (i + 1) (buffer ++ Buffer_from (chunkData_of chunk)))
        as [[b' tr']|] eqn:Hrec; [|discriminate].
      injection Hrun as _ <-.
      destruct (IH _ _ _ _ _ _ Hrec) as [n [Hn ->]].
      exists (S n). split; [lia|reflexivity].
  - injection Hrun as _ <-. exists 1%nat. split; [lia|reflexivity].
Qed.

Lemma trim_start_In x s : In x (trim_start s) -> In x s.
Proof.
  induction s as [|c s IH]; [auto|]. cbn [trim_start].
  destruct (is_js_space c); [|auto]. intros H. right. apply IH. exact H.
Qed.

(** The reconstructed text holds no null character. *)
Lemma reconstruct_no_null buffer : ~ In 0 (reconstruct buffer).
Proof.
  unfold reconstruct, trim. intros H.
  apply in_rev, trim_start_In, in_rev, trim_start_In in H.
  unfold strip_nulls in H. apply filter_In in H. destruct H as [_ H].
  discriminate.
Qed.

(** X9.  Every answer of the read route.  Without a reader it is 500 "No
    NFC reader connected.", without a card 404, both without a reader
    call.  Otherwise the calls are reads of consecutive blocks from block
    4 of the current reader, at least one, and the answer is 200 only
    with [JSON.parse] of a text that begins and ends with a brace and
    holds no null; a text that is not framed and a text that does not
    parse get the same 500 "Error reading NFC tag". *)
Theorem read_outcomes parse fuel w r tr :
  nfcRead parse fuel w = Some (r, tr) ->
  (currentReader w = None /\ r = res_no_reader /\ tr = [])
  \/ (exists rid, currentReader w = Some rid /\ card (heap w rid) = None
                  /\ r = res_no_card /\ tr = [])
  \/ (exists rid c buffer n,
        currentReader w = Some rid /\ card (heap w rid) = Some c
        /\ read_loop fuel rid w 0 [] = Some (buffer, tr)
        /\ (1 <= n <= fuel)%nat /\ tr = reads rid 0 n
        /\ ~ In 0 (reconstruct buffer)
        /\ ((looks_like_json (reconstruct buffer) = false /\ r = res_read_error)
            \/ (looks_like_json (reconstruct buffer) = true
                /\ parse (reconstruct buffer) = None /\ r = res_read_error)
            \/ (exists data,
                  looks_like_json (reconstruct buffer) = true
                  /\ parse (reconstruct buffer) = Some data
                  /\ r = res_data data))).
Proof.
  unfold nfcRead, nfcRead_try. intros Hrun.
  destruct (currentReader w) as [rid|]; [|injection Hrun as <- <-; auto].
  right. destruct (card (heap w rid)) as [c|] eqn:Hc;
    [|injection Hrun as <- <-; left; exists rid; auto].
  right. change (Buffer_alloc 0) with (@nil Z) in Hrun.
  destruct (read_loop fuel rid w 0 []) as [[buffer tr']|] eqn:Hloop; [|discriminate].
  assert (Htr' : tr' = tr).
  { destruct (finish_read parse buffer); injection Hrun as _ <-; reflexivity. }
  subst tr'.
  destruct (read_loop_trace _ _ _ _ _ _ _ Hloop) as [n [Hn Htr]].
  exists rid, c, buffer, n.
  split; [reflexivity|]. split; [exact Hc|]. split; [exact Hloop|].
  split; [exact Hn|]. split; [exact Htr|].
  split; [apply reconstruct_no_null|].
  unfold finish_read, looks_like_json in *.
  destruct (startsWith (reconstruct buffer) 123), (endsWith (reconstruct buffer) 125);
    cbn [negb orb andb] in *;
    try (injection Hrun as <-; left; split; reflexivity).
  destruct (parse (reconstruct buffer)) as [data|].
  - injection Hrun as <-. right. right. exists data. auto.
  - injection Hrun as <-. right. left. auto.
Qed.

(** X10.  An empty first block.  When block 4 is rejected on read or
    holds only null bytes, the route makes that one read and answers 500
    "Error reading NFC tag": the empty text is not framed. *)
Theorem empty_first_block parse fuel w rid c :
  currentReader w = Some rid ->
  card (heap w rid) = Some c ->
  (dev_readable (tag (heap w rid)) 4 = false
   \/ Forall (fun x => x = 0) (dev_mem (tag (heap w rid)) 4)) ->
  nfcRead_try parse (S fuel) w = Some (Throw framing_error, [IORead rid 4 4])
  /\ nfcRead parse (S fuel) w = Some (res_read_error, [IORead rid 4 4]).
Proof.
  intros Hr Hc Hblock.
  assert (Hloop : read_loop (S fuel) rid w 0 [] = Some ([], [IORead rid 4 4])).
  { rewrite read_loop_unfold. unfold reader_read. change (4 + 0) with 4.
    destruct Hblock as [Hno|Hzero].
    - rewrite Hno. reflexivity.
    - destruct (dev_readable (tag (heap w rid)) 4); [|reflexivity].
      assert (Hz : dev_mem (tag (heap w rid)) 4
                   = repeat 0 (length (dev_mem (tag (heap w rid)) 4))).
      { apply Forall_eq_repeat. revert Hzero. apply Forall_impl.
        intros x Hx. symmetry. exact Hx. }
      pose proof (chunkData_of_padded []
                    (length (dev_mem (tag (heap w rid)) 4)) (Forall_nil _)) as Hcd.
      cbn [app] in Hcd. rewrite Hz, Hcd. reflexivity. }
  assert (Htry : nfcRead_try parse (S fuel) w
                 = Some (Throw framing_error, [IORead rid 4 4])).
  { unfold nfcRead_try. rewrite Hr, Hc.
    change (Buffer_alloc 0) with (@nil Z). rewrite Hloop. reflexivity. }
  split; [exact Htry|]. unfold nfcRead. rewrite Htry. reflexivity.
Qed.

(** X11.  The read route has no size limit.  A tag whose blocks from 4 on
    hold an ASCII text in braces of any length, padded with zero bytes to
    a whole number [n] of blocks, and ended, when there is no padding, by
    a block that is rejected or null, is read in full: the route answers
    with [JSON.parse] of the text. *)
Theorem read_has_no_size_limit parse w rid c text pad n fuel :
  currentReader w = Some rid ->
  card (heap w rid) = Some c ->
  ascii_text text ->
  startsWith text 123 = true ->
  endsWith text 125 = true ->
  (pad < 4)%nat ->
  (length text + pad = 4 * n)%nat ->
  (forall j, (j < n)%nat ->
     reader_read rid (4 + Z.of_nat j) blockSize w
     = Some (firstn 4 (skipn (4 * j) (text ++ repeat 0 pad)))) ->
  (pad = 0%nat ->
     dev_readable (tag (heap w rid)) (4 + Z.of_nat n) = false
     \/ Forall (fun x => x = 0) (dev_mem (tag (heap w rid)) (4 + Z.of_nat n))) ->
  (n < fuel)%nat ->
  exists tr,
    nfcRead parse fuel w
    = Some (match parse text with
            | Some data => res_data data
            | None => res_read_error
            end, tr).
Proof.
  intros Hr Hc Htext Hstart Hend Hpad Hlen Hblocks Hlast Hfuel.
  destruct (read_back n text pad 0 [] fuel rid w Htext Hpad Hlen) as [tr Hread].
  - intros j Hj. rewrite Z.add_0_l. apply Hblocks. exact Hj.
  - intros Hp0. specialize (Hlast Hp0). rewrite Z.add_0_l.
    unfold stops_at, block_text, reader_read.
    destruct Hlast as [Hno|Hzero].
    + rewrite Hno. split; reflexivity.
    + destruct (dev_readable (tag (heap w rid)) (4 + Z.of_nat n));
        [|split; reflexivity].
      assert (Hz : dev_mem (tag (heap w rid)) (4 + Z.of_nat n)
                   = repeat 0 (length (dev_mem (tag (heap w rid)) (4 + Z.of_nat n)))).
      { apply Forall_eq_repeat. revert Hzero. apply Forall_impl.
        intros x Hx. symmetry. exact Hx. }
      pose proof (chunkData_of_padded []
                    (length (dev_mem (tag (heap w rid)) (4 + Z.of_nat n)))
                    (Forall_nil _)) as Hcd.
      cbn [app] in Hcd. rewrite Hz, Hcd. split; reflexivity.
  - exact Hfuel.
  - exists tr. cbn [app] in Hread. unfold nfcRead, nfcRead_try.
    rewrite Hr, Hc. change (Buffer_alloc 0) with (@nil Z). rewrite Hread.
    unfold finish_read.
    rewrite (reconstruct_framed text Htext Hstart Hend), Hstart, Hend.
    cbn [negb orb]. destruct (parse text); reflexivity.
Qed.

Lemma nth_map_seq {A} (f : nat -> A) d n :
  forall a j, (j < n)%nat -> nth j (map f (seq a n)) d = f (a + j)%nat.
Proof.
  induction n as [|n IH]; intros a j Hj; [lia|].
  cbn [seq map]. destruct j as [|j]; cbn [nth].
  - f_equal. lia.
  - rewrite IH by lia. f_equal. lia.
Qed.

Lemma nth_split_blocks n (l : list Z) j :
  (j < n)%nat -> nth j (split_blocks n l) [] = firstn 4 (skipn (4 * j) l).
Proof.
  intros Hj. unfold split_blocks. rewrite nth_map_seq by exact Hj. reflexivity.
Qed.

Lemma read_tag_of_blocks blocks j :
  (j < length blocks)%nat ->
  reader_read 0 (4 + Z.of_nat j) blockSize (world_with (tag_of_blocks blocks))
  = Some (nth j blocks []).
Proof.
  intros Hj. unfold reader_read.
  cbn [world_with heap tag tag_of_blocks dev_readable dev_mem].
  destruct (Z.leb_spec 4 (4 + Z.of_nat j)); [|lia].
  destruct (Z.ltb_spec (4 + Z.of_nat j) (4 + Z.of_nat (length blocks))); [|lia].
  cbn [andb]. replace (Z.to_nat (4 + Z.of_nat j - 4)) with j by lia.
  reflexivity.
Qed.

Lemma read_has_no_size_limit_witness :
  fst (fst (nfcWrite (payload_x 200) (world_with (blank_tag 60)))) = res_too_large
  /\ exists tr,
       nfcRead JSON_parse_ref 60
         (world_with (tag_of_blocks (split_blocks 52 (text_x 200))))
       = Some (res_data (payload_x 200), tr).
Proof.
  split; [vm_compute; reflexivity|].
  destruct (read_has_no_size_limit JSON_parse_ref
              (world_with (tag_of_blocks (split_blocks 52 (text_x 200))))
              0%nat "NTAG215"%string (text_x 200) 0%nat 52%nat 60%nat
              eq_refl eq_refl) as [tr Hrun].
  - apply ascii_textb_ok. vm_compute. reflexivity.
  - reflexivity.
  - vm_compute. reflexivity.
  - lia.
  - vm_compute. reflexivity.
  - intros j Hj. rewrite read_tag_of_blocks
      by (unfold split_blocks; rewrite length_map, length_seq; exact Hj).
    rewrite nth_split_blocks by exact Hj. rewrite app_nil_r. reflexivity.
  - intros _. left. vm_compute. reflexivity.
  - lia.
  - exists tr. rewrite Hrun.
    assert (Hparse : JSON_parse_ref (text_x 200) = Some (payload_x 200))
      by (vm_compute; reflexivity).
    rewrite Hparse. reflexivity.
Defined.

Lemma read_outcomes_witness :
  exists rid buffer,
    read_loop 9 rid (world_with tag_a12) 0 [] = Some (buffer, reads rid 0 3)
    /\ JSON_parse_ref (reconstruct buffer) = Some payload_a12.
Proof.
  destruct (read_outcomes JSON_parse_ref 9 (world_with tag_a12)
              (res_data payload_a12) (reads 0 0 3) eq_refl)
    as [[Hnone _]|[[rid [_ [Hcard _]]]|[rid [c [buffer [n [Hr [_ [Hloop [_ [_ [_ Hcase]]]]]]]]]]]].
  - discriminate.
  - discriminate.
  - injection Hr as <-. exists 0%nat, buffer. split; [exact Hloop|].
    destruct Hcase as [[_ Hbad]|[[_ [_ Hbad]]|[data [_ [Hparse Hdata]]]]];
      try discriminate.
    rewrite Hparse. injection Hdata as <-. reflexivity.
Defined.

Lemma empty_first_block_witness :
  nfcRead JSON_parse_ref 1 (world_with (blank_tag 49))
  = Some (res_read_error, [IORead 0 4 4]).
Proof.
  apply (empty_first_block JSON_parse_ref 0 (world_with (blank_tag 49))
           0%nat "NTAG215"%string eq_refl eq_refl).
  right. repeat constructor.
Defined.

(* ================================================================== *)
(** ** UTF-8: what is decoded is well formed, what is well formed is
       decoded back *)

Lemma land_shiftl_small a n y :
  0 <= n -> 0 <= y < 2 ^ n -> Z.land (Z.shiftl a n) y = 0.
Proof.
  intros Hn Hy. apply Z.bits_inj'. intros k Hk.
  rewrite Z.land_spec, Z.bits_0.
  destruct (Z.lt_ge_cases k n) as [Hlt|Hge].
  - rewrite Z.shiftl_spec_low by lia. reflexivity.
  - destruct (Z.eq_dec y 0) as [->|Hne].
    + rewrite Z.bits_0. apply andb_false_r.
    + rewrite (Z.bits_above_log2 y k); [apply andb_false_r|lia|].
      apply Z.log2_lt_pow2; [lia|].
      apply Z.lt_le_trans with (2 ^ n); [lia|].
      apply Z.pow_le_mono_r; lia.
Qed.

(** Or-ing bits below a shifted value adds them. *)
Lemma lor_shiftl_small a n y :
  0 <= n -> 0 <= y < 2 ^ n -> Z.lor (Z.shiftl a n) y = a * 2 ^ n + y.
Proof.
  intros Hn Hy. pose proof (land_shiftl_small a n y Hn Hy) as H0.
  rewrite <- Z.lxor_lor by exact H0.
  rewrite <- Z.add_nocarry_lxor by exact H0.
  rewrite Z.shiftl_mul_pow2 by exact Hn. reflexivity.
Qed.

Lemma land_low x n : 0 <= n -> Z.land x (Z.ones n) = x mod 2 ^ n.
Proof. intros Hn. apply Z.land_ones. exact Hn. Qed.

(** One continuation byte added to the bits gathered so far. *)
Lemma decode_cont bits b :
  Z.lor (Z.shiftl bits 6) (Z.land b 0x3F) = bits * 64 + b mod 64.
Proof.
  change 0x3F with (Z.ones 6). rewrite land_low by lia.
  rewrite lor_shiftl_small; [reflexivity|lia|].
  apply Z.mod_pos_bound. lia.
Qed.

Lemma lead_bits b k : 0 <= k -> Z.land b (Z.ones k) = b mod 2 ^ k.
Proof. apply land_low. Qed.

Lemma decode_lead_pending b out p :
  decode_lead b = (out, Some p) -> pending_ok p.
Proof.
  unfold decode_lead.
  destruct ((0 <=? b) && (b <=? 0x7F)); [discriminate|].
  destruct (Z.leb_spec 0xC2 b) as [L1|L1], (Z.leb_spec b 0xDF) as [U1|U1];
    cbn [andb];
    try (intros Heq; injection Heq as _ <-; unfold pending_ok;
         cbn [p_due p_bits p_lower p_upper seq_ok];
         intros x Hx; rewrite decode_cont; change 0x1F with (Z.ones 5);
         rewrite land_low by lia; change (2 ^ 5) with 32; unfold scalar;
         Z.div_mod_to_equations; lia).
  all: destruct (Z.leb_spec 0xE0 b) as [L2|L2], (Z.leb_spec b 0xEF) as [U2|U2];
    cbn [andb];
    try (intros Heq; injection Heq as _ <-; unfold pending_ok;
         cbn [p_due p_bits p_lower p_upper seq_ok];
         intros x1 Hx1 x2 Hx2; rewrite !decode_cont; change 0xF with (Z.ones 4);
         rewrite land_low by lia; change (2 ^ 4) with 16; unfold scalar;
         destruct (Z.eqb_spec b 0xE0), (Z.eqb_spec b 0xED);
         Z.div_mod_to_equations; lia).
  all: destruct (Z.leb_spec 0xF0 b) as [L3|L3], (Z.leb_spec b 0xF4) as [U3|U3];
    cbn [andb];
    try discriminate;
    intros Heq; injection Heq as _ <-; unfold pending_ok;
    cbn [p_due p_bits p_lower p_upper seq_ok];
    intros x1 Hx1 x2 Hx2 x3 Hx3; rewrite !decode_cont; change 0x7 with (Z.ones 3);
    rewrite land_low by lia; change (2 ^ 3) with 8; unfold scalar;
    destruct (Z.eqb_spec b 0xF0), (Z.eqb_spec b 0xF4);
    Z.div_mod_to_equations; lia.
Qed.

Lemma decode_lead_scalar b out st :
  decode_lead b = (out, st) -> Forall scalar out.
Proof.
  unfold decode_lead.
  destruct (Z.leb_spec 0 b) as [L0|L0], (Z.leb_spec b 0x7F) as [U0|U0]; cbn [andb];
    try (intros Heq; injection Heq as <- _; constructor;
         [unfold scalar; lia|constructor]).
  all: repeat match goal with
         | |- (if ?c then _ else _) = _ -> _ => destruct c
         end;
    intros Heq; injection Heq as <- _; repeat constructor; unfold scalar; lia.
Qed.

Lemma scalar_replacement : scalar 0xFFFD.
Proof. unfold scalar. lia. Qed.

(** The decoder emits scalar values only. *)
Lemma utf8_decode_scalar bs :
  Forall scalar (utf8_decode None bs)
  /\ (forall p, pending_ok p -> Forall scalar (utf8_decode (Some p) bs)).
Proof.
  induction bs as [|b rest [IHn IHp]].
  - split; [constructor|]. intros p _. constructor; [apply scalar_replacement|constructor].
  - assert (Hlead : forall out st, decode_lead b = (out, st) ->
                      Forall scalar (out ++ utf8_decode st rest)).
    { intros out st Heq. apply Forall_app. split.
      - apply (decode_lead_scalar b out st Heq).
      - destruct st as [p|]; [|exact IHn].
        apply IHp. apply (decode_lead_pending b out p Heq). }
    split.
    + cbn [utf8_decode]. destruct (decode_lead b) as [out st] eqn:Heq.
      apply Hlead. reflexivity.
    + intros p Hp. cbn [utf8_decode].
      destruct (Z.leb_spec (p_lower p) b) as [Hlo|Hlo]; cbn [andb].
      * destruct (Z.leb_spec b (p_upper p)) as [Hhi|Hhi].
        -- unfold pending_ok in Hp.
           destruct (p_due p) as [|[|n]]; cbn [seq_ok] in Hp.
           ++ constructor; [apply Hp; lia|exact IHn].
           ++ constructor; [apply Hp; lia|exact IHn].
           ++ apply IHp. unfold pending_ok. cbn [p_due p_bits p_lower p_upper].
              apply Hp. lia.
        -- destruct (decode_lead b) as [out st] eqn:Heq.
           constructor; [apply scalar_replacement|]. apply Hlead. reflexivity.
      * destruct (decode_lead b) as [out st] eqn:Heq.
        constructor; [apply scalar_replacement|]. apply Hlead. reflexivity.
Qed.

Lemma well_formed_app a b : well_formed a -> well_formed b -> well_formed (a ++ b).
Proof.
  intros Ha Hb. induction Ha; cbn [app]; [exact Hb| |].
  - apply wf_unit; assumption.
  - apply wf_pair; assumption.
Qed.

(** The code units of a scalar value are well formed. *)
Lemma well_formed_utf16 cp : scalar cp -> well_formed (utf16_of_code_point cp).
Proof.
  intros Hcp. unfold utf16_of_code_point, scalar in *.
  destruct (Z.ltb_spec cp 0x10000) as [Hlt|Hge].
  - apply wf_unit; [lia| | |constructor].
    + unfold is_high_surrogate.
      destruct (Z.leb_spec 0xD800 cp), (Z.leb_spec cp 0xDBFF); cbn [andb];
        try reflexivity; lia.
    + unfold is_low_surrogate.
      destruct (Z.leb_spec 0xDC00 cp), (Z.leb_spec cp 0xDFFF); cbn [andb];
        try reflexivity; lia.
  - apply wf_pair; [| |constructor].
    + unfold is_high_surrogate. rewrite Z.shiftr_div_pow2 by lia.
      change (2 ^ 10) with 1024.
      apply andb_true_iff. split; apply Z.leb_le; Z.div_mod_to_equations; lia.
    + unfold is_low_surrogate. change 0x3FF with (Z.ones 10).
      rewrite land_low by lia. change (2 ^ 10) with 1024.
      apply andb_true_iff. split; apply Z.leb_le; Z.div_mod_to_equations; lia.
Qed.

(** [toString('utf-8')] returns a well-formed string. *)
Lemma well_formed_toString bs : well_formed (toString_utf8 bs).
Proof.
  unfold toString_utf8. pose proof (proj1 (utf8_decode_scalar bs)) as H.
  induction H as [|cp cps Hcp Hcps IH]; [constructor|].
  cbn [flat_map]. apply well_formed_app; [apply well_formed_utf16; exact Hcp|exact IH].
Qed.

Lemma well_formed_strip_nulls s : well_formed s -> well_formed (strip_nulls s).
Proof.
  intros Hs. unfold strip_nulls. induction Hs as [|c s Hc Hh Hl Hs IH|h l s Hh Hl Hs IH].
  - constructor.
  - cbn [filter]. destruct (negb (c =? 0)); [|exact IH].
    apply wf_unit; assumption.
  - cbn [filter].
    assert (Hh0 : negb (h =? 0) = true).
    { unfold is_high_surrogate in Hh. apply andb_true_iff in Hh.
      destruct Hh as [Hh _]. apply Z.leb_le in Hh.
      destruct (Z.eqb_spec h 0); [lia|reflexivity]. }
    assert (Hl0 : negb (l =? 0) = true).
    { unfold is_low_surrogate in Hl. apply andb_true_iff in Hl.
      destruct Hl as [Hl _]. apply Z.leb_le in Hl.
      destruct (Z.eqb_spec l 0); [lia|reflexivity]. }
    rewrite Hh0, Hl0. apply wf_pair; assumption.
Qed.

(** The text of a chunk is well formed. *)
Lemma well_formed_chunkData chunk : well_formed (chunkData_of chunk).
Proof. apply well_formed_strip_nulls, well_formed_toString. Qed.

Lemma utf8_chars_unit c s :
  is_high_surrogate c = false -> is_low_surrogate c = false ->
  utf8_chars (c :: s) = utf8_of_code_point c :: utf8_chars s.
Proof. intros Hh Hl. cbn [utf8_chars]. rewrite Hh, Hl. reflexivity. Qed.

Lemma utf8_chars_pair h l s :
  is_high_surrogate h = true -> is_low_surrogate l = true ->
  utf8_chars (h :: l :: s)
  = utf8_of_code_point (0x10000 + Z.shiftl (h - 0xD800) 10 + (l - 0xDC00))
    :: utf8_chars s.
Proof. intros Hh Hl. cbn [utf8_chars]. rewrite Hh, Hl. reflexivity. Qed.

(** Encoding goes through the concatenation of well-formed strings. *)
Lemma Buffer_from_app a b :
  well_formed a -> Buffer_from (a ++ b) = Buffer_from a ++ Buffer_from b.
Proof.
  intros Ha. unfold Buffer_from.
  induction Ha as [|c s Hc Hh Hl Hs IH|h l s Hh Hl Hs IH]; [reflexivity| |].
  - cbn [app]. rewrite !utf8_chars_unit by assumption.
    cbn [concat]. rewrite IH, app_assoc. reflexivity.
  - cbn [app]. rewrite !utf8_chars_pair by assumption.
    cbn [concat]. rewrite IH, app_assoc. reflexivity.
Qed.

Lemma decode_lead_two b :
  0xC2 <= b <= 0xDF ->
  decode_lead b = ([], Some (mkPending (Z.land b 0x1F) 1 0x80 0xBF)).
Proof.
  intros Hb. unfold decode_lead.
  destruct (Z.leb_spec 0 b), (Z.leb_spec b 0x7F); cbn [andb]; try lia.
  destruct (Z.leb_spec 0xC2 b), (Z.leb_spec b 0xDF); cbn [andb]; try lia.
  reflexivity.
Qed.

Lemma decode_lead_three b :
  0xE0 <= b <= 0xEF ->
  decode_lead b
  = ([], Some (mkPending (Z.land b 0xF) 2
                 (if b =? 0xE0 then 0xA0 else 0x80)
                 (if b =? 0xED then 0x9F else 0xBF))).
Proof.
  intros Hb. unfold decode_lead.
  destruct (Z.leb_spec 0 b), (Z.leb_spec b 0x7F); cbn [andb]; try lia.
  destruct (Z.leb_spec 0xC2 b), (Z.leb_spec b 0xDF); cbn [andb]; try lia.
  destruct (Z.leb_spec 0xE0 b), (Z.leb_spec b 0xEF); cbn [andb]; try lia.
  reflexivity.
Qed.

Lemma decode_lead_four b :
  0xF0 <= b <= 0xF4 ->
  decode_lead b
  = ([], Some (mkPending (Z.land b 0x7) 3
                 (if b =? 0xF0 then 0x90 else 0x80)
                 (if b =? 0xF4 then 0x8F else 0xBF))).
Proof.
  intros Hb. unfold decode_lead.
  destruct (Z.leb_spec 0 b), (Z.leb_spec b 0x7F); cbn [andb]; try lia.
  destruct (Z.leb_spec 0xC2 b), (Z.leb_spec b 0xDF); cbn [andb]; try lia.
  destruct (Z.leb_spec 0xE0 b), (Z.leb_spec b 0xEF); cbn [andb]; try lia.
  destruct (Z.leb_spec 0xF0 b), (Z.leb_spec b 0xF4); cbn [andb]; try lia.
  reflexivity.
Qed.

(** A continuation byte of the encoder. *)
Lemma cont_byte x : Z.lor 0x80 (Z.land x 0x3F) = 128 + x mod 64.
Proof.
  change 0x3F with (Z.ones 6). rewrite land_low by lia.
  change 0x80 with (Z.shiftl 2 6). rewrite lor_shiftl_small; [reflexivity|lia|].
  apply Z.mod_pos_bound. lia.
Qed.

Lemma lead_byte a n y :
  0 <= n -> 0 <= y < 2 ^ n -> Z.lor (a * 2 ^ n) y = a * 2 ^ n + y.
Proof.
  intros Hn Hy. rewrite <- (Z.shiftl_mul_pow2 a n) by exact Hn.
  rewrite lor_shiftl_small by assumption.
  rewrite Z.shiftl_mul_pow2 by exact Hn. reflexivity.
Qed.

(** The bytes of a code point, in arithmetic. *)
Lemma utf8_of_code_point_bytes cp :
  0 <= cp < 0x110000 ->
  utf8_of_code_point cp
  = if cp <? 0x80 then [cp]
    else if cp <? 0x800 then [192 + cp / 64; 128 + cp mod 64]
    else if cp <? 0x10000 then
      [224 + cp / 4096; 128 + (cp / 64) mod 64; 128 + cp mod 64]
    else [240 + cp / 262144; 128 + (cp / 4096) mod 64;
          128 + (cp / 64) mod 64; 128 + cp mod 64].
Proof.
  intros Hcp. unfold utf8_of_code_point.
  destruct (Z.ltb_spec cp 0x80); [reflexivity|].
  rewrite !cont_byte, !Z.shiftr_div_pow2 by lia.
  change (2 ^ 6) with 64. change (2 ^ 12) with 4096. change (2 ^ 18) with 262144.
  destruct (Z.ltb_spec cp 0x800).
  { change 0xC0 with (3 * 2 ^ 6). rewrite lead_byte; [reflexivity|lia|].
    change (2 ^ 6) with 64. Z.div_mod_to_equations. lia. }
  destruct (Z.ltb_spec cp 0x10000).
  { change 0xE0 with (14 * 2 ^ 4). rewrite lead_byte; [reflexivity|lia|].
    change (2 ^ 4) with 16. Z.div_mod_to_equations. lia. }
  change 0xF0 with (30 * 2 ^ 3). rewrite lead_byte; [reflexivity|lia|].
  change (2 ^ 3) with 8. Z.div_mod_to_equations. lia.
Qed.

(** Decoding the bytes of a scalar value gives it back. *)
Lemma decode_encoded cp rest :
  scalar cp ->
  utf8_decode None (utf8_of_code_point cp ++ rest) = cp :: utf8_decode None rest.
Proof.
  intros Hcp. unfold scalar in Hcp.
  rewrite utf8_of_code_point_bytes by lia.
  destruct (Z.ltb_spec cp 0x80).
  { cbn [app utf8_decode]. rewrite decode_lead_ascii by lia. reflexivity. }
  destruct (Z.ltb_spec cp 0x800).
  { cbn [app utf8_decode].
    rewrite decode_lead_two by (Z.div_mod_to_equations; lia).
    cbn [p_lower p_upper p_bits p_due app].
    destruct (Z.leb_spec 0x80 (128 + cp mod 64)) as [_|Hbad];
      [|Z.div_mod_to_equations; lia].
    destruct (Z.leb_spec (128 + cp mod 64) 0xBF) as [_|Hbad];
      [|Z.div_mod_to_equations; lia].
    cbn [andb]. rewrite decode_cont. change 0x1F with (Z.ones 5).
    rewrite land_low by lia. change (2 ^ 5) with 32.
    f_equal. Z.div_mod_to_equations. lia. }
  destruct (Z.ltb_spec cp 0x10000).
  { cbn [app utf8_decode].
    rewrite decode_lead_three by (Z.div_mod_to_equations; lia).
    cbn [p_lower p_upper p_bits p_due app].
    destruct (Z.leb_spec (if 224 + cp / 4096 =? 0xE0 then 0xA0 else 0x80)
                         (128 + (cp / 64) mod 64)) as [_|Hbad];
      [|destruct (Z.eqb_spec (224 + cp / 4096) 0xE0);
        Z.div_mod_to_equations; lia].
    destruct (Z.leb_spec (128 + (cp / 64) mod 64)
                         (if 224 + cp / 4096 =? 0xED then 0x9F else 0xBF)) as [_|Hbad];
      [|destruct (Z.eqb_spec (224 + cp / 4096) 0xED);
        Z.div_mod_to_equations; lia].
    cbn [andb utf8_decode p_lower p_upper p_bits p_due].
    destruct (Z.leb_spec 0x80 (128 + cp mod 64)) as [_|Hbad];
      [|Z.div_mod_to_equations; lia].
    destruct (Z.leb_spec (128 + cp mod 64) 0xBF) as [_|Hbad];
      [|Z.div_mod_to_equations; lia].
    cbn [andb]. rewrite !decode_cont. change 0xF with (Z.ones 4).
    rewrite land_low by lia. change (2 ^ 4) with 16.
    f_equal. Z.div_mod_to_equations. lia. }
  cbn [app utf8_decode].
  rewrite decode_lead_four by (Z.div_mod_to_equations; lia).
  cbn [p_lower p_upper p_bits p_due app].
  destruct (Z.leb_spec (if 240 + cp / 262144 =? 0xF0 then 0x90 else 0x80)
                       (128 + (cp / 4096) mod 64)) as [_|Hbad];
    [|destruct (Z.eqb_spec (240 + cp / 262144) 0xF0);
      Z.div_mod_to_equations; lia].
  destruct (Z.leb_spec (128 + (cp / 4096) mod 64)
                       (if 240 + cp / 262144 =? 0xF4 then 0x8F else 0xBF)) as [_|Hbad];
    [|destruct (Z.eqb_spec (240 + cp / 262144) 0xF4);
      Z.div_mod_to_equations; lia].
  cbn [andb utf8_decode p_lower p_upper p_bits p_due].
  destruct (Z.leb_spec 0x80 (128 + (cp / 64) mod 64)) as [_|Hbad];
    [|Z.div_mod_to_equations; lia].
  destruct (Z.leb_spec (128 + (cp / 64) mod 64) 0xBF) as [_|Hbad];
    [|Z.div_mod_to_equations; lia].
  cbn [andb utf8_decode p_lower p_upper p_bits p_due].
  destruct (Z.leb_spec 0x80 (128 + cp mod 64)) as [_|Hbad];
    [|Z.div_mod_to_equations; lia].
  destruct (Z.leb_spec (128 + cp mod 64) 0xBF) as [_|Hbad];
    [|Z.div_mod_to_equations; lia].
  cbn [andb]. rewrite !decode_cont. change 0x7 with (Z.ones 3).
  rewrite land_low by lia. change (2 ^ 3) with 8.
  f_equal. Z.div_mod_to_equations. lia.
Qed.

Lemma surrogate_bounds h l :
  is_high_surrogate h = true -> is_low_surrogate l = true ->
  0xD800 <= h <= 0xDBFF /\ 0xDC00 <= l <= 0xDFFF.
Proof.
  unfold is_high_surrogate, is_low_surrogate. intros Hh Hl.
  apply andb_true_iff in Hh. apply andb_true_iff in Hl.
  destruct Hh as [H1 H2]. destruct Hl as [H3 H4].
  apply Z.leb_le in H1, H2, H3, H4. lia.
Qed.

Lemma not_surrogate_scalar c :
  0 <= c < 0x10000 ->
  is_high_surrogate c = false -> is_low_surrogate c = false -> scalar c.
Proof.
  unfold is_high_surrogate, is_low_surrogate, scalar. intros Hc Hh Hl.
  destruct (Z.leb_spec 0xD800 c), (Z.leb_spec c 0xDBFF); cbn [andb] in Hh;
    try discriminate;
    destruct (Z.leb_spec 0xDC00 c), (Z.leb_spec c 0xDFFF); cbn [andb] in Hl;
    try discriminate; lia.
Qed.

(** Decoding the encoding of a well-formed string gives the string back,
    whatever bytes follow. *)
Lemma toString_Buffer_from s :
  well_formed s ->
  forall bs, toString_utf8 (Buffer_from s ++ bs) = s ++ toString_utf8 bs.
Proof.
  intros Hs. unfold toString_utf8, Buffer_from.
  induction Hs as [|c s Hc Hh Hl Hs IH|h l s Hh Hl Hs IH]; intros bs; [reflexivity| |].
  - rewrite utf8_chars_unit by assumption. cbn [concat].
    rewrite <- app_assoc, decode_encoded by (apply not_surrogate_scalar; assumption).
    cbn [flat_map]. rewrite IH. unfold utf16_of_code_point.
    destruct (Z.ltb_spec c 0x10000); [reflexivity|lia].
  - rewrite utf8_chars_pair by assumption. cbn [concat].
    destruct (surrogate_bounds h l Hh Hl) as [Bh Bl].
    assert (Hcp : 0x10000 + Z.shiftl (h - 0xD800) 10 + (l - 0xDC00)
                  = 0x10000 + (h - 0xD800) * 1024 + (l - 0xDC00)).
    { rewrite Z.shiftl_mul_pow2 by lia. reflexivity. }
    rewrite Hcp.
    rewrite <- app_assoc, decode_encoded by (unfold scalar; lia).
    cbn [flat_map]. rewrite IH. unfold utf16_of_code_point.
    destruct (Z.ltb_spec (0x10000 + (h - 0xD800) * 1024 + (l - 0xDC00)) 0x10000);
      [lia|].
    rewrite Z.shiftr_div_pow2 by lia. change 0x3FF with (Z.ones 10).
    rewrite land_low by lia. change (2 ^ 10) with 1024. cbn [app].
    f_equal; [|f_equal]; Z.div_mod_to_equations; lia.
Qed.

Lemma strip_nulls_idempotent s : strip_nulls (strip_nulls s) = strip_nulls s.
Proof.
  unfold strip_nulls. induction s as [|c s IH]; [reflexivity|].
  cbn [filter]. destruct (negb (c =? 0)) eqn:Hc; [|exact IH].
  cbn [filter]. rewrite Hc, IH. reflexivity.
Qed.

Lemma chunk_text_facts rid w i :
  well_formed (chunk_text rid w i)
  /\ strip_nulls (chunk_text rid w i) = chunk_text rid w i
  /\ block_text rid w i = Buffer_from (chunk_text rid w i).
Proof.
  unfold chunk_text, block_text.
  destruct (reader_read rid (4 + i) blockSize w) as [chunk|].
  - split; [apply well_formed_chunkData|]. split; [|reflexivity].
    apply strip_nulls_idempotent.
  - split; [constructor|]. split; reflexivity.
Qed.

(** The buffer gathered from iterations [i ..] is the encoding of the
    chunk texts put together, and these are well formed and hold no
    null. *)
Lemma gathered_texts rid w n :
  forall i,
    concat (map (block_text rid w) (zrange i n))
    = Buffer_from (concat (map (chunk_text rid w) (zrange i n)))
    /\ well_formed (concat (map (chunk_text rid w) (zrange i n)))
    /\ strip_nulls (concat (map (chunk_text rid w) (zrange i n)))
       = concat (map (chunk_text rid w) (zrange i n)).
Proof.
  induction n as [|n IH]; intros i.
  - split; [reflexivity|]. split; [constructor|reflexivity].
  - cbn [zrange map concat].
    destruct (chunk_text_facts rid w i) as [Hwf [Hstrip Hblock]].
    destruct (IH (i + 1)) as [Hcat [Hwfs Hstrips]].
    split; [|split].
    + rewrite Buffer_from_app by exact Hwf. rewrite Hblock, Hcat. reflexivity.
    + apply well_formed_app; assumption.
    + rewrite strip_nulls_app, Hstrip, Hstrips. reflexivity.
Qed.

(** X12.  What the read route parses, for any tag whatever its bytes.
    When iteration [k] is the first to stop, the loop returns after the
    reads of blocks 4 .. 4+k, and the string reconstructed from its
    buffer is the chunk texts of these iterations put together and
    trimmed: encoding each text into the buffer and decoding the whole
    buffer loses nothing, and the second removal of nulls removes
    nothing. *)
Theorem parsed_text_is_chunk_texts parse w rid c k fuel :
  currentReader w = Some rid ->
  card (heap w rid) = Some c ->
  (forall j, (j < k)%nat -> stops_at rid w (Z.of_nat j) = false) ->
  stops_at rid w (Z.of_nat k) = true ->
  (k < fuel)%nat ->
  exists buffer,
    read_loop fuel rid w 0 [] = Some (buffer, reads rid 0 (S k))
    /\ reconstruct buffer
       = trim (concat (map (chunk_text rid w) (zrange 0 (S k))))
    /\ nfcRead_try parse fuel w
       = Some (finish_read parse buffer, reads rid 0 (S k)).
Proof.
  intros Hr Hc Hgo Hstop Hfuel.
  pose proof (read_loop_from_start rid w k fuel Hgo Hstop Hfuel) as Hrun.
  exists (gathered rid w (S k)). split; [exact Hrun|]. split.
  - unfold gathered, reconstruct.
    destruct (gathered_texts rid w (S k) 0) as [Hcat [Hwf Hstrip]].
    rewrite Hcat.
    rewrite <- (app_nil_r (Buffer_from _)).
    rewrite (toString_Buffer_from _ Hwf []).
    change (toString_utf8 []) with (@nil Z). rewrite app_nil_r, Hstrip.
    reflexivity.
  - unfold nfcRead_try. rewrite Hr, Hc, Hrun. reflexivity.
Qed.

Lemma parsed_text_is_chunk_texts_witness :
  exists buffer,
    read_loop 9 0 (world_with tag_e_acute) 0 []
    = Some (buffer, [IORead 0 4 4; IORead 0 5 4])
    /\ reconstruct buffer = [123; 34; 97; 34; 58; 34; 233].
Proof.
  destruct (parsed_text_is_chunk_texts JSON_parse_ref (world_with tag_e_acute)
              0%nat "NTAG215"%string 1%nat 9%nat eq_refl eq_refl)
    as [buffer [Hrun [Htext _]]].
  - intros j Hj. assert (j = 0%nat) by lia. subst j. reflexivity.
  - reflexivity.
  - lia.
  - exists buffer. split; [exact Hrun|]. rewrite Htext. reflexivity.
Defined.

(* ================================================================== *)
(** ** The round trip with the serializer and the parser written out *)


